(** * libgroove encoder: a shallow embedding of [src/encoder.c]

    The development follows the C file top to bottom:
    - machine integers and the partiality of C (overflow, reads through a
      null pointer, reads past an array) as [option];
    - the format negotiator ([abs_diff], [codec_supports_fmt],
      [closest_supported_sample_fmt], [closest_supported_sample_rate],
      [closest_supported_channel_layout]);
    - the output queue the encoder talks to ([queue.h]);
    - the chunk producer [encoder_write_packet], the worker [encode_thread],
      the sink callbacks and [groove_encoder_get_buffer];
    - the session life cycle [groove_encoder_attach] / [groove_encoder_detach]
      over a world that tracks which external handles are alive. *)

From Stdlib Require Import String ZArith List Bool Lia.
From Stdlib Require Import Floats.SpecFloat.
Import ListNotations.
Local Open Scope Z_scope.

Set Implicit Arguments.
Set Default Proof Using "Type".

(** ** C values *)

(** A C expression either has a value or its evaluation is undefined
    (signed overflow, a read through NULL, a read past the end of an
    array).  [None] stands for the undefined case. *)
Notation "'do' x <- e ; k" :=
  (match e with Some x => k | None => None end)
  (at level 10, x name, e at level 100, k at level 200).

Module CInt.

Definition INT_MIN : Z := - 2 ^ 31.
Definition INT_MAX : Z := 2 ^ 31 - 1.

Definition in_int (z : Z) : bool := (INT_MIN <=? z) && (z <=? INT_MAX).
Definition is_int (z : Z) : Prop := INT_MIN <= z <= INT_MAX.

(** [a - b] on [int]: undefined when the difference is not representable. *)
Definition int_sub (a b : Z) : option Z :=
  if in_int (a - b) then Some (a - b) else None.

(** [-n] on [int]: undefined for [INT_MIN]. *)
Definition int_neg (n : Z) : option Z :=
  if in_int (- n) then Some (- n) else None.

(** C's [a || b] and [a && b]: the right operand is evaluated only when
    the left one does not decide. *)
Definition lazy_or (a : bool) (b : option bool) : option bool :=
  if a then Some true else b.
Definition lazy_and (a : bool) (b : option bool) : option bool :=
  if a then b else Some false.

End CInt.
Import CInt.

(** ** Audio formats *)

(** [GrooveAudioFormat] of groove.h.  [sample_fmt] is the enum value,
    [channel_layout] the 64-bit channel mask. *)
Record GrooveAudioFormat : Type := mkFormat {
  sample_rate : Z;
  channel_layout : Z;
  sample_fmt : Z
}.

(** The three capability arrays of libavcodec's [AVCodec] that the
    negotiator reads.  [None] is the null pointer; [Some a] is the memory
    from the pointer on, terminator included when there is one. *)
Record AVCodec : Type := mkCodec {
  sample_fmts : option (list Z);
  supported_samplerates : option (list Z);
  channel_layouts : option (list Z)
}.

(** ** Format negotiator *)

Module Negotiator.

(** static int abs_diff(int a, int b) *)
Definition abs_diff (a b : Z) : option Z :=
  do n <- int_sub a b;
  if n >=? 0 then Some n else int_neg n.

(** *** Sample rate *)

(** The [while] loop of [closest_supported_sample_rate]; the first
    argument is the memory at [p]. *)
Fixpoint sample_rate_loop (p : list Z) (target best : Z) : option Z :=
  match p with
  | [] => None
  | x :: p' =>
      if x =? 0 then Some best
      else if x =? target then Some target
      else
        do c <- lazy_or ((best <? target) && (x >? best))
                  (lazy_and (x >=? target)
                     (do dx <- abs_diff target x;
                      do db <- abs_diff target best;
                      Some (dx <? db)));
        sample_rate_loop p' target (if c then x else best)
  end.

Definition closest_supported_sample_rate (codec : AVCodec) (target : Z)
  : option Z :=
  match supported_samplerates codec with
  | None => Some target
  | Some p =>
      match p with
      | [] => None
      | best :: _ => sample_rate_loop p target best
      end
  end.

(** *** Channel layout and sample format

    [av_get_channel_layout_nb_channels], [av_get_bytes_per_sample] and
    [av_get_packed_sample_fmt] belong to libavutil and
    [GROOVE_SAMPLE_FMT_NONE] to groove.h; none is in the repository's
    source file, so the code is embedded over them. *)
Section WithLibav.

Variable av_get_channel_layout_nb_channels : Z -> Z.
Variable av_get_bytes_per_sample : Z -> Z.
Variable av_get_packed_sample_fmt : Z -> Z.
Variable GROOVE_SAMPLE_FMT_NONE : Z.

Fixpoint channel_layout_loop (p : list Z) (target : Z)
    (target_count : Z) (best : Z) (best_count : Z) : option Z :=
  match p with
  | [] => None
  | x :: p' =>
      if x =? 0 then Some best
      else if x =? target then Some target
      else
        let count := av_get_channel_layout_nb_channels x in
        do c <- lazy_or ((best_count <? target_count) && (count >? best_count))
                  (lazy_and (count >=? target_count)
                     (do dx <- abs_diff target_count count;
                      do db <- abs_diff target_count best_count;
                      Some (dx <? db)));
        if c
        then channel_layout_loop p' target target_count x count
        else channel_layout_loop p' target target_count best best_count
  end.

Definition closest_supported_channel_layout (codec : AVCodec) (target : Z)
  : option Z :=
  match channel_layouts codec with
  | None => Some target
  | Some p =>
      let target_count := av_get_channel_layout_nb_channels target in
      match p with
      | [] => None
      | best :: _ =>
          let best_count := av_get_channel_layout_nb_channels best in
          channel_layout_loop p target target_count best best_count
      end
  end.

(** The loop of [codec_supports_fmt] over the memory at [p]. *)
Fixpoint supports_fmt_loop (p : list Z) (fmt : Z) : option bool :=
  match p with
  | [] => None
  | x :: p' =>
      if x =? GROOVE_SAMPLE_FMT_NONE then Some false
      else if x =? fmt then Some true
      else supports_fmt_loop p' fmt
  end.

(** static int codec_supports_fmt(AVCodec *codec, enum GrooveSampleFormat fmt);
    the field is read without a null test. *)
Definition codec_supports_fmt (codec : AVCodec) (fmt : Z) : option bool :=
  do p <- sample_fmts codec;
  supports_fmt_loop p fmt.

(** The loop of [closest_supported_sample_fmt]: [Some (inl t)] is the
    early [return target], [Some (inr best)] the value of [best] when
    the terminator is reached. *)
Fixpoint sample_fmt_loop (p : list Z) (target : Z) (target_size : Z)
    (best : Z) (best_size : Z) : option (Z + Z) :=
  match p with
  | [] => None
  | x :: p' =>
      if x =? GROOVE_SAMPLE_FMT_NONE then Some (inr best)
      else if x =? target then Some (inl target)
      else
        let size := av_get_bytes_per_sample x in
        do c <- lazy_or ((best_size <? target_size) && (size >? best_size))
                  (lazy_and (size >=? target_size)
                     (do dx <- abs_diff target_size size;
                      do db <- abs_diff target_size best_size;
                      Some (dx <? db)));
        if c
        then sample_fmt_loop p' target target_size x size
        else sample_fmt_loop p' target target_size best best_size
  end.

Definition closest_supported_sample_fmt (codec : AVCodec) (target : Z)
  : option Z :=
  match sample_fmts codec with
  | None => Some target
  | Some p =>
      let target_size := av_get_bytes_per_sample target in
      match p with
      | [] => None
      | best :: _ =>
          let best_size := av_get_bytes_per_sample best in
          do r <- sample_fmt_loop p target target_size best best_size;
          match r with
          | inl t => Some t
          | inr best =>
              (* prefer interleaved format *)
              let packed_best := av_get_packed_sample_fmt best in
              do s <- codec_supports_fmt codec packed_best;
              Some (if s then packed_best else best)
          end
      end
  end.

(** Lines 440-445 of [groove_encoder_attach]: the three axes in the
    order the code negotiates them. *)
Definition negotiate (codec : AVCodec) (target : GrooveAudioFormat)
  : option GrooveAudioFormat :=
  do f <- closest_supported_sample_fmt codec (sample_fmt target);
  do r <- closest_supported_sample_rate codec (sample_rate target);
  do l <- closest_supported_channel_layout codec (channel_layout target);
  Some (mkFormat r l f).

End WithLibav.

End Negotiator.

(** ** Buffers and the output queue *)

(** A [GroovePlaylistItem *], [AVFrame *] or other handle is its address;
    0 is the null pointer. *)
Definition NULL : Z := 0.

(** The C literal [-1.0] as an IEEE 754 binary64 value. *)
Definition minus_one : spec_float := S754_finite true 4503599627370496 (-52).

(** [GrooveBuffer] with the fields of its [GrooveBufferPrivate] that
    encoder.c reads or writes.  [b_data_alloc] is the size that was
    passed to [av_malloc] for [b->data]; [b_data] are the bytes that
    [memcpy] wrote from that address on. *)
Record GrooveBuffer : Type := mkBuffer {
  b_format : GrooveAudioFormat;
  b_item : Z;
  b_pos : spec_float;
  b_size : Z;
  b_frame : Z;
  b_is_packet : Z;
  b_data_alloc : Z;
  b_data : list Z
}.

(** A [GrooveBuffer *]: [None] is the null pointer. *)
Definition BufferPtr : Type := option GrooveBuffer.

(** static GrooveBuffer *end_of_q_sentinel = NULL; *)
Definition end_of_q_sentinel : BufferPtr := None.

(** [p == end_of_q_sentinel] *)
Definition is_end_of_q_sentinel (p : BufferPtr) : bool :=
  match p, end_of_q_sentinel with
  | None, None => true
  | _, _ => false
  end.

Module Queue.

Section WithItem.

Variable A : Type.

(** Modelled from the spec: queue.c and queue.h are not among the
    sources.  A queue is the ordered sequence of pending items and an
    abort flag; [cleaned] records, in call order, every item handed to
    the cleanup callback. *)
Record GrooveQueue : Type := mkQueue {
  items : list A;
  abort_request : bool;
  cleaned : list A
}.

(** Modelled from the spec: groove_queue_create is missing; a new queue
    has no pending item and is not aborted. *)
Definition groove_queue_create : GrooveQueue := mkQueue [] false [].

(** Modelled from the spec: groove_queue_put is missing; put appends
    and never fails. *)
Definition groove_queue_put (q : GrooveQueue) (x : A) : GrooveQueue :=
  mkQueue (items q ++ [x]) (abort_request q) (cleaned q).

(** What [groove_queue_get] hands back: an item (return value 1), or
    none. *)
Inductive GetResult : Type :=
| Got (x : A)
| Nothing.

(** Modelled from the spec: groove_queue_get is missing; get removes
    the head; on an empty queue it returns none when non-blocking or
    when abort was signalled, and otherwise suspends the caller
    ([None]: the call has not returned in this state). *)
Definition groove_queue_get (q : GrooveQueue) (block : bool)
  : option (GrooveQueue * GetResult) :=
  match items q with
  | x :: rest => Some (mkQueue rest (abort_request q) (cleaned q), Got x)
  | [] =>
      if abort_request q then Some (q, Nothing)
      else if block then None
      else Some (q, Nothing)
  end.

(** Modelled from the spec: groove_queue_flush is missing; flush
    removes every pending item and cleans each up. *)
Definition groove_queue_flush (q : GrooveQueue) : GrooveQueue :=
  mkQueue [] (abort_request q) (cleaned q ++ items q).

(** The walk of purge over the pending items: the kept ones and the
    removed ones, each in queue order.  The predicate is the queue's
    [purge] callback, which may be undefined on an item. *)
Fixpoint purge_walk (pred : A -> option bool) (l : list A)
  : option (list A * list A) :=
  match l with
  | [] => Some ([], [])
  | x :: rest =>
      do m <- pred x;
      do kr <- purge_walk pred rest;
      Some (if m then (fst kr, x :: snd kr) else (x :: fst kr, snd kr))
  end.

(** Modelled from the spec: groove_queue_purge is missing; purge
    removes and cleans up only the items matching the predicate and
    preserves the relative order of the rest. *)
Definition groove_queue_purge (pred : A -> option bool) (q : GrooveQueue)
  : option GrooveQueue :=
  do kr <- purge_walk pred (items q);
  Some (mkQueue (fst kr) (abort_request q) (cleaned q ++ snd kr)).

(** Modelled from the spec: groove_queue_abort is missing; abort raises
    the flag that makes getters return none. *)
Definition groove_queue_abort (q : GrooveQueue) : GrooveQueue :=
  mkQueue (items q) true (cleaned q).

(** Modelled from the spec: groove_queue_reset is missing; reset clears
    the abort flag and drops leftover items through cleanup. *)
Definition groove_queue_reset (q : GrooveQueue) : GrooveQueue :=
  mkQueue [] false (cleaned q ++ items q).

End WithItem.

Arguments Nothing {A}.

End Queue.
Import Queue.

(** ** Encoder state *)

(** The return values of [groove_encoder_get_buffer] and
    [groove_sink_get_buffer]. *)
Inductive BufferResult : Type :=
| GROOVE_BUFFER_NO
| GROOVE_BUFFER_YES
| GROOVE_BUFFER_END.

(** What [av_log] received. *)
Inductive LogEntry : Type :=
| LogInfo (msg : string)
| LogError (msg : string)
| LogAudioFormat (fmt : GrooveAudioFormat).

(** [GrooveEncoderPrivate].  The mutex, the packet scratch space and the
    avio buffer carry no state of their own in a sequential run and are
    left out; [sink_audio_format] is [sink->audio_format]. *)
Record GrooveEncoderPrivate : Type := mkPrivate {
  audioq : GrooveQueue BufferPtr;
  sink_audio_format : GrooveAudioFormat;
  codec_ctx : Z;
  fmt_ctx : Z;
  stream : Z;
  purge_item : Z;
  encode_head : Z;
  encode_pos : spec_float;
  encode_format : GrooveAudioFormat;
  thread_id : Z;
  sent_header : Z
}.

Definition set_audioq (e : GrooveEncoderPrivate) (q : GrooveQueue BufferPtr) :=
  mkPrivate q (sink_audio_format e) (codec_ctx e) (fmt_ctx e) (stream e)
    (purge_item e) (encode_head e) (encode_pos e) (encode_format e)
    (thread_id e) (sent_header e).
Definition set_sink_audio_format (e : GrooveEncoderPrivate) (f : GrooveAudioFormat) :=
  mkPrivate (audioq e) f (codec_ctx e) (fmt_ctx e) (stream e)
    (purge_item e) (encode_head e) (encode_pos e) (encode_format e)
    (thread_id e) (sent_header e).
Definition set_codec_ctx (e : GrooveEncoderPrivate) (h : Z) :=
  mkPrivate (audioq e) (sink_audio_format e) h (fmt_ctx e) (stream e)
    (purge_item e) (encode_head e) (encode_pos e) (encode_format e)
    (thread_id e) (sent_header e).
Definition set_fmt_ctx (e : GrooveEncoderPrivate) (h : Z) :=
  mkPrivate (audioq e) (sink_audio_format e) (codec_ctx e) h (stream e)
    (purge_item e) (encode_head e) (encode_pos e) (encode_format e)
    (thread_id e) (sent_header e).
Definition set_stream (e : GrooveEncoderPrivate) (h : Z) :=
  mkPrivate (audioq e) (sink_audio_format e) (codec_ctx e) (fmt_ctx e) h
    (purge_item e) (encode_head e) (encode_pos e) (encode_format e)
    (thread_id e) (sent_header e).
Definition set_purge_item (e : GrooveEncoderPrivate) (i : Z) :=
  mkPrivate (audioq e) (sink_audio_format e) (codec_ctx e) (fmt_ctx e) (stream e)
    i (encode_head e) (encode_pos e) (encode_format e)
    (thread_id e) (sent_header e).
Definition set_encode_head (e : GrooveEncoderPrivate) (i : Z) :=
  mkPrivate (audioq e) (sink_audio_format e) (codec_ctx e) (fmt_ctx e) (stream e)
    (purge_item e) i (encode_pos e) (encode_format e)
    (thread_id e) (sent_header e).
Definition set_encode_pos (e : GrooveEncoderPrivate) (p : spec_float) :=
  mkPrivate (audioq e) (sink_audio_format e) (codec_ctx e) (fmt_ctx e) (stream e)
    (purge_item e) (encode_head e) p (encode_format e)
    (thread_id e) (sent_header e).
Definition set_encode_format (e : GrooveEncoderPrivate) (f : GrooveAudioFormat) :=
  mkPrivate (audioq e) (sink_audio_format e) (codec_ctx e) (fmt_ctx e) (stream e)
    (purge_item e) (encode_head e) (encode_pos e) f
    (thread_id e) (sent_header e).
Definition set_thread_id (e : GrooveEncoderPrivate) (h : Z) :=
  mkPrivate (audioq e) (sink_audio_format e) (codec_ctx e) (fmt_ctx e) (stream e)
    (purge_item e) (encode_head e) (encode_pos e) (encode_format e)
    h (sent_header e).
Definition set_sent_header (e : GrooveEncoderPrivate) (v : Z) :=
  mkPrivate (audioq e) (sink_audio_format e) (codec_ctx e) (fmt_ctx e) (stream e)
    (purge_item e) (encode_head e) (encode_pos e) (encode_format e)
    (thread_id e) v.

(** ** The encode worker and the entry points around the queue *)

Module Worker.

(** One invocation of the output-byte callback by the container writer:
    its arguments [buf] and [buf_size], and what the allocator and
    [SDL_CreateMutex] answer while it runs ([true]: non-null). *)
Record WriteCall : Type := mkCall {
  buf : list Z;
  buf_size : Z;
  alloc_buffer_ok : bool;
  alloc_private_ok : bool;
  create_mutex_ok : bool;
  alloc_data_ok : bool
}.

(** What a blocking [groove_sink_get_buffer] delivers while the sink is
    attached. *)
Inductive SinkResult : Type :=
| SinkYes (buffer : GrooveBuffer)
| SinkEnd.

(** [audioq_purge]: [buffer->item == e->purge_item], undefined when the
    queued object is the null pointer. *)
Definition audioq_purge (e : GrooveEncoderPrivate) (obj : BufferPtr)
  : option bool :=
  do buffer <- obj;
  Some (b_item buffer =? purge_item e).

(** [sink_purge]; the mutex is taken and released around the body. *)
Definition sink_purge (e : GrooveEncoderPrivate) (item : Z)
  : option GrooveEncoderPrivate :=
  let e1 := set_purge_item e item in
  do q <- groove_queue_purge (audioq_purge e1) (audioq e1);
  let e2 := set_audioq e1 q in
  let e3 := set_purge_item e2 NULL in
  Some (if encode_head e3 =? item
        then set_encode_pos (set_encode_head e3 NULL) minus_one
        else e3).

(** [groove_encoder_get_buffer]: the new state, the return value and the
    value left in the caller's [*buffer]; [None] while a blocking call
    waits. *)
Definition groove_encoder_get_buffer (e : GrooveEncoderPrivate) (block : bool)
  : option (GrooveEncoderPrivate * BufferResult * BufferPtr) :=
  do r <- groove_queue_get (audioq e) block;
  let e' := set_audioq e (fst r) in
  match snd r with
  | Got buffer =>
      if is_end_of_q_sentinel buffer
      then Some (e', GROOVE_BUFFER_END, None)
      else Some (e', GROOVE_BUFFER_YES, buffer)
  | Nothing => Some (e', GROOVE_BUFFER_NO, None)
  end.

(** [n] consecutive calls of [groove_encoder_get_buffer], with the
    results in call order. *)
Fixpoint get_buffers (n : nat) (e : GrooveEncoderPrivate) (block : bool)
  : option (GrooveEncoderPrivate * list (BufferResult * BufferPtr)) :=
  match n with
  | O => Some (e, [])
  | S n' =>
      do r <- groove_encoder_get_buffer e block;
      do rs <- get_buffers n' (fst (fst r)) block;
      Some (fst rs, (snd (fst r), snd r) :: snd rs)
  end.

Section WithBackend.

(** [sizeof(int)] of the platform. *)
Variable sizeof_int : Z.

(** The encoder backend behind [codec_ctx] and the container writer
    behind [fmt_ctx] are libav's.  A call maps the state of the
    object to its new state and the values handed back; the writer
    also makes zero or more calls of the output-byte callback, listed
    in call order. *)
Variable Codec : Type.
Variable Muxer : Type.
Variable Packet : Type.
(** [avcodec_encode_audio2(ctx, &pkt, frame, &got_packet)]: the return
    value, [got_packet] and the packet. *)
Variable avcodec_encode_audio2 : Codec -> Z -> Codec * (Z * Z * Packet).
(** [av_write_frame(fmt_ctx, pkt)], [pkt] possibly null. *)
Variable av_write_frame : Muxer -> option Packet -> Muxer * list WriteCall * Z.
Variable avformat_write_header : Muxer -> Muxer * list WriteCall * Z.
Variable av_write_trailer : Muxer -> Muxer * list WriteCall * Z.

Record State : Type := mkState {
  enc : GrooveEncoderPrivate;
  codec : Codec;
  muxer : Muxer;
  wlog : list LogEntry
}.

(** [encoder_write_packet]: the new encoder state, the log lines and
    the return value.  When [av_malloc] fails for the payload the code
    calls [av_free(b)] and then [SDL_DestroyMutex(b->mutex)], which reads
    the mutex through the pointer it has just freed: that call is
    undefined. *)
Definition encoder_write_packet (e : GrooveEncoderPrivate) (c : WriteCall)
  : option (GrooveEncoderPrivate * list LogEntry * Z) :=
  if negb (alloc_buffer_ok c) || negb (alloc_private_ok c) then
    Some (e, [LogError "unable to allocate buffer"], -1)
  else if negb (create_mutex_ok c) then
    Some (e, [LogError "unable to create mutex"], -1)
  else if negb (alloc_data_ok c) then
    None
  else
    let buffer :=
      {| b_format := encode_format e;
         b_item := encode_head e;
         b_pos := encode_pos e;
         b_size := buf_size c;
         b_frame := NULL;
         b_is_packet := 1;
         b_data_alloc := sizeof_int;
         b_data := firstn (Z.to_nat (buf_size c)) (buf c) |} in
    Some (set_audioq e (groove_queue_put (audioq e) (Some buffer)), [], 0).

(** The callback invocations a writer call makes, run in order;
    undefined as soon as one of them is. *)
Fixpoint write_calls (s : State) (calls : list WriteCall) : option State :=
  match calls with
  | [] => Some s
  | c :: calls' =>
      do r <- encoder_write_packet (enc s) c;
      write_calls
        (mkState (fst (fst r)) (codec s) (muxer s) (wlog s ++ snd (fst r)))
        calls'
  end.

(** [encode_buffer] *)
Definition encode_buffer (s : State) (buffer : BufferPtr) : option (State * Z) :=
  let e1 :=
    match buffer with
    | Some b =>
        set_encode_format
          (set_encode_pos (set_encode_head (enc s) (b_item b)) (b_pos b))
          (b_format b)
    | None => enc s
    end in
  let frame := match buffer with Some b => b_frame b | None => NULL end in
  let r := avcodec_encode_audio2 (codec s) frame in
  let errcode := fst (fst (snd r)) in
  let got_packet := snd (fst (snd r)) in
  let s1 := mkState e1 (fst r) (muxer s) (wlog s) in
  if errcode <? 0 then
    Some (mkState e1 (fst r) (muxer s)
            (wlog s ++ [LogError "error encoding audio frame"]), -1)
  else if got_packet =? 0 then Some (s1, -1)
  else
    let w := av_write_frame (muxer s1) (Some (snd (snd r))) in
    do s2 <- write_calls (mkState e1 (fst r) (fst (fst w)) (wlog s)) (snd (fst w));
    Some (s2, 0).

(** while (encode_buffer(encoder, NULL) >= 0) {}
    [None]: a callback was undefined, or the loop has not ended within
    [fuel] iterations. *)
Fixpoint drain_encoder (fuel : nat) (s : State) : option State :=
  match fuel with
  | O => None
  | S fuel' =>
      do r <- encode_buffer s None;
      if snd r >=? 0 then drain_encoder fuel' (fst r) else Some (fst r)
  end.

(** while (av_write_frame(e->fmt_ctx, NULL) == 0) {} *)
Fixpoint drain_muxer (fuel : nat) (s : State) : option State :=
  match fuel with
  | O => None
  | S fuel' =>
      let w := av_write_frame (muxer s) None in
      do s' <- write_calls (mkState (enc s) (codec s) (fst (fst w)) (wlog s))
                 (snd (fst w));
      if snd w =? 0 then drain_muxer fuel' s' else Some s'
  end.

(** The head of the [for] loop: the header is written when none was
    sent. *)
Definition write_header_if_needed (s : State) : option State :=
  if sent_header (enc s) =? 0 then
    let w := avformat_write_header (muxer s) in
    do s1 <- write_calls
               (mkState (enc s) (codec s) (fst (fst w))
                  (wlog s ++ [LogInfo "encoder: writing header"]))
               (snd (fst w));
    Some (mkState (set_sent_header (enc s1) 1) (codec s1) (muxer s1)
            (wlog s1 ++ (if snd w <? 0 then [LogError "could not write header"]
                         else [])))
  else Some s.

(** The [GROOVE_BUFFER_END] branch after both drains. *)
Definition end_of_segment (s : State) : option State :=
  let e1 := set_audioq (enc s) (groove_queue_put (audioq (enc s)) end_of_q_sentinel) in
  let e2 := set_encode_pos (set_encode_head e1 NULL) minus_one in
  let e3 := set_sent_header e2 0 in
  let w := av_write_trailer (muxer s) in
  do s1 <- write_calls
             (mkState e3 (codec s) (fst (fst w))
                (wlog s ++ [LogInfo "encoder: writing trailer"]))
             (snd (fst w));
  Some (mkState (enc s1) (codec s1) (muxer s1)
          (wlog s1 ++ (if snd w <? 0 then [LogError "could not write trailer"]
                       else []))).

(** [encode_thread].  [script] is what the sink delivers, in order;
    when it is used up the sink answers [GROOVE_BUFFER_NO] and the
    loop is left.  [fuel] bounds each of the two drain loops.  [None]: a
    callback was undefined, or a drain loop has not ended within [fuel]
    iterations. *)
Fixpoint encode_thread (fuel : nat) (script : list SinkResult) (s : State)
  : option State :=
  do s0 <- write_header_if_needed s;
  match script with
  | [] => Some s0
  | SinkEnd :: script' =>
      do s1 <- drain_encoder fuel s0;
      do s2 <- drain_muxer fuel s1;
      do s3 <- end_of_segment s2;
      encode_thread fuel script' s3
  | SinkYes buffer :: script' =>
      do r <- encode_buffer s0 (Some buffer);
      encode_thread fuel script' (fst r)
  end.

(** The state after the loop has taken the buffers [bufs] from the
    sink, one iteration each. *)
Fixpoint feed (s : State) (bufs : list GrooveBuffer) : option State :=
  match bufs with
  | [] => Some s
  | b :: bufs' =>
      do s0 <- write_header_if_needed s;
      do r <- encode_buffer s0 (Some b);
      feed (fst r) bufs'
  end.

(** The end-to-end sentence read literally: after the sink has
    delivered the buffers [bufs] and then the end of the stream, as
    many calls of [groove_encoder_get_buffer] as there were buffers
    return a chunk each and one more call returns the end. *)
Definition one_chunk_per_buffer : Prop :=
  forall (bufs : list GrooveBuffer) (s0 s1 : State) (fuel : nat) (block : bool),
    items (audioq (enc s0)) = [] ->
    encode_thread fuel (map SinkYes bufs ++ [SinkEnd]) s0 = Some s1 ->
    exists e1 chunks,
      length chunks = length bufs /\
      get_buffers (S (length bufs)) (enc s1) block
      = Some (e1, map (fun c => (GROOVE_BUFFER_YES, Some c)) chunks
                  ++ [(GROOVE_BUFFER_END, None)]).

(** ** What the backend and the writer produce

    The backend and the container writer seen on their own, without the
    encoder: what they are asked and which callback invocations the
    writer makes in answer.  These definitions follow the words of the
    end-to-end property (the chunks produced while the header was
    written, while each buffer was encoded, while the backend and the
    writer were drained, while the trailer was written) and are what the
    queue of the worker is compared with. *)

(** One frame handed to the backend: the backend and the writer
    afterwards, the callback invocations the writer made for the packet
    (none when the backend failed or kept the frame), and whether a
    packet came back. *)
Definition submit (c : Codec) (m : Muxer) (frame : Z)
  : Codec * Muxer * list WriteCall * bool :=
  let r := avcodec_encode_audio2 c frame in
  if (fst (fst (snd r)) <? 0) || (snd (fst (snd r)) =? 0)
  then (fst r, m, [], false)
  else
    let w := av_write_frame m (Some (snd (snd r))) in
    (fst r, fst (fst w), snd (fst w), true).

(** The frames of the source buffers, in order: the invocations made for
    each. *)
Fixpoint submit_all (c : Codec) (m : Muxer) (bufs : list GrooveBuffer)
  : Codec * Muxer * list (list WriteCall) :=
  match bufs with
  | [] => (c, m, [])
  | b :: bufs' =>
      let r := submit c m (b_frame b) in
      let r' := submit_all (fst (fst (fst r))) (snd (fst (fst r))) bufs' in
      (fst (fst r'), snd (fst r'), snd (fst r) :: snd r')
  end.

(** Null frames until the backend hands no packet back. *)
Fixpoint flush_backend (fuel : nat) (c : Codec) (m : Muxer)
  : option (Codec * Muxer * list WriteCall) :=
  match fuel with
  | O => None
  | S fuel' =>
      let r := submit c m NULL in
      if snd r then
        do r' <- flush_backend fuel' (fst (fst (fst r))) (snd (fst (fst r)));
        Some (fst (fst r'), snd (fst r'), snd (fst r) ++ snd r')
      else Some (fst (fst (fst r)), snd (fst (fst r)), [])
  end.

(** Null packets until the writer answers something else than 0. *)
Fixpoint flush_writer (fuel : nat) (m : Muxer) : option (Muxer * list WriteCall) :=
  match fuel with
  | O => None
  | S fuel' =>
      let w := av_write_frame m None in
      if snd w =? 0 then
        do r' <- flush_writer fuel' (fst (fst w));
        Some (fst r', snd (fst w) ++ snd r')
      else Some (fst (fst w), snd (fst w))
  end.

(** The callback invocations of one segment, by phase. *)
Record Trace : Type := mkTrace {
  t_header : list WriteCall;
  t_buffers : list (list WriteCall);
  t_drain : list WriteCall;
  t_trailer : list WriteCall;
  t_next_header : list WriteCall
}.

(** One segment from a backend [c] and a writer [m]: the header when
    none was sent ([sent] is the header flag), the buffers, both drains,
    the trailer, and the header the loop writes again before it asks the
    sink for more. *)
Definition segment_trace (fuel : nat) (sent : Z) (c : Codec) (m : Muxer)
    (bufs : list GrooveBuffer) : option Trace :=
  let hdr := if sent =? 0 then fst (avformat_write_header m) else (m, []) in
  let fed := submit_all c (fst hdr) bufs in
  do d1 <- flush_backend fuel (fst (fst fed)) (snd (fst fed));
  do d2 <- flush_writer fuel (snd (fst d1));
  let trl := av_write_trailer (fst d2) in
  let hdr2 := avformat_write_header (fst (fst trl)) in
  Some (mkTrace (snd hdr) (snd fed) (snd d1 ++ snd d2)
          (snd (fst trl)) (snd (fst hdr2))).

End WithBackend.

(** A callback invocation whose four allocations succeed: it stores a
    chunk. *)
Definition stores (c : WriteCall) : bool :=
  alloc_buffer_ok c && alloc_private_ok c && create_mutex_ok c && alloc_data_ok c.

(** A callback invocation that reaches the read through the freed
    pointer. *)
Definition use_after_free (c : WriteCall) : bool :=
  alloc_buffer_ok c && alloc_private_ok c && create_mutex_ok c
  && negb (alloc_data_ok c).

(** No invocation of the list reaches the read through the freed
    pointer. *)
Definition defined_calls (calls : list WriteCall) : Prop :=
  Forall (fun c => use_after_free c = false) calls.

(** The chunk made of one callback invocation under the encode head
    [(item, pos, fmt)]. *)
Definition chunk_of (sizeof_int : Z) (item : Z) (pos : spec_float)
    (fmt : GrooveAudioFormat) (c : WriteCall) : GrooveBuffer :=
  mkBuffer fmt item pos (buf_size c) NULL 1 sizeof_int
    (firstn (Z.to_nat (buf_size c)) (buf c)).

(** The chunks of a sequence of invocations: one for each invocation
    that stores one, in order. *)
Definition chunks_of (sizeof_int : Z) (item : Z) (pos : spec_float)
    (fmt : GrooveAudioFormat) (calls : list WriteCall) : list GrooveBuffer :=
  map (chunk_of sizeof_int item pos fmt) (filter stores calls).

(** The chunks of the source buffers: those of each buffer under the
    item, position and format of that buffer. *)
Fixpoint buffer_chunks (sizeof_int : Z) (bufs : list GrooveBuffer)
    (per : list (list WriteCall)) : list GrooveBuffer :=
  match bufs, per with
  | b :: bufs', calls :: per' =>
      chunks_of sizeof_int (b_item b) (b_pos b) (b_format b) calls
      ++ buffer_chunks sizeof_int bufs' per'
  | _, _ => []
  end.

(** The encode head of an encoder: item, position and format. *)
Definition head_of (e : GrooveEncoderPrivate) : Z * spec_float * GrooveAudioFormat :=
  (encode_head e, encode_pos e, encode_format e).

(** The chunks of a sequence of invocations under the encode head [h]. *)
Definition head_chunks (sizeof_int : Z) (h : Z * spec_float * GrooveAudioFormat)
    (calls : list WriteCall) : list GrooveBuffer :=
  chunks_of sizeof_int (fst (fst h)) (snd (fst h)) (snd h) calls.

(** The encode head after the buffers [bufs] were taken, from the head
    [h]: that of the last buffer. *)
Fixpoint head_after (h : Z * spec_float * GrooveAudioFormat)
    (bufs : list GrooveBuffer) : Z * spec_float * GrooveAudioFormat :=
  match bufs with
  | [] => h
  | b :: bufs' => head_after (b_item b, b_pos b, b_format b) bufs'
  end.

(** What a segment puts on the queue before the sentinel: the chunks of
    the header under the head the encoder had, those of each buffer
    under the head of that buffer, and those of the drains under the head
    of the last buffer. *)
Definition segment_data (sizeof_int : Z) (e : GrooveEncoderPrivate)
    (bufs : list GrooveBuffer) (tr : Trace) : list GrooveBuffer :=
  head_chunks sizeof_int (head_of e) (t_header tr)
  ++ buffer_chunks sizeof_int bufs (t_buffers tr)
  ++ head_chunks sizeof_int (head_after (head_of e) bufs) (t_drain tr).

(** What it puts on the queue behind the sentinel: the chunks of the
    trailer and of the next header, under no item. *)
Definition segment_late (sizeof_int : Z) (e : GrooveEncoderPrivate)
    (bufs : list GrooveBuffer) (tr : Trace) : list GrooveBuffer :=
  chunks_of sizeof_int NULL minus_one (snd (head_after (head_of e) bufs))
    (t_trailer tr ++ t_next_header tr).

(** No callback invocation of the segment reaches the read through the
    freed pointer. *)
Definition trace_defined (tr : Trace) : Prop :=
  defined_calls (t_header tr) /\ Forall defined_calls (t_buffers tr) /\
  defined_calls (t_drain tr) /\ defined_calls (t_trailer tr) /\
  defined_calls (t_next_header tr).

End Worker.

(** ** Session life cycle *)

Module Session.

(** The objects a session obtains from libav and SDL, by handle.  A
    stream belongs to the format context it was created in. *)
Inductive Resource : Type :=
| FormatContext (h : Z)
| Stream (h : Z) (owner : Z)
| CodecContext (h : Z)
| Thread (h : Z).

Definition Resource_eqb (a b : Resource) : bool :=
  match a, b with
  | FormatContext x, FormatContext y => x =? y
  | Stream x o, Stream y p => (x =? y) && (o =? p)
  | CodecContext x, CodecContext y => x =? y
  | Thread x, Thread y => x =? y
  | _, _ => false
  end.

(** The fields of the [AVCodecContext] that attach fills in before
    opening it. *)
Record CodecConfig : Type := mkConfig {
  cc_bit_rate : Z;
  cc_sample_fmt : Z;
  cc_sample_rate : Z;
  cc_channel_layout : Z;
  cc_channels : Z
}.

(** Everything outside the encoder struct that attach and detach act on:
    the objects that are alive, the releases and uses of an object that
    was not alive (a second free, a use after free), the codec contexts
    that are open, whether the sink is attached to a playlist, and the
    log. *)
Record World : Type := mkWorld {
  live : list Resource;
  invalid : list Resource;
  open_codecs : list (Z * CodecConfig);
  sink_attached : bool;
  log : list LogEntry
}.

Definition is_live (r : Resource) (w : World) : bool :=
  existsb (Resource_eqb r) (live w).

(** An object comes to life when the allocator returns a non-null
    handle. *)
Definition obtain (r : Resource) (h : Z) (w : World) : World :=
  if h =? NULL then w
  else mkWorld (live w ++ [r]) (invalid w) (open_codecs w) (sink_attached w) (log w).

(** Freeing an object that is alive ends its life; freeing anything else
    is recorded in [invalid]. *)
Definition release (r : Resource) (w : World) : World :=
  if is_live r w
  then mkWorld (filter (fun x => negb (Resource_eqb r x)) (live w))
         (invalid w) (open_codecs w) (sink_attached w) (log w)
  else mkWorld (live w) (invalid w ++ [r]) (open_codecs w) (sink_attached w) (log w).

Definition av_log (m : LogEntry) (w : World) : World :=
  mkWorld (live w) (invalid w) (open_codecs w) (sink_attached w) (log w ++ [m]).

(** [avcodec_close(ctx)] reads the context and leaves it closed. *)
Definition avcodec_close (h : Z) (w : World) : World :=
  mkWorld (live w)
    (if is_live (CodecContext h) w then invalid w else invalid w ++ [CodecContext h])
    (filter (fun c => negb (fst c =? h)) (open_codecs w))
    (sink_attached w) (log w).

(** [avformat_free_context(ctx)] frees the context and its streams. *)
Definition avformat_free_context (h : Z) (w : World) : World :=
  let w1 := release (FormatContext h) w in
  mkWorld
    (filter (fun x => match x with Stream _ o => negb (o =? h) | _ => true end)
       (live w1))
    (invalid w1) (open_codecs w1) (sink_attached w1) (log w1).

(** [SDL_WaitThread(thread, NULL)] returns at once for a null thread and
    otherwise joins it. *)
Definition SDL_WaitThread (h : Z) (w : World) : World :=
  if h =? NULL then w else release (Thread h) w.

Definition groove_sink_detach (w : World) : World :=
  mkWorld (live w) (invalid w) (open_codecs w) false (log w).

Definition set_sink_attached (w : World) : World :=
  mkWorld (live w) (invalid w) (open_codecs w) true (log w).

Definition open_codec (h : Z) (c : CodecConfig) (w : World) : World :=
  mkWorld (live w) (invalid w) (open_codecs w ++ [(h, c)]) (sink_attached w) (log w).

(** [GrooveEncoder]: the public fields attach and detach use, and the
    private part. *)
Record GrooveEncoder : Type := mkEncoder {
  target_audio_format : GrooveAudioFormat;
  actual_audio_format : GrooveAudioFormat;
  bit_rate : Z;
  playlist : Z;
  internals : GrooveEncoderPrivate
}.

Definition set_internals (enc : GrooveEncoder) (e : GrooveEncoderPrivate) :=
  mkEncoder (target_audio_format enc) (actual_audio_format enc) (bit_rate enc)
    (playlist enc) e.
Definition set_playlist (enc : GrooveEncoder) (p : Z) :=
  mkEncoder (target_audio_format enc) (actual_audio_format enc) (bit_rate enc)
    p (internals enc).
Definition set_actual_audio_format (enc : GrooveEncoder) (f : GrooveAudioFormat) :=
  mkEncoder (target_audio_format enc) f (bit_rate enc)
    (playlist enc) (internals enc).

(** [groove_encoder_detach] *)
Definition groove_encoder_detach (encoder : GrooveEncoder) (w : World)
  : GrooveEncoder * World * Z :=
  let e := internals encoder in
  let w1 := groove_sink_detach w in
  let e1 := set_audioq e (groove_queue_abort (groove_queue_flush (audioq e))) in
  let w2 := SDL_WaitThread (thread_id e1) w1 in
  let e2 := set_thread_id e1 NULL in
  let '(e3, w3) :=
    if negb (codec_ctx e2 =? NULL)
    then (set_codec_ctx e2 NULL,
          release (CodecContext (codec_ctx e2)) (avcodec_close (codec_ctx e2) w2))
    else (e2, w2) in
  let e4 := if negb (stream e3 =? NULL) then set_stream e3 NULL else e3 in
  let w4 :=
    if negb (fmt_ctx e4 =? NULL) then avformat_free_context (fmt_ctx e4) w3
    else w3 in
  let e5 := set_sent_header (set_encode_pos (set_encode_head e4 NULL) minus_one) 0 in
  (set_playlist (set_internals encoder e5) NULL, w4, 0).

(** What libav, the sink and SDL answer during one call of attach. *)
Record AttachEnv : Type := mkEnv {
  ret_avformat_alloc_context : Z;
  ret_avcodec_find_encoder : option AVCodec;
  ret_avformat_new_stream : Z;
  ret_avcodec_alloc_context3 : Z;
  ret_avcodec_open2 : Z;
  ret_groove_sink_attach : Z;
  ret_SDL_CreateThread : Z
}.

(** The places where attach can fail, in program order. *)
Inductive AttachStep : Type :=
| StepFormatContext
| StepFindEncoder
| StepNewStream
| StepCodecContext
| StepCodecOpen
| StepSinkAttach
| StepThread.

(** The message attach logs when it fails at a step. *)
Definition attach_error (s : AttachStep) : string :=
  match s with
  | StepFormatContext => "unable to allocate format context"
  | StepFindEncoder => "unable to find encoder"
  | StepNewStream => "unable to create output stream"
  | StepCodecContext => "unable to allocate context"
  | StepCodecOpen => "unable to open codec"
  | StepSinkAttach => "unable to attach sink"
  | StepThread => "unable to create encoder thread"
  end.

(** The first step that fails under an environment, if any. *)
Definition first_failure (env : AttachEnv) : option AttachStep :=
  if ret_avformat_alloc_context env =? NULL then Some StepFormatContext
  else match ret_avcodec_find_encoder env with
  | None => Some StepFindEncoder
  | Some _ =>
  if ret_avformat_new_stream env =? NULL then Some StepNewStream
  else if ret_avcodec_alloc_context3 env =? NULL then Some StepCodecContext
  else if ret_avcodec_open2 env <? 0 then Some StepCodecOpen
  else if ret_groove_sink_attach env <? 0 then Some StepSinkAttach
  else if ret_SDL_CreateThread env =? NULL then Some StepThread
  else None
  end.

Section WithLibav.

Variable av_get_channel_layout_nb_channels : Z -> Z.
Variable av_get_bytes_per_sample : Z -> Z.
Variable av_get_packed_sample_fmt : Z -> Z.
Variable GROOVE_SAMPLE_FMT_NONE : Z.

(** The three statements of every failure branch of attach. *)
Definition attach_fail (encoder : GrooveEncoder) (w : World) (msg : string)
  : option (GrooveEncoder * World * Z) :=
  let r := groove_encoder_detach encoder w in
  Some (fst (fst r), av_log (LogError msg) (snd (fst r)), -1).

(** [groove_encoder_attach]; [None] when the negotiation is undefined. *)
Definition groove_encoder_attach (env : AttachEnv)
    (encoder : GrooveEncoder) (playlist : Z) (w : World)
  : option (GrooveEncoder * World * Z) :=
  let encoder := set_playlist encoder playlist in
  let e := set_audioq (internals encoder)
             (groove_queue_reset (audioq (internals encoder))) in
  let h := ret_avformat_alloc_context env in
  let e := set_fmt_ctx e h in
  let w := obtain (FormatContext h) h w in
  if fmt_ctx e =? NULL then
    attach_fail (set_internals encoder e) w "unable to allocate format context"
  else
  match ret_avcodec_find_encoder env with
  | None => attach_fail (set_internals encoder e) w "unable to find encoder"
  | Some codec =>
  let st := ret_avformat_new_stream env in
  let e := set_stream e st in
  let w := obtain (Stream st (fmt_ctx e)) st w in
  if stream e =? NULL then
    attach_fail (set_internals encoder e) w "unable to create output stream"
  else
  do actual <- Negotiator.negotiate av_get_channel_layout_nb_channels
                 av_get_bytes_per_sample av_get_packed_sample_fmt
                 GROOVE_SAMPLE_FMT_NONE codec (target_audio_format encoder);
  let encoder := set_actual_audio_format encoder actual in
  let w := av_log (LogAudioFormat (actual_audio_format encoder)) w in
  let c := ret_avcodec_alloc_context3 env in
  let e := set_codec_ctx e c in
  let w := obtain (CodecContext c) c w in
  if codec_ctx e =? NULL then
    attach_fail (set_internals encoder e) w "unable to allocate context"
  else
  let config :=
    mkConfig (bit_rate encoder)
      (sample_fmt (actual_audio_format encoder))
      (sample_rate (actual_audio_format encoder))
      (channel_layout (actual_audio_format encoder))
      (av_get_channel_layout_nb_channels
         (channel_layout (actual_audio_format encoder))) in
  if ret_avcodec_open2 env <? 0 then
    attach_fail (set_internals encoder e) w "unable to open codec"
  else
  let w := open_codec (codec_ctx e) config w in
  let e := set_sink_audio_format e (actual_audio_format encoder) in
  if ret_groove_sink_attach env <? 0 then
    attach_fail (set_internals encoder e) w "unable to attach sink"
  else
  let w := set_sink_attached w in
  let t := ret_SDL_CreateThread env in
  let e := set_thread_id e t in
  let w := obtain (Thread t) t w in
  if thread_id e =? NULL then
    attach_fail (set_internals encoder e) w "unable to create encoder thread"
  else Some (set_internals encoder e, w, 0)
  end.

End WithLibav.

(** The encoder a successful [groove_encoder_create] returns: zeroed
    memory, an empty queue and the default target format.  The two enum
    and mask values come from groove.h. *)
Definition created_encoder (GROOVE_SAMPLE_FMT_S16 GROOVE_CH_LAYOUT_STEREO : Z)
  : GrooveEncoder :=
  let zero_format := mkFormat 0 0 0 in
  mkEncoder (mkFormat 44100 GROOVE_CH_LAYOUT_STEREO GROOVE_SAMPLE_FMT_S16)
    zero_format 0 NULL
    (mkPrivate (groove_queue_create BufferPtr) zero_format
       NULL NULL NULL NULL NULL (S754_zero false) zero_format NULL 0).

Definition empty_world : World := mkWorld [] [] [] false [].

(** An environment in which every step of attach succeeds, and one in
    which the codec does not open. *)
Definition working_env : AttachEnv :=
  mkEnv 1000 (Some (mkCodec None (Some [44100; 48000; 0]) None))
    1001 1002 0 0 1003.
Definition failing_open_env : AttachEnv :=
  mkEnv 1000 (Some (mkCodec None (Some [44100; 48000; 0]) None))
    1001 1002 (-1) 0 1003.

End Session.

(** ** Concrete collaborators

    Instances of the libav functions and of a backend, used to run the
    embedded code on concrete inputs. *)

Module Libav.

(** The number of set bits among the low 64 of a channel mask, which is
    what libavutil's [av_get_channel_layout_nb_channels] counts. *)
Definition nb_channels (layout : Z) : Z :=
  fold_right (fun i acc => Z.b2z (Z.testbit layout (Z.of_nat i)) + acc) 0
    (seq 0 64).

(** libavutil's sample format numbering, which groove.h mirrors:
    U8, S16, S32, FLT, DBL are 0 to 4, their planar variants 5 to 9 and
    NONE is -1. *)
Definition SAMPLE_FMT_NONE : Z := -1.
Definition SAMPLE_FMT_U8 : Z := 0.
Definition SAMPLE_FMT_S16 : Z := 1.
Definition SAMPLE_FMT_S32 : Z := 2.
Definition SAMPLE_FMT_FLT : Z := 3.
Definition SAMPLE_FMT_DBL : Z := 4.
Definition SAMPLE_FMT_U8P : Z := 5.
Definition SAMPLE_FMT_S16P : Z := 6.
Definition SAMPLE_FMT_S32P : Z := 7.
Definition SAMPLE_FMT_FLTP : Z := 8.
Definition SAMPLE_FMT_DBLP : Z := 9.

Definition CH_LAYOUT_MONO : Z := 4.
Definition CH_LAYOUT_STEREO : Z := 3.
Definition CH_LAYOUT_5POINT1 : Z := 63.

Definition bytes_per_sample (fmt : Z) : Z :=
  if (fmt <? 0) || (fmt >=? 10) then 0
  else match fmt mod 5 with
       | 0 => 1
       | 1 => 2
       | 2 => 4
       | 3 => 4
       | _ => 8
       end.

Definition packed_sample_fmt (fmt : Z) : Z :=
  if (fmt <? 0) || (fmt >=? 10) then SAMPLE_FMT_NONE
  else fmt mod 5.

End Libav.

Module Backends.

Import Worker.

(** A backend that keeps every frame it is given and hands no packet
    back, and a writer that emits nothing. *)
Definition buffering_encode (c : unit) (frame : Z) : unit * (Z * Z * Z) :=
  (tt, (0, 0, 0)).
Definition quiet_write_frame (m : unit) (pkt : option Z)
  : unit * list WriteCall * Z :=
  (tt, [], match pkt with Some _ => 0 | None => 1 end).
Definition quiet_header (m : unit) : unit * list WriteCall * Z := (tt, [], 0).

(** A backend that returns one packet per frame and nothing on a drain
    call, and a writer that passes every packet to the callback at once
    as a single byte. *)
Definition direct_encode (c : unit) (frame : Z) : unit * (Z * Z * Z) :=
  (tt, (0, if frame =? NULL then 0 else 1, frame)).
Definition direct_write_frame (m : unit) (pkt : option Z)
  : unit * list WriteCall * Z :=
  match pkt with
  | Some p => (tt, [mkCall [p mod 256] 1 true true true true], 0)
  | None => (tt, [], 1)
  end.

(** A callback invocation that hands over eight bytes, with every
    allocation succeeding. *)
Definition page_call : WriteCall :=
  mkCall [79; 103; 103; 83; 0; 2; 0; 0] 8 true true true true.

(** A writer whose header and trailer each come out as one page. *)
Definition page_header (m : unit) : unit * list WriteCall * Z :=
  (tt, [page_call], 0).

(** The same invocation when [av_malloc] fails for the payload, and a
    writer that makes it for every packet. *)
Definition starved_call : WriteCall :=
  mkCall [79; 103; 103; 83; 0; 2; 0; 0] 8 true true true false.
Definition starved_write_frame (m : unit) (pkt : option Z)
  : unit * list WriteCall * Z :=
  match pkt with
  | Some p => (tt, [starved_call], 0)
  | None => (tt, [], 1)
  end.

(** A source buffer of item [item] with frame handle [frame], in the
    default format. *)
Definition source_buffer (item frame : Z) : GrooveBuffer :=
  mkBuffer (mkFormat 44100 Libav.CH_LAYOUT_STEREO Libav.SAMPLE_FMT_S16)
    item (S754_zero false) 4096 frame 0 0 [].

(** The worker state over a newly created encoder. *)
Definition start : State unit unit :=
  mkState
    (Session.internals
       (Session.created_encoder Libav.SAMPLE_FMT_S16 Libav.CH_LAYOUT_STEREO))
    tt tt [].

End Backends.

(** ** Vocabulary of the statements *)

(** The choice all three negotiator loops make among the values seen so
    far, by a key: the least key that reaches the target's when one does,
    the greatest key otherwise. *)
Definition biased_best (key : Z -> Z) (tk : Z) (seen : list Z) (best : Z) : Prop :=
  In best seen /\
  (forall s, In s seen -> tk <= key s -> tk <= key best <= key s) /\
  (key best < tk -> forall s, In s seen -> key s <= key best).

(** One iteration's test, once no overflow can occur. *)
Definition takes (tk best_key k : Z) : bool :=
  ((best_key <? tk) && (k >? best_key)) || ((k >=? tk) && (k <? best_key)).

(** A key (a channel count, a width in bytes) that is a non-negative
    [int]. *)
Definition small_key (key : Z -> Z) (x : Z) : Prop := 0 <= key x <= INT_MAX.

(** A codec that lists three sample rates and nothing else. *)
Definition mp3_like_codec : AVCodec :=
  mkCodec None (Some [44100; 48000; 32000; 0]) None.

(** A chunk was stamped with the encode head [e] holds. *)
Definition carries (e : GrooveEncoderPrivate) (c : GrooveBuffer) : Prop :=
  b_item c = encode_head e /\ b_pos c = encode_pos e /\
  b_format c = encode_format e.

(** A chunk was stamped with the item, position and format of a source
    buffer. *)
Definition from_buffer (b c : GrooveBuffer) : Prop :=
  b_item c = b_item b /\ b_pos c = b_pos b /\ b_format c = b_format b.

(** The items waiting in the output queue of a worker state. *)
Definition pending_items {Codec Muxer : Type} (s : Worker.State Codec Muxer)
  : list BufferPtr :=
  items (audioq (Worker.enc s)).

(** A session that is not attached, in a world where it holds nothing. *)
Definition unattached (encoder : Session.GrooveEncoder) (w : Session.World) : Prop :=
  codec_ctx (Session.internals encoder) = NULL /\
  stream (Session.internals encoder) = NULL /\
  thread_id (Session.internals encoder) = NULL /\
  Session.live w = [] /\ Session.invalid w = [] /\ Session.open_codecs w = [].

(** Nothing of a session is alive: no object, no open codec, no worker,
    the sink is detached, and the encoder struct is reset. *)
Definition torn_down (encoder : Session.GrooveEncoder) (w : Session.World) : Prop :=
  Session.live w = [] /\ Session.open_codecs w = [] /\
  Session.sink_attached w = false /\
  thread_id (Session.internals encoder) = NULL /\
  codec_ctx (Session.internals encoder) = NULL /\
  stream (Session.internals encoder) = NULL /\
  Session.playlist encoder = NULL /\
  encode_head (Session.internals encoder) = NULL /\
  encode_pos (Session.internals encoder) = minus_one /\
  sent_header (Session.internals encoder) = 0.

(** The session is running: the four objects are alive, the codec is open
    with the negotiated format, the sink is attached and carries that
    format, and the worker thread exists. *)
Definition started (env : Session.AttachEnv) (nb_channels : Z -> Z)
    (playlist : Z) (encoder : Session.GrooveEncoder) (w : Session.World) : Prop :=
  let e := Session.internals encoder in
  let actual := Session.actual_audio_format encoder in
  fmt_ctx e = Session.ret_avformat_alloc_context env /\
  stream e = Session.ret_avformat_new_stream env /\
  codec_ctx e = Session.ret_avcodec_alloc_context3 env /\
  thread_id e = Session.ret_SDL_CreateThread env /\
  Session.live w
  = [Session.FormatContext (fmt_ctx e); Session.Stream (stream e) (fmt_ctx e);
     Session.CodecContext (codec_ctx e); Session.Thread (thread_id e)] /\
  Session.open_codecs w
  = [(codec_ctx e,
      Session.mkConfig (Session.bit_rate encoder) (sample_fmt actual)
        (sample_rate actual) (channel_layout actual)
        (nb_channels (channel_layout actual)))] /\
  Session.sink_attached w = true /\
  sink_audio_format e = actual /\
  Session.playlist encoder = playlist.

(** ** The remaining entry points *)

Module Callbacks.

Import Worker.

Section WithCodec.

Variables Codec Muxer : Type.
(** [avcodec_flush_buffers(ctx)] of libavcodec: the state of the backend
    after its internal buffers were dropped. *)
Variable avcodec_flush_buffers : Codec -> Codec.

(** [sink_flush]; the mutex is taken and released around the body. *)
Definition sink_flush (s : State Codec Muxer) : State Codec Muxer :=
  mkState (set_audioq (enc s) (groove_queue_flush (audioq (enc s))))
    (avcodec_flush_buffers (codec s)) (muxer s) (wlog s).

End WithCodec.

End Callbacks.

Module Creation.

(** The objects [groove_encoder_create] obtains, by handle. *)
Inductive Object : Type :=
| EncoderStruct (h : Z)
| PrivateStruct (h : Z)
| AvioBuffer (h : Z)
| AvioContext (h : Z)
| Mutex (h : Z)
| QueueObject (h : Z)
| SinkObject (h : Z).

Definition Object_eqb (a b : Object) : bool :=
  match a, b with
  | EncoderStruct x, EncoderStruct y => x =? y
  | PrivateStruct x, PrivateStruct y => x =? y
  | AvioBuffer x, AvioBuffer y => x =? y
  | AvioContext x, AvioContext y => x =? y
  | Mutex x, Mutex y => x =? y
  | QueueObject x, QueueObject y => x =? y
  | SinkObject x, SinkObject y => x =? y
  | _, _ => false
  end.

(** The objects that are allocated, the frees of an object that was not,
    and the log. *)
Record Heap : Type := mkHeap {
  allocated : list Object;
  bad_free : list Object;
  messages : list LogEntry
}.

Definition empty_heap : Heap := mkHeap [] [] [].

(** An allocator call that returned [h]: the object exists when [h] is
    not null. *)
Definition allocate (o : Object) (h : Z) (m : Heap) : Heap :=
  if h =? NULL then m
  else mkHeap (allocated m ++ [o]) (bad_free m) (messages m).

(** Destroying or freeing the object behind a non-null handle. *)
Definition dispose (o : Object) (m : Heap) : Heap :=
  if existsb (Object_eqb o) (allocated m)
  then mkHeap (filter (fun x => negb (Object_eqb o x)) (allocated m))
         (bad_free m) (messages m)
  else mkHeap (allocated m) (bad_free m ++ [o]) (messages m).

(** [av_free(p)]: nothing happens for the null pointer. *)
Definition av_free (o : Object) (h : Z) (m : Heap) : Heap :=
  if h =? NULL then m else dispose o m.

Definition log_error (msg : string) (m : Heap) : Heap :=
  mkHeap (allocated m) (bad_free m) (messages m ++ [LogError msg]).

(** The pointer fields of [GrooveEncoder] and [GrooveEncoderPrivate] that
    create fills in and destroy reads: the two structs themselves and the
    five objects the private struct points to. *)
Record Pointers : Type := mkPointers {
  p_encoder : Z;
  p_internals : Z;
  p_sink : Z;
  p_audioq : Z;
  p_encode_head_mutex : Z;
  p_avio : Z;
  p_avio_buf : Z
}.

(** [groove_encoder_destroy] *)
Definition groove_encoder_destroy (p : Pointers) (m : Heap) : Heap :=
  let m1 := if negb (p_sink p =? NULL)
            then dispose (SinkObject (p_sink p)) m else m in
  let m2 := if negb (p_audioq p =? NULL)
            then dispose (QueueObject (p_audioq p)) m1 else m1 in
  let m3 := if negb (p_encode_head_mutex p =? NULL)
            then dispose (Mutex (p_encode_head_mutex p)) m2 else m2 in
  let m4 := if negb (p_avio p =? NULL)
            then av_free (AvioContext (p_avio p)) (p_avio p) m3 else m3 in
  let m5 := if negb (p_avio_buf p =? NULL)
            then av_free (AvioBuffer (p_avio_buf p)) (p_avio_buf p) m4 else m4 in
  let m6 := av_free (PrivateStruct (p_internals p)) (p_internals p) m5 in
  av_free (EncoderStruct (p_encoder p)) (p_encoder p) m6.

(** What the allocators answer during one call of create. *)
Record CreateEnv : Type := mkCreateEnv {
  ret_mallocz_encoder : Z;
  ret_mallocz_private : Z;
  ret_malloc_avio_buf : Z;
  ret_avio_alloc_context : Z;
  ret_SDL_CreateMutex : Z;
  ret_groove_queue_create : Z;
  ret_groove_sink_create : Z
}.

(** [groove_encoder_create]: the pointers of the new encoder, or [None]
    for the null pointer, and the heap it leaves.  The two structs come
    zeroed from [av_mallocz]. *)
Definition groove_encoder_create (env : CreateEnv) (m : Heap)
  : option Pointers * Heap :=
  let encoder := ret_mallocz_encoder env in
  let m := allocate (EncoderStruct encoder) encoder m in
  let e := ret_mallocz_private env in
  let m := allocate (PrivateStruct e) e m in
  if (encoder =? NULL) || (e =? NULL) then
    (None,
     log_error "unable to allocate encoder"
       (av_free (PrivateStruct e) e
          (av_free (EncoderStruct encoder) encoder m)))
  else
  let buf := ret_malloc_avio_buf env in
  let p := mkPointers encoder e NULL NULL NULL NULL buf in
  let m := allocate (AvioBuffer buf) buf m in
  if p_avio_buf p =? NULL then
    (None, log_error "unable to allocate avio buffer" (groove_encoder_destroy p m))
  else
  let avio := ret_avio_alloc_context env in
  let p := mkPointers encoder e NULL NULL NULL avio buf in
  let m := allocate (AvioContext avio) avio m in
  if p_avio p =? NULL then
    (None, log_error "unable to allocate avio context" (groove_encoder_destroy p m))
  else
  let mutex := ret_SDL_CreateMutex env in
  let p := mkPointers encoder e NULL NULL mutex avio buf in
  let m := allocate (Mutex mutex) mutex m in
  if p_encode_head_mutex p =? NULL then
    (None, log_error "unable to create mutex" (groove_encoder_destroy p m))
  else
  let q := ret_groove_queue_create env in
  let p := mkPointers encoder e NULL q mutex avio buf in
  let m := allocate (QueueObject q) q m in
  if p_audioq p =? NULL then
    (None, log_error "unable to allocate queue" (groove_encoder_destroy p m))
  else
  let sink := ret_groove_sink_create env in
  let p := mkPointers encoder e sink q mutex avio buf in
  let m := allocate (SinkObject sink) sink m in
  if p_sink p =? NULL then
    (None, log_error "unable to allocate sink" (groove_encoder_destroy p m))
  else (Some p, m).

(** The objects of a complete encoder. *)
Definition objects_of (p : Pointers) : list Object :=
  [EncoderStruct (p_encoder p); PrivateStruct (p_internals p);
   AvioBuffer (p_avio_buf p); AvioContext (p_avio p);
   Mutex (p_encode_head_mutex p); QueueObject (p_audioq p);
   SinkObject (p_sink p)].

(** An environment in which every allocation succeeds. *)
Definition generous_env : CreateEnv := mkCreateEnv 10 11 12 13 14 15 16.

End Creation.

(** ** More vocabulary *)

(** How many times the sink signals the end of a stream in a script. *)
Fixpoint count_ends (script : list Worker.SinkResult) : nat :=
  match script with
  | [] => O
  | Worker.SinkEnd :: script' => S (count_ends script')
  | Worker.SinkYes _ :: script' => count_ends script'
  end.

(** How many sentinels a sequence of queue items holds. *)
Definition count_sentinels (l : list BufferPtr) : nat :=
  length (filter is_end_of_q_sentinel l).

(** The queue [q'] is [q] with the items [app] added at the tail: nothing
    was removed, cleaned up or aborted. *)
Definition queue_grows (q q' : GrooveQueue BufferPtr) (app : list BufferPtr) : Prop :=
  items q' = items q ++ app /\
  abort_request q' = abort_request q /\
  cleaned q' = cleaned q.

(** What the worker may do to the encoder struct: add items at the tail
    of the queue and move the encode head and the header flag; the
    handles of the session stay as they are. *)
Definition worker_step (e e' : GrooveEncoderPrivate) (app : list BufferPtr) : Prop :=
  queue_grows (audioq e) (audioq e') app /\
  codec_ctx e' = codec_ctx e /\ fmt_ctx e' = fmt_ctx e /\
  stream e' = stream e /\ thread_id e' = thread_id e /\
  purge_item e' = purge_item e /\
  sink_audio_format e' = sink_audio_format e.

(** The encode head is that of the buffer [b]. *)
Definition head_is (b : GrooveBuffer) (e : GrooveEncoderPrivate) : Prop :=
  encode_head e = b_item b /\ encode_pos e = b_pos b /\
  encode_format e = b_format b.

(** A capability array as the negotiator needs it: its entries before
    the terminator [stop] are different from it, there is at least one,
    and each satisfies [ok]. *)
Definition listed (stop : Z) (ok : Z -> Prop) (p : option (list Z))
    (entries : list Z) : Prop :=
  exists rest,
    p = Some (entries ++ stop :: rest) /\ entries <> [] /\
    Forall (fun x => x <> stop /\ ok x) entries.

(** A codec that constrains all three axes. *)
Definition constrained_codec : AVCodec :=
  mkCodec (Some [Libav.SAMPLE_FMT_S16P; Libav.SAMPLE_FMT_FLTP;
                 Libav.SAMPLE_FMT_FLT; Libav.SAMPLE_FMT_NONE])
    (Some [44100; 48000; 32000; 0])
    (Some [Libav.CH_LAYOUT_MONO; Libav.CH_LAYOUT_5POINT1; 0]).

(** ** Concrete runs *)

Module Runs.

Import Worker.

(** What the sink delivers for two segments: two buffers and the end, one
    buffer and the end. *)
Definition two_segments : list SinkResult :=
  [SinkYes (Backends.source_buffer 11 101);
   SinkYes (Backends.source_buffer 11 102); SinkEnd;
   SinkYes (Backends.source_buffer 12 103); SinkEnd].

Definition run (script : list SinkResult) : State unit unit :=
  match encode_thread 4 Backends.direct_encode Backends.direct_write_frame
          Backends.quiet_header Backends.quiet_header 1 script Backends.start with
  | Some s => s
  | None => Backends.start
  end.

(** The worker state after the two segments. *)
Definition two_segments_end : State unit unit :=
  Eval vm_compute in run two_segments.

(** The worker state after one whole segment and the first buffer of the
    next. *)
Definition open_segment_end : State unit unit :=
  Eval vm_compute in
    run [SinkYes (Backends.source_buffer 11 101); SinkEnd;
         SinkYes (Backends.source_buffer 12 103)].

(** An encoder whose queue holds chunks of items 11 and 12 and whose
    encode head is on item 11, and the same encoder after a purge of
    item 11. *)
Definition interleaved : GrooveEncoderPrivate :=
  set_encode_head
    (set_audioq (enc Backends.start)
       (mkQueue (map Some [Backends.source_buffer 11 101;
                           Backends.source_buffer 12 102;
                           Backends.source_buffer 11 103]) false []))
    11.

Definition purged_once : GrooveEncoderPrivate :=
  Eval vm_compute in
    match sink_purge interleaved 11 with
    | Some e => e
    | None => interleaved
    end.

(** The encoder, the world and the return value after a created encoder
    was attached with every step succeeding. *)
Definition attached : Session.GrooveEncoder * Session.World * Z :=
  Eval vm_compute in
    match Session.groove_encoder_attach Libav.nb_channels Libav.bytes_per_sample
            Libav.packed_sample_fmt Libav.SAMPLE_FMT_NONE Session.working_env
            (Session.created_encoder Libav.SAMPLE_FMT_S16 Libav.CH_LAYOUT_STEREO)
            77 Session.empty_world with
    | Some r => r
    | None =>
        (Session.created_encoder Libav.SAMPLE_FMT_S16 Libav.CH_LAYOUT_STEREO,
         Session.empty_world, -1)
    end.

End Runs.

(** * Properties *)

(** ** Negotiator *)

Section BiasedChoice.

Variable key : Z -> Z.
Variable tk : Z.

Lemma biased_best_single : forall x, biased_best key tk [x] x.
Proof.
  intros x; unfold biased_best; simpl. split; [now left|]. split.
  - intros s [<- | []] Hs; lia.
  - intros _ s [<- | []]; lia.
Qed.

Lemma biased_best_ext : forall l l' b,
  (forall s, In s l <-> In s l') -> biased_best key tk l b -> biased_best key tk l' b.
Proof.
  intros l l' b E (Hin & Hge & Hlt). split; [now apply E|]. split.
  - intros s Hs Hk. apply (Hge s); [now apply E | assumption].
  - intros Hb s Hs. apply Hlt; [assumption | now apply E].
Qed.

Lemma loop_test_defined : forall bk k,
  0 <= tk <= INT_MAX -> 0 <= bk <= INT_MAX \/ (INT_MIN <= bk <= INT_MAX /\ 0 < tk) ->
  INT_MIN <= k <= INT_MAX ->
  lazy_or ((bk <? tk) && (k >? bk))
    (lazy_and (k >=? tk)
       (do dx <- Negotiator.abs_diff tk k;
        do db <- Negotiator.abs_diff tk bk;
        Some (dx <? db))) = Some (takes tk bk k).
Proof.
  intros bk k Ht Hb Hk. unfold takes, lazy_or, lazy_and.
  destruct ((bk <? tk) && (k >? bk)) eqn:E1; [reflexivity|].
  destruct (k >=? tk) eqn:E2; [|reflexivity].
  simpl.
  assert (Hbk : tk <= bk).
  { apply andb_false_iff in E1. destruct E1 as [E1 | E1]; lia. }
  assert (Hkt : tk <= k) by lia.
  unfold Negotiator.abs_diff, int_sub, int_neg, in_int, INT_MIN, INT_MAX in *.
  replace ((- 2 ^ 31 <=? tk - k) && (tk - k <=? 2 ^ 31 - 1)) with true by lia.
  replace ((- 2 ^ 31 <=? tk - bk) && (tk - bk <=? 2 ^ 31 - 1)) with true by lia.
  destruct (tk - k >=? 0) eqn:E3; destruct (tk - bk >=? 0) eqn:E4;
    repeat match goal with
    | |- context [(?a <=? ?b) && (?c <=? ?d)] =>
        replace ((a <=? b) && (c <=? d)) with true by lia
    end; f_equal; lia.
Qed.

Lemma biased_best_step : forall seen best x,
  biased_best key tk seen best ->
  biased_best key tk (seen ++ [x]) (if takes tk (key best) (key x) then x else best).
Proof.
  intros seen best x (Hin & Hge & Hlt). unfold takes.
  assert (Hsplit : forall s, In s (seen ++ [x]) -> In s seen \/ s = x).
  { intros s Hs. apply in_app_or in Hs. destruct Hs as [Hs | [Hs | []]]; auto. }
  destruct (((key best <? tk) && (key x >? key best))
            || ((key x >=? tk) && (key x <? key best))) eqn:E.
  - split; [apply in_or_app; right; now left|]. split.
    + intros s Hs Hk. destruct (Hsplit _ Hs) as [Hs' | ->]; [|lia].
      pose proof (Hge _ Hs' Hk). lia.
    + intros Hx s Hs. destruct (Hsplit _ Hs) as [Hs' | ->]; [|lia].
      assert (Hb : key best < tk) by lia.
      pose proof (Hlt Hb _ Hs'). lia.
  - split; [apply in_or_app; now left|]. split.
    + intros s Hs Hk. destruct (Hsplit _ Hs) as [Hs' | ->].
      * apply (Hge _ Hs' Hk).
      * lia.
    + intros Hb s Hs. destruct (Hsplit _ Hs) as [Hs' | ->].
      * now apply Hlt.
      * lia.
Qed.

End BiasedChoice.

Section SampleRate.

Import Negotiator.

Lemma sample_rate_loop_run : forall rates rest target seen best,
  0 < target <= INT_MAX ->
  Forall (fun r => r <> 0 /\ is_int r) rates ->
  is_int best ->
  biased_best (fun z => z) target seen best ->
  exists r,
    sample_rate_loop (rates ++ 0 :: rest) target best = Some r /\
    ((In target rates /\ r = target) \/
     (~ In target rates /\ biased_best (fun z => z) target (seen ++ rates) r)).
Proof.
  induction rates as [|x rates IH]; intros rest target seen best Ht Hr Hb Hinv.
  - simpl. exists best. split; [reflexivity|]. right. split; [tauto|].
    now rewrite app_nil_r.
  - inversion Hr as [|? ? [Hx0 Hxi] Hr']; subst. simpl.
    destruct (x =? 0) eqn:E0; [lia|].
    destruct (x =? target) eqn:Et.
    + exists target. split; [reflexivity|]. left. split; [left; lia | reflexivity].
    + rewrite (@loop_test_defined target best x); unfold is_int in *; try lia.
      destruct (IH rest target (seen ++ [x])
                  (if takes target best x then x else best)) as (r & Hrun & Hres).
      * assumption.
      * assumption.
      * destruct (takes target best x); assumption.
      * exact (@biased_best_step (fun z => z) target seen best x Hinv).
      * exists r. split; [exact Hrun|].
        destruct Hres as [[Hin ->] | [Hnin Hbb]].
        -- left. split; [right; assumption | reflexivity].
        -- right. split.
           ++ intros [-> | Hin]; [lia | contradiction].
           ++ now rewrite <- app_assoc in Hbb.
Qed.

(** C3.  For a non-empty, zero-terminated array of supported sample
    rates and a positive target rate, [closest_supported_sample_rate]
    returns a listed rate: the target itself when it is listed;
    otherwise the least listed rate that is at least the target when
    there is one; otherwise the listed rate closest to the target by
    absolute difference. *)
Theorem closest_supported_sample_rate_spec :
  forall codec rates rest target,
    supported_samplerates codec = Some (rates ++ 0 :: rest) ->
    rates <> [] ->
    Forall (fun r => r <> 0 /\ is_int r) rates ->
    0 < target <= INT_MAX ->
    exists r,
      closest_supported_sample_rate codec target = Some r /\
      In r rates /\
      (In target rates -> r = target) /\
      (~ In target rates ->
       (exists x, In x rates /\ target <= x) ->
       target <= r /\ forall x, In x rates -> target <= x -> r <= x) /\
      (~ In target rates ->
       (forall x, In x rates -> x < target) ->
       forall x, In x rates -> Z.abs (target - r) <= Z.abs (target - x)).
Proof.
  intros codec rates rest target Hc Hne Hr Ht.
  unfold closest_supported_sample_rate. rewrite Hc.
  destruct rates as [|first rates']; [congruence|].
  change ((first :: rates') ++ 0 :: rest) with (first :: (rates' ++ 0 :: rest)).
  cbv iota.
  change (first :: rates' ++ 0 :: rest) with ((first :: rates') ++ 0 :: rest).
  assert (Hfi : is_int first) by (inversion Hr as [|? ? [? ?] ?]; assumption).
  destruct (@sample_rate_loop_run (first :: rates') rest target [first] first
              Ht Hr Hfi (biased_best_single (fun z => z) target first))
    as (r & Hrun & Hres).
  exists r. split; [exact Hrun|].
  destruct Hres as [[Hin ->] | [Hnin Hbb]].
  - split; [assumption|]. split; [reflexivity|]. split; intro; contradiction.
  - apply (@biased_best_ext (fun z => z) target _ (first :: rates')) in Hbb.
    2:{ intros s. simpl. tauto. }
    destruct Hbb as (Hin & Hge & Hlt).
    split; [assumption|]. split; [intro; contradiction|]. split.
    + intros _ (x & Hx & Hxt). pose proof (Hge _ Hx Hxt). split; [lia|].
      intros y Hy Hyt. pose proof (Hge _ Hy Hyt). lia.
    + intros _ Hall x Hx.
      pose proof (Hall _ Hin). pose proof (Hall _ Hx).
      assert (Hrt : r < target) by lia.
      pose proof (Hlt Hrt _ Hx). lia.
Qed.

Lemma closest_supported_sample_rate_spec_witness :
  exists r,
    closest_supported_sample_rate mp3_like_codec 40000 = Some r /\
    In r [44100; 48000; 32000] /\
    (In 40000 [44100; 48000; 32000] -> r = 40000) /\
    (~ In 40000 [44100; 48000; 32000] ->
     (exists x, In x [44100; 48000; 32000] /\ 40000 <= x) ->
     40000 <= r /\ forall x, In x [44100; 48000; 32000] -> 40000 <= x -> r <= x) /\
    (~ In 40000 [44100; 48000; 32000] ->
     (forall x, In x [44100; 48000; 32000] -> x < 40000) ->
     forall x, In x [44100; 48000; 32000] -> Z.abs (40000 - r) <= Z.abs (40000 - x)).
Proof.
  apply (@closest_supported_sample_rate_spec mp3_like_codec
           [44100; 48000; 32000] [] 40000).
  - reflexivity.
  - discriminate.
  - unfold is_int, INT_MIN, INT_MAX. repeat constructor; lia.
  - unfold INT_MAX. lia.
Defined.

End SampleRate.

Section ChannelLayoutAndFormat.

Import Negotiator.

Lemma channel_layout_loop_run :
  forall (nb_channels : Z -> Z) layouts rest target seen best,
  small_key nb_channels target ->
  Forall (fun l => l <> 0 /\ small_key nb_channels l) layouts ->
  small_key nb_channels best ->
  biased_best nb_channels (nb_channels target) seen best ->
  exists r,
    channel_layout_loop nb_channels (layouts ++ 0 :: rest) target
      (nb_channels target) best (nb_channels best) = Some r /\
    ((In target layouts /\ r = target) \/
     (~ In target layouts /\
      biased_best nb_channels (nb_channels target) (seen ++ layouts) r)).
Proof.
  unfold small_key, INT_MAX. intros nb_channels.
  induction layouts as [|x layouts IH]; intros rest target seen best Ht Hl Hb Hinv.
  - simpl. exists best. split; [reflexivity|]. right. split; [tauto|].
    now rewrite app_nil_r.
  - inversion Hl as [|? ? [Hx0 Hxk] Hl']; subst. simpl.
    destruct (x =? 0) eqn:E0; [lia|].
    destruct (x =? target) eqn:Et.
    + exists target. split; [reflexivity|]. left. split; [left; lia | reflexivity].
    + rewrite loop_test_defined; unfold INT_MIN, INT_MAX; try lia.
      pose proof (@biased_best_step nb_channels (nb_channels target)
                    seen best x Hinv) as Hstep.
      destruct (takes (nb_channels target) (nb_channels best) (nb_channels x)).
      * destruct (IH rest target (seen ++ [x]) x Ht Hl' Hxk Hstep)
          as (r & Hrun & Hres).
        exists r. split; [exact Hrun|].
        destruct Hres as [[Hin ->] | [Hnin Hbb]].
        -- left. split; [right; assumption | reflexivity].
        -- right. split.
           ++ intros [-> | Hin]; [lia | contradiction].
           ++ now rewrite <- app_assoc in Hbb.
      * destruct (IH rest target (seen ++ [x]) best Ht Hl' Hb Hstep)
          as (r & Hrun & Hres).
        exists r. split; [exact Hrun|].
        destruct Hres as [[Hin ->] | [Hnin Hbb]].
        -- left. split; [right; assumption | reflexivity].
        -- right. split.
           ++ intros [-> | Hin]; [lia | contradiction].
           ++ now rewrite <- app_assoc in Hbb.
Qed.

(** C5.  For a non-empty, zero-terminated array of supported channel
    layouts, [closest_supported_channel_layout] returns a listed layout:
    the target itself when it is listed, whatever the channel counts;
    otherwise a layout with the least channel count that is at least the
    target's when there is one; otherwise a layout whose channel count
    is closest to the target's by absolute difference. *)
Theorem closest_supported_channel_layout_spec :
  forall (nb_channels : Z -> Z) codec layouts rest target,
    channel_layouts codec = Some (layouts ++ 0 :: rest) ->
    layouts <> [] ->
    Forall (fun l => l <> 0 /\ small_key nb_channels l) layouts ->
    small_key nb_channels target ->
    exists r,
      closest_supported_channel_layout nb_channels codec target = Some r /\
      In r layouts /\
      (In target layouts -> r = target) /\
      (~ In target layouts ->
       (exists l, In l layouts /\ nb_channels target <= nb_channels l) ->
       nb_channels target <= nb_channels r /\
       forall l, In l layouts -> nb_channels target <= nb_channels l ->
                 nb_channels r <= nb_channels l) /\
      (~ In target layouts ->
       (forall l, In l layouts -> nb_channels l < nb_channels target) ->
       forall l, In l layouts ->
         Z.abs (nb_channels target - nb_channels r)
         <= Z.abs (nb_channels target - nb_channels l)).
Proof.
  intros nb_channels codec layouts rest target Hc Hne Hl Ht.
  unfold closest_supported_channel_layout. rewrite Hc.
  destruct layouts as [|first layouts']; [congruence|].
  change ((first :: layouts') ++ 0 :: rest)
    with (first :: (layouts' ++ 0 :: rest)).
  cbv iota zeta.
  change (first :: layouts' ++ 0 :: rest)
    with ((first :: layouts') ++ 0 :: rest).
  assert (Hfk : small_key nb_channels first)
    by (inversion Hl as [|? ? [? ?] ?]; assumption).
  destruct (@channel_layout_loop_run nb_channels (first :: layouts') rest target
              [first] first Ht Hl Hfk
              (biased_best_single nb_channels (nb_channels target) first))
    as (r & Hrun & Hres).
  exists r. split; [exact Hrun|].
  destruct Hres as [[Hin ->] | [Hnin Hbb]].
  - split; [assumption|]. split; [reflexivity|]. split; intro; contradiction.
  - apply (@biased_best_ext nb_channels (nb_channels target) _
             (first :: layouts')) in Hbb.
    2:{ intros s. simpl. tauto. }
    destruct Hbb as (Hin & Hge & Hlt).
    split; [assumption|]. split; [intro; contradiction|]. split.
    + intros _ (x & Hx & Hxt). pose proof (Hge _ Hx Hxt). split; [lia|].
      intros y Hy Hyt. pose proof (Hge _ Hy Hyt). lia.
    + intros _ Hall x Hx.
      pose proof (Hall _ Hin). pose proof (Hall _ Hx).
      assert (Hrt : nb_channels r < nb_channels target) by lia.
      pose proof (Hlt Hrt _ Hx). lia.
Qed.

Lemma supports_fmt_loop_run : forall (NONE : Z) fmts rest fmt,
  Forall (fun f => f <> NONE) fmts ->
  exists b,
    supports_fmt_loop NONE (fmts ++ NONE :: rest) fmt = Some b /\
    (b = true <-> In fmt fmts).
Proof.
  intros NONE. induction fmts as [|x fmts IH]; intros rest fmt Hf.
  - simpl. rewrite Z.eqb_refl. exists false. split; [reflexivity|].
    split; [discriminate | intros []].
  - inversion Hf as [|? ? Hx Hf']; subst. simpl.
    destruct (x =? NONE) eqn:En; [lia|].
    destruct (x =? fmt) eqn:Ef.
    + exists true. split; [reflexivity|]. split; [intros _; left; lia | reflexivity].
    + destruct (IH rest fmt Hf') as (b & Hrun & Hb).
      exists b. split; [exact Hrun|]. rewrite Hb. split.
      * intro; now right.
      * intros [-> | Hin]; [lia | assumption].
Qed.

Lemma sample_fmt_loop_run :
  forall (bytes_per_sample : Z -> Z) (NONE : Z) fmts rest target seen best,
  small_key bytes_per_sample target ->
  Forall (fun f => f <> NONE /\ small_key bytes_per_sample f) fmts ->
  small_key bytes_per_sample best ->
  biased_best bytes_per_sample (bytes_per_sample target) seen best ->
  exists r,
    sample_fmt_loop bytes_per_sample NONE (fmts ++ NONE :: rest) target
      (bytes_per_sample target) best (bytes_per_sample best) = Some r /\
    ((In target fmts /\ r = inl target) \/
     (~ In target fmts /\ exists b, r = inr b /\
      biased_best bytes_per_sample (bytes_per_sample target) (seen ++ fmts) b)).
Proof.
  unfold small_key, INT_MAX. intros bytes_per_sample NONE.
  induction fmts as [|x fmts IH]; intros rest target seen best Ht Hl Hb Hinv.
  - simpl. rewrite Z.eqb_refl. exists (inr best). split; [reflexivity|].
    right. split; [tauto|]. exists best. split; [reflexivity|].
    now rewrite app_nil_r.
  - inversion Hl as [|? ? [Hx0 Hxk] Hl']; subst. simpl.
    destruct (x =? NONE) eqn:E0; [lia|].
    destruct (x =? target) eqn:Et.
    + exists (inl target). split; [reflexivity|].
      left. split; [left; lia | reflexivity].
    + rewrite loop_test_defined; unfold INT_MIN, INT_MAX; try lia.
      pose proof (@biased_best_step bytes_per_sample (bytes_per_sample target)
                    seen best x Hinv) as Hstep.
      destruct (takes (bytes_per_sample target) (bytes_per_sample best)
                  (bytes_per_sample x)).
      * destruct (IH rest target (seen ++ [x]) x Ht Hl' Hxk Hstep)
          as (r & Hrun & Hres).
        exists r. split; [exact Hrun|].
        destruct Hres as [[Hin ->] | [Hnin (b & -> & Hbb)]].
        -- left. split; [right; assumption | reflexivity].
        -- right. split.
           ++ intros [-> | Hin]; [lia | contradiction].
           ++ exists b. split; [reflexivity|]. now rewrite <- app_assoc in Hbb.
      * destruct (IH rest target (seen ++ [x]) best Ht Hl' Hb Hstep)
          as (r & Hrun & Hres).
        exists r. split; [exact Hrun|].
        destruct Hres as [[Hin ->] | [Hnin (b & -> & Hbb)]].
        -- left. split; [right; assumption | reflexivity].
        -- right. split.
           ++ intros [-> | Hin]; [lia | contradiction].
           ++ exists b. split; [reflexivity|]. now rewrite <- app_assoc in Hbb.
Qed.

End ChannelLayoutAndFormat.

Section SampleFormat.

Import Negotiator.

(** C4.  For a non-empty, NONE-terminated array of supported sample
    formats, [closest_supported_sample_fmt] returns a listed format: the
    target itself when it is listed; otherwise it selects a listed
    format [best] whose width in bytes per sample is the least listed
    width that is at least the target's when there is one (so on equal
    distance the wider side wins) and the closest listed width
    otherwise, and returns the packed variant of [best] when that is
    listed and [best] itself when it is not. *)
Theorem closest_supported_sample_fmt_spec :
  forall (bytes_per_sample packed_sample_fmt : Z -> Z) (NONE : Z)
         codec fmts rest target,
    sample_fmts codec = Some (fmts ++ NONE :: rest) ->
    fmts <> [] ->
    Forall (fun f => f <> NONE /\ small_key bytes_per_sample f) fmts ->
    small_key bytes_per_sample target ->
    exists r,
      closest_supported_sample_fmt bytes_per_sample packed_sample_fmt NONE
        codec target = Some r /\
      In r fmts /\
      (In target fmts -> r = target) /\
      (~ In target fmts ->
       exists best,
         In best fmts /\
         (forall f, In f fmts -> bytes_per_sample target <= bytes_per_sample f ->
            bytes_per_sample target <= bytes_per_sample best <= bytes_per_sample f) /\
         ((forall f, In f fmts -> bytes_per_sample f < bytes_per_sample target) ->
          forall f, In f fmts ->
            Z.abs (bytes_per_sample target - bytes_per_sample best)
            <= Z.abs (bytes_per_sample target - bytes_per_sample f)) /\
         (In (packed_sample_fmt best) fmts -> r = packed_sample_fmt best) /\
         (~ In (packed_sample_fmt best) fmts -> r = best)).
Proof.
  intros bytes_per_sample packed_sample_fmt NONE codec fmts rest target
    Hc Hne Hl Ht.
  unfold closest_supported_sample_fmt, codec_supports_fmt. rewrite Hc.
  destruct fmts as [|first fmts']; [congruence|].
  change ((first :: fmts') ++ NONE :: rest)
    with (first :: (fmts' ++ NONE :: rest)).
  cbv iota zeta.
  change (first :: fmts' ++ NONE :: rest)
    with ((first :: fmts') ++ NONE :: rest).
  assert (Hfk : small_key bytes_per_sample first)
    by (inversion Hl as [|? ? [? ?] ?]; assumption).
  destruct (@sample_fmt_loop_run bytes_per_sample NONE (first :: fmts') rest
              target [first] first Ht Hl Hfk
              (biased_best_single bytes_per_sample (bytes_per_sample target) first))
    as (r & Hrun & Hres).
  rewrite Hrun.
  destruct Hres as [[Hin ->] | [Hnin (b & -> & Hbb)]].
  - exists target. split; [reflexivity|]. split; [assumption|].
    split; [reflexivity|]. intro; contradiction.
  - apply (@biased_best_ext bytes_per_sample (bytes_per_sample target) _
             (first :: fmts')) in Hbb.
    2:{ intros s. simpl. tauto. }
    destruct Hbb as (Hin & Hge & Hlt).
    assert (Hnn : Forall (fun f => f <> NONE) (first :: fmts')).
    { eapply Forall_impl; [|exact Hl]. intros a [Ha _]. exact Ha. }
    destruct (@supports_fmt_loop_run NONE (first :: fmts') rest
                (packed_sample_fmt b) Hnn) as (s & Hs & Hsin).
    rewrite Hs.
    exists (if s then packed_sample_fmt b else b).
    split; [reflexivity|]. split.
    { destruct s; [apply Hsin; reflexivity | assumption]. }
    split; [intro; contradiction|].
    intros _. exists b. split; [assumption|]. split; [exact Hge|]. split.
    + intros Hall f Hf.
      pose proof (Hall _ Hin). pose proof (Hall _ Hf).
      assert (Hbt : bytes_per_sample b < bytes_per_sample target) by lia.
      pose proof (Hlt Hbt _ Hf). lia.
    + split.
      * intros Hp. apply Hsin in Hp. now rewrite Hp.
      * intros Hp. destruct s; [|reflexivity].
        exfalso. apply Hp. apply Hsin. reflexivity.
Qed.

(** C6.  Against a descriptor whose supported set is the null pointer
    on an axis, the negotiation of that axis returns the target value;
    against a descriptor with all three null the whole format comes
    back unchanged. *)
Theorem unconstrained_round_trip :
  forall (nb_channels bytes_per_sample packed_sample_fmt : Z -> Z) (NONE : Z),
  (forall rates layouts target,
     closest_supported_sample_fmt bytes_per_sample packed_sample_fmt NONE
       (mkCodec None rates layouts) target = Some target) /\
  (forall fmts layouts target,
     closest_supported_sample_rate (mkCodec fmts None layouts) target
     = Some target) /\
  (forall fmts rates target,
     closest_supported_channel_layout nb_channels (mkCodec fmts rates None) target
     = Some target) /\
  (forall fmt,
     negotiate nb_channels bytes_per_sample packed_sample_fmt NONE
       (mkCodec None None None) fmt = Some fmt).
Proof.
  intros nb_channels bytes_per_sample packed_sample_fmt NONE.
  repeat split.
  intros [r l f]. reflexivity.
Qed.

End SampleFormat.

Lemma closest_supported_channel_layout_spec_witness :
  let layouts := [Libav.CH_LAYOUT_MONO; Libav.CH_LAYOUT_5POINT1] in
  let target := Libav.CH_LAYOUT_STEREO in
  exists r,
    Negotiator.closest_supported_channel_layout Libav.nb_channels
      (mkCodec None None (Some (layouts ++ [0]))) target = Some r /\
    In r layouts /\
    (In target layouts -> r = target) /\
    (~ In target layouts ->
     (exists l, In l layouts /\ Libav.nb_channels target <= Libav.nb_channels l) ->
     Libav.nb_channels target <= Libav.nb_channels r /\
     forall l, In l layouts -> Libav.nb_channels target <= Libav.nb_channels l ->
               Libav.nb_channels r <= Libav.nb_channels l) /\
    (~ In target layouts ->
     (forall l, In l layouts -> Libav.nb_channels l < Libav.nb_channels target) ->
     forall l, In l layouts ->
       Z.abs (Libav.nb_channels target - Libav.nb_channels r)
       <= Z.abs (Libav.nb_channels target - Libav.nb_channels l)).
Proof.
  intros layouts target.
  apply (@closest_supported_channel_layout_spec Libav.nb_channels
           (mkCodec None None (Some (layouts ++ [0]))) layouts [] target).
  - reflexivity.
  - discriminate.
  - unfold small_key. repeat constructor; try discriminate; vm_compute; discriminate.
  - unfold small_key. split; vm_compute; discriminate.
Defined.

Lemma closest_supported_sample_fmt_spec_witness :
  let fmts := [Libav.SAMPLE_FMT_S16P; Libav.SAMPLE_FMT_FLTP; Libav.SAMPLE_FMT_FLT] in
  let target := Libav.SAMPLE_FMT_S32 in
  exists r,
    Negotiator.closest_supported_sample_fmt Libav.bytes_per_sample
      Libav.packed_sample_fmt Libav.SAMPLE_FMT_NONE
      (mkCodec (Some (fmts ++ [Libav.SAMPLE_FMT_NONE])) None None) target
    = Some r /\
    In r fmts /\
    (In target fmts -> r = target) /\
    (~ In target fmts ->
     exists best,
       In best fmts /\
       (forall f, In f fmts ->
          Libav.bytes_per_sample target <= Libav.bytes_per_sample f ->
          Libav.bytes_per_sample target <= Libav.bytes_per_sample best
          <= Libav.bytes_per_sample f) /\
       ((forall f, In f fmts ->
           Libav.bytes_per_sample f < Libav.bytes_per_sample target) ->
        forall f, In f fmts ->
          Z.abs (Libav.bytes_per_sample target - Libav.bytes_per_sample best)
          <= Z.abs (Libav.bytes_per_sample target - Libav.bytes_per_sample f)) /\
       (In (Libav.packed_sample_fmt best) fmts ->
        r = Libav.packed_sample_fmt best) /\
       (~ In (Libav.packed_sample_fmt best) fmts -> r = best)).
Proof.
  intros fmts target.
  apply (@closest_supported_sample_fmt_spec Libav.bytes_per_sample
           Libav.packed_sample_fmt Libav.SAMPLE_FMT_NONE
           (mkCodec (Some (fmts ++ [Libav.SAMPLE_FMT_NONE])) None None)
           fmts [] target).
  - reflexivity.
  - discriminate.
  - unfold small_key. repeat constructor; try discriminate; vm_compute; discriminate.
  - unfold small_key. split; vm_compute; discriminate.
Defined.

(** The run behind the witness: the planar float format is selected and
    its packed variant, which the codec lists, is returned. *)
Example sample_fmt_prefers_packed :
  Negotiator.closest_supported_sample_fmt Libav.bytes_per_sample
    Libav.packed_sample_fmt Libav.SAMPLE_FMT_NONE
    (mkCodec (Some [Libav.SAMPLE_FMT_S16P; Libav.SAMPLE_FMT_FLTP;
                    Libav.SAMPLE_FMT_FLT; Libav.SAMPLE_FMT_NONE]) None None)
    Libav.SAMPLE_FMT_S32
  = Some Libav.SAMPLE_FMT_FLT.
Proof. reflexivity. Qed.

(** With no width that reaches the target's, the widest listed format is
    returned; with a wider one available, it wins over a closer narrower
    one. *)
Example sample_fmt_rounds_up :
  Negotiator.closest_supported_sample_fmt Libav.bytes_per_sample
    Libav.packed_sample_fmt Libav.SAMPLE_FMT_NONE
    (mkCodec (Some [Libav.SAMPLE_FMT_S16; Libav.SAMPLE_FMT_DBL;
                    Libav.SAMPLE_FMT_NONE]) None None)
    Libav.SAMPLE_FMT_S32
  = Some Libav.SAMPLE_FMT_DBL /\
  Negotiator.closest_supported_sample_fmt Libav.bytes_per_sample
    Libav.packed_sample_fmt Libav.SAMPLE_FMT_NONE
    (mkCodec (Some [Libav.SAMPLE_FMT_U8; Libav.SAMPLE_FMT_S16;
                    Libav.SAMPLE_FMT_NONE]) None None)
    Libav.SAMPLE_FMT_S32
  = Some Libav.SAMPLE_FMT_S16.
Proof. split; reflexivity. Qed.


(** ** The worker *)

Section WorkerFacts.

Import Worker.

Variable sizeof_int : Z.
Variables Codec Muxer Packet : Type.
Variable avcodec_encode_audio2 : Codec -> Z -> Codec * (Z * Z * Packet).
Variable av_write_frame : Muxer -> option Packet -> Muxer * list WriteCall * Z.
Variable avformat_write_header : Muxer -> Muxer * list WriteCall * Z.
Variable av_write_trailer : Muxer -> Muxer * list WriteCall * Z.

Local Abbreviation St := (State Codec Muxer).
Local Abbreviation WC := (write_calls sizeof_int).
Local Abbreviation EB := (encode_buffer sizeof_int avcodec_encode_audio2 av_write_frame).
Local Abbreviation DE := (drain_encoder sizeof_int avcodec_encode_audio2 av_write_frame).
Local Abbreviation DM := (drain_muxer sizeof_int av_write_frame).
Local Abbreviation HDR := (write_header_if_needed sizeof_int avformat_write_header).
Local Abbreviation EOS := (end_of_segment sizeof_int av_write_trailer).
Local Abbreviation THREAD :=
  (encode_thread sizeof_int avcodec_encode_audio2 av_write_frame
     avformat_write_header av_write_trailer).
Local Abbreviation FEED :=
  (feed sizeof_int avcodec_encode_audio2 av_write_frame avformat_write_header).
Local Abbreviation SUBMIT := (submit avcodec_encode_audio2 av_write_frame).
Local Abbreviation SUBMIT_ALL := (submit_all avcodec_encode_audio2 av_write_frame).
Local Abbreviation FLUSHB := (flush_backend avcodec_encode_audio2 av_write_frame).
Local Abbreviation FLUSHW := (flush_writer av_write_frame).
Local Abbreviation TRACE :=
  (segment_trace avcodec_encode_audio2 av_write_frame avformat_write_header
     av_write_trailer).
Local Abbreviation CHUNKS := (head_chunks sizeof_int).

Lemma worker_step_refl : forall e, worker_step e e [].
Proof.
  intros e. unfold worker_step, queue_grows. rewrite app_nil_r. repeat split.
Qed.

Lemma worker_step_trans : forall e1 e2 e3 a b,
  worker_step e1 e2 a -> worker_step e2 e3 b -> worker_step e1 e3 (a ++ b).
Proof.
  unfold worker_step, queue_grows.
  intros e1 e2 e3 a b ((Hi & Ha & Hc) & H1 & H2 & H3 & H4 & H5 & H6)
    ((Hi' & Ha' & Hc') & H1' & H2' & H3' & H4' & H5' & H6').
  rewrite Hi', Hi, Ha', Ha, Hc', Hc, H1', H1, H2', H2, H3', H3, H4', H4,
    H5', H5, H6', H6, app_assoc.
  repeat split.
Qed.

Lemma worker_step_items : forall e e' app,
  worker_step e e' app -> items (audioq e') = items (audioq e) ++ app.
Proof. intros e e' app ((Hi & _) & _). exact Hi. Qed.

Lemma head_chunks_app : forall h a b,
  CHUNKS h (a ++ b) = CHUNKS h a ++ CHUNKS h b.
Proof.
  intros h a b. unfold head_chunks, chunks_of. rewrite filter_app, map_app.
  reflexivity.
Qed.

Lemma defined_calls_app : forall a b,
  defined_calls (a ++ b) <-> defined_calls a /\ defined_calls b.
Proof. intros a b. unfold defined_calls. apply Forall_app. Qed.

(** What one callback invocation does, by the answers of the allocator. *)
Lemma encoder_write_packet_cases :
  forall (e : GrooveEncoderPrivate) (c : WriteCall),
    (use_after_free c = true /\ encoder_write_packet sizeof_int e c = None) \/
    (use_after_free c = false /\ stores c = true /\
     encoder_write_packet sizeof_int e c
     = Some (set_audioq e
               (groove_queue_put (audioq e)
                  (Some (chunk_of sizeof_int (encode_head e) (encode_pos e)
                           (encode_format e) c))), [], 0)) \/
    (use_after_free c = false /\ stores c = false /\
     exists msg, encoder_write_packet sizeof_int e c = Some (e, [LogError msg], -1)).
Proof.
  intros e c. unfold encoder_write_packet, use_after_free, stores, chunk_of.
  destruct (alloc_buffer_ok c), (alloc_private_ok c), (create_mutex_ok c),
    (alloc_data_ok c); cbn;
    first [ left; split; reflexivity
          | right; left; split; [reflexivity|]; split; reflexivity
          | right; right; split; [reflexivity|]; split; [reflexivity|];
            eexists; reflexivity ].
Qed.

(** The callback invocations of one writer call, when all are defined:
    the chunks of those that store one are appended under the current
    encode head, and nothing else changes. *)
Lemma write_calls_some : forall calls (s s' : St),
  WC s calls = Some s' ->
  defined_calls calls /\
  worker_step (enc s) (enc s') (map Some (CHUNKS (head_of (enc s)) calls)) /\
  head_of (enc s') = head_of (enc s) /\
  sent_header (enc s') = sent_header (enc s) /\
  codec s' = codec s /\
  muxer s' = muxer s.
Proof.
  induction calls as [|c calls IH]; intros s s' Hrun.
  - simpl in Hrun. injection Hrun as <-.
    split; [constructor|]. split; [apply worker_step_refl|]. repeat split.
  - simpl in Hrun.
    destruct (encoder_write_packet_cases (enc s) c)
      as [(Hu & E) | [(Hu & Hst & E) | (Hu & Hst & msg & E)]];
      rewrite E in Hrun; [discriminate| |];
      cbn [fst snd] in Hrun;
      destruct (IH _ _ Hrun) as (Hd & Hw & Hh & Hs & Hc & Hm);
      cbn [enc codec muxer] in *.
    + split; [constructor; assumption|].
      unfold head_chunks, chunks_of in *. cbn [filter]. rewrite Hst. cbn [map].
      split.
      { change (Some (chunk_of sizeof_int (fst (fst (head_of (enc s))))
                        (snd (fst (head_of (enc s)))) (snd (head_of (enc s))) c)
                :: map Some (map (chunk_of sizeof_int (fst (fst (head_of (enc s))))
                        (snd (fst (head_of (enc s)))) (snd (head_of (enc s))))
                        (filter stores calls)))
          with ([Some (chunk_of sizeof_int (encode_head (enc s)) (encode_pos (enc s))
                        (encode_format (enc s)) c)]
                ++ map Some (map (chunk_of sizeof_int (encode_head (enc s))
                        (encode_pos (enc s)) (encode_format (enc s)))
                        (filter stores calls))).
        eapply worker_step_trans; [|exact Hw].
        unfold worker_step, queue_grows, groove_queue_put. cbn. repeat split. }
      rewrite Hh, Hs, Hc, Hm. repeat split.
    + split; [constructor; assumption|].
      unfold head_chunks, chunks_of in *. cbn [filter]. rewrite Hst.
      split; [exact Hw|]. rewrite Hh, Hs, Hc, Hm. repeat split.
Qed.

Lemma write_calls_total : forall calls (s : St),
  defined_calls calls -> exists s', WC s calls = Some s'.
Proof.
  induction calls as [|c calls IH]; intros s Hd.
  - exists s. reflexivity.
  - inversion Hd as [|? ? Hc Hd']; subst. simpl.
    destruct (encoder_write_packet_cases (enc s) c)
      as [(Hu & E) | [(Hu & Hst & E) | (Hu & Hst & msg & E)]];
      [congruence| |]; rewrite E; cbn [fst snd]; apply IH; exact Hd'.
Qed.

(** The frame [encode_buffer] hands to the backend. *)
Lemma encode_buffer_some : forall (s s' : St) buffer r,
  EB s buffer = Some (s', r) ->
  let sub := SUBMIT (codec s) (muxer s)
               (match buffer with Some b => b_frame b | None => NULL end) in
  defined_calls (snd (fst sub)) /\
  head_of (enc s')
  = match buffer with
    | Some b => (b_item b, b_pos b, b_format b)
    | None => head_of (enc s)
    end /\
  worker_step (enc s) (enc s') (map Some (CHUNKS (head_of (enc s')) (snd (fst sub)))) /\
  sent_header (enc s') = sent_header (enc s) /\
  codec s' = fst (fst (fst sub)) /\
  muxer s' = snd (fst (fst sub)) /\
  r = (if snd sub then 0 else -1).
Proof.
  intros s s' buffer r Hrun. cbv zeta.
  unfold encode_buffer in Hrun. unfold submit.
  set (frame := match buffer with Some b => b_frame b | None => NULL end) in *.
  destruct (avcodec_encode_audio2 (codec s) frame) as [c' [[err got] pkt]].
  cbn [fst snd] in *.
  assert (Hstamp :
    forall e1,
      e1 = match buffer with
           | Some b =>
               set_encode_format
                 (set_encode_pos (set_encode_head (enc s) (b_item b)) (b_pos b))
                 (b_format b)
           | None => enc s
           end ->
      head_of e1 = match buffer with
                   | Some b => (b_item b, b_pos b, b_format b)
                   | None => head_of (enc s)
                   end /\
      worker_step (enc s) e1 [] /\ sent_header e1 = sent_header (enc s)).
  { intros e1 ->. destruct buffer as [b|].
    - split; [reflexivity|]. split; [|reflexivity].
      unfold worker_step, queue_grows. cbn. rewrite app_nil_r. repeat split.
    - split; [reflexivity|]. split; [apply worker_step_refl | reflexivity]. }
  destruct (err <? 0) eqn:Ee; [|destruct (got =? 0) eqn:Eg]; cbn [orb].
  - injection Hrun as <- <-. cbn [enc codec muxer fst snd].
    destruct (Hstamp _ eq_refl) as (Hh & Hw & Hs).
    split; [constructor|]. split; [exact Hh|]. split; [exact Hw|].
    split; [exact Hs|]. repeat split.
  - injection Hrun as <- <-. cbn [enc codec muxer fst snd].
    destruct (Hstamp _ eq_refl) as (Hh & Hw & Hs).
    split; [constructor|]. split; [exact Hh|]. split; [exact Hw|].
    split; [exact Hs|]. repeat split.
  - match type of Hrun with
    | context [WC ?s1 ?calls] => destruct (WC s1 calls) as [s2|] eqn:E; [|discriminate]
    end.
    injection Hrun as <- <-.
    destruct (write_calls_some _ _ E) as (Hd & Hw & Hh & Hs & Hc & Hm).
    cbn [enc codec muxer fst snd] in *.
    destruct (Hstamp _ eq_refl) as (Hh0 & Hw0 & Hs0).
    split; [exact Hd|]. split; [rewrite Hh; exact Hh0|].
    split.
    { rewrite Hh. exact (worker_step_trans Hw0 Hw). }
    split; [rewrite Hs; exact Hs0|]. split; [exact Hc|]. split; [exact Hm|].
    reflexivity.
Qed.

Lemma encode_buffer_total : forall (s : St) buffer,
  defined_calls
    (snd (fst (SUBMIT (codec s) (muxer s)
                 (match buffer with Some b => b_frame b | None => NULL end)))) ->
  exists s' r, EB s buffer = Some (s', r).
Proof.
  intros s buffer. unfold encode_buffer, submit.
  set (frame := match buffer with Some b => b_frame b | None => NULL end).
  destruct (avcodec_encode_audio2 (codec s) frame) as [c' [[err got] pkt]].
  cbn [fst snd].
  destruct (err <? 0); [|destruct (got =? 0)]; cbn [orb fst snd muxer];
    intros Hd.
  - eexists _, _. reflexivity.
  - eexists _, _. reflexivity.
  - match goal with
    | |- context [WC ?s1 ?calls] =>
        destruct (write_calls_total s1 Hd) as (s2 & E); rewrite E
    end.
    eexists _, _. reflexivity.
Qed.

(** The calls the header makes in a state: those of
    [avformat_write_header] when no header was sent, none otherwise. *)
Lemma write_header_some : forall (s s' : St),
  HDR s = Some s' ->
  let hdr := if sent_header (enc s) =? 0
             then fst (avformat_write_header (muxer s)) else (muxer s, []) in
  defined_calls (snd hdr) /\
  worker_step (enc s) (enc s') (map Some (CHUNKS (head_of (enc s)) (snd hdr))) /\
  head_of (enc s') = head_of (enc s) /\
  sent_header (enc s') <> 0 /\
  codec s' = codec s /\
  muxer s' = fst hdr /\
  (sent_header (enc s) <> 0 -> s' = s).
Proof.
  intros s s' Hrun. cbv zeta. unfold write_header_if_needed in Hrun.
  destruct (sent_header (enc s) =? 0) eqn:E.
  - match type of Hrun with
    | context [WC ?s1 ?calls] => destruct (WC s1 calls) as [s2|] eqn:E2; [|discriminate]
    end.
    injection Hrun as <-.
    destruct (write_calls_some _ _ E2) as (Hd & Hw & Hh & Hs & Hc & Hm).
    cbn [enc codec muxer fst snd] in *.
    split; [exact Hd|]. split.
    { unfold worker_step, queue_grows in *. cbn.
      destruct Hw as ((Hi & Ha & Hcl) & H1 & H2 & H3 & H4 & H5 & H6).
      rewrite Hi, Ha, Hcl, H1, H2, H3, H4, H5, H6. repeat split. }
    split; [exact Hh|]. split; [cbn; discriminate|].
    split; [exact Hc|]. split; [exact Hm|]. intros Hne. lia.
  - injection Hrun as <-. cbn [fst snd].
    split; [constructor|]. split; [apply worker_step_refl|].
    split; [reflexivity|]. split; [lia|]. repeat split.
Qed.

Lemma write_header_total : forall (s : St),
  defined_calls
    (snd (if sent_header (enc s) =? 0
          then fst (avformat_write_header (muxer s)) else (muxer s, []))) ->
  exists s', HDR s = Some s'.
Proof.
  intros s. unfold write_header_if_needed.
  destruct (sent_header (enc s) =? 0); intros Hd.
  - match goal with
    | |- context [WC ?s1 ?calls] =>
        destruct (write_calls_total s1 Hd) as (s2 & E); rewrite E
    end.
    eexists. reflexivity.
  - eexists. reflexivity.
Qed.

Lemma write_header_sent : forall (s : St),
  sent_header (enc s) <> 0 -> HDR s = Some s.
Proof.
  intros s Hs. unfold write_header_if_needed.
  destruct (sent_header (enc s) =? 0) eqn:E; [lia | reflexivity].
Qed.

(** The end of a segment: the sentinel first, then the chunks of the
    trailer under no item. *)
Lemma end_of_segment_some : forall (s s' : St),
  EOS s = Some s' ->
  let trl := av_write_trailer (muxer s) in
  defined_calls (snd (fst trl)) /\
  worker_step (enc s) (enc s')
    (end_of_q_sentinel
     :: map Some (chunks_of sizeof_int NULL minus_one (encode_format (enc s))
                    (snd (fst trl)))) /\
  head_of (enc s') = (NULL, minus_one, encode_format (enc s)) /\
  sent_header (enc s') = 0 /\
  codec s' = codec s /\
  muxer s' = fst (fst trl).
Proof.
  intros s s' Hrun. cbv zeta. unfold end_of_segment in Hrun.
  match type of Hrun with
  | context [WC ?s1 ?calls] => destruct (WC s1 calls) as [s2|] eqn:E2; [|discriminate]
  end.
  injection Hrun as <-.
  destruct (write_calls_some _ _ E2) as (Hd & Hw & Hh & Hs & Hc & Hm).
  cbn [enc codec muxer fst snd] in *.
  split; [exact Hd|]. split.
  { unfold worker_step, queue_grows, groove_queue_put in *.
    unfold head_chunks, head_of in Hw. cbn in Hw. cbn.
    destruct Hw as ((Hi & Ha & Hcl) & H1 & H2 & H3 & H4 & H5 & H6).
    rewrite Hi, Ha, Hcl, H1, H2, H3, H4, H5, H6, <- app_assoc. repeat split. }
  split; [rewrite Hh; reflexivity|]. split; [rewrite Hs; reflexivity|].
  split; [exact Hc | exact Hm].
Qed.

Lemma end_of_segment_total : forall (s : St),
  defined_calls (snd (fst (av_write_trailer (muxer s)))) ->
  exists s', EOS s = Some s'.
Proof.
  intros s Hd. unfold end_of_segment.
  match goal with
  | |- context [WC ?s1 ?calls] =>
      destruct (write_calls_total s1 Hd) as (s2 & E); rewrite E
  end.
  eexists. reflexivity.
Qed.

(** A frame for which no packet comes back reaches no callback and leaves
    the writer alone. *)
Lemma submit_no_packet : forall c m frame,
  snd (SUBMIT c m frame) = false ->
  snd (fst (SUBMIT c m frame)) = [] /\ snd (fst (fst (SUBMIT c m frame))) = m.
Proof.
  intros c m frame. unfold submit.
  destruct (avcodec_encode_audio2 c frame) as [c' [[err got] pkt]].
  cbn [fst snd]. destruct ((err <? 0) || (got =? 0)); cbn [fst snd].
  - intros _. split; reflexivity.
  - discriminate.
Qed.

Lemma submit_packet : forall c m frame,
  snd (SUBMIT c m frame) = true ->
  0 <= fst (fst (snd (avcodec_encode_audio2 c frame))) /\
  snd (fst (snd (avcodec_encode_audio2 c frame))) <> 0.
Proof.
  intros c m frame. unfold submit.
  destruct (avcodec_encode_audio2 c frame) as [c' [[err got] pkt]].
  cbn [fst snd].
  destruct (err <? 0) eqn:Ee; [discriminate|].
  destruct (got =? 0) eqn:Eg; [discriminate|].
  intros _. split; lia.
Qed.

Lemma submit_codec : forall c m frame,
  fst (fst (fst (SUBMIT c m frame))) = fst (avcodec_encode_audio2 c frame).
Proof.
  intros c m frame. unfold submit.
  destruct (avcodec_encode_audio2 c frame) as [c' [[err got] pkt]].
  cbn [fst snd]. destruct ((err <? 0) || (got =? 0)); reflexivity.
Qed.

(** The drain of the backend is the flush of the backend seen from the
    encoder. *)
Lemma drain_encoder_some : forall n (s s' : St),
  DE n s = Some s' ->
  exists calls,
    FLUSHB n (codec s) (muxer s) = Some (codec s', muxer s', calls) /\
    defined_calls calls /\
    worker_step (enc s) (enc s') (map Some (CHUNKS (head_of (enc s)) calls)) /\
    head_of (enc s') = head_of (enc s) /\
    sent_header (enc s') = sent_header (enc s).
Proof.
  induction n as [|n IH]; intros s s' Hrun; [discriminate|].
  simpl in Hrun.
  destruct (EB s None) as [[s1 r]|] eqn:E; [|discriminate].
  destruct (encode_buffer_some _ _ E) as (Hd & Hh & Hw & Hs & Hc & Hm & Hr).
  cbn [fst snd] in Hrun. simpl.
  destruct (snd (SUBMIT (codec s) (muxer s) NULL)) eqn:Eg.
  - subst r. change (0 >=? 0) with true in Hrun. cbv iota in Hrun.
    destruct (IH _ _ Hrun) as (calls & Hf & Hd' & Hw' & Hh' & Hs').
    rewrite Hc, Hm in Hf. rewrite Hf. cbn [fst snd].
    eexists. split; [reflexivity|].
    split; [apply defined_calls_app; split; assumption|].
    rewrite head_chunks_app, map_app.
    split.
    { rewrite Hh in Hw'. rewrite Hh in Hw. exact (worker_step_trans Hw Hw'). }
    split; [rewrite Hh', Hh; reflexivity | rewrite Hs', Hs; reflexivity].
  - subst r. change (-1 >=? 0) with false in Hrun. cbv iota in Hrun.
    injection Hrun as <-.
    destruct (submit_no_packet _ _ _ Eg) as (Hnil & _).
    rewrite Hnil in Hw.
    exists []. rewrite Hc, Hm. split; [reflexivity|].
    split; [constructor|]. split; [exact Hw|]. split; assumption.
Qed.

Lemma drain_encoder_total : forall n (s : St) r,
  FLUSHB n (codec s) (muxer s) = Some r ->
  defined_calls (snd r) ->
  exists s', DE n s = Some s'.
Proof.
  induction n as [|n IH]; intros s r Hf Hd; [discriminate|].
  simpl in Hf. simpl.
  destruct (snd (SUBMIT (codec s) (muxer s) NULL)) eqn:Eg.
  - destruct (FLUSHB n (fst (fst (fst (SUBMIT (codec s) (muxer s) NULL))))
                (snd (fst (fst (SUBMIT (codec s) (muxer s) NULL)))))
      as [r'|] eqn:Ef; [|discriminate].
    injection Hf as <-. cbn [snd] in Hd.
    apply defined_calls_app in Hd. destruct Hd as [Hd1 Hd2].
    destruct (@encode_buffer_total s None Hd1) as (s1 & r1 & E). rewrite E.
    destruct (encode_buffer_some _ _ E) as (_ & _ & _ & _ & Hc & Hm & Hr).
    rewrite Eg in Hr. subst r1. cbn [fst snd].
    change (0 >=? 0) with true. cbv iota.
    apply (IH s1 r'); [rewrite Hc, Hm; exact Ef | exact Hd2].
  - destruct (submit_no_packet _ _ _ Eg) as (Hnil & _).
    destruct (@encode_buffer_total s None) as (s1 & r1 & E).
    { rewrite Hnil. constructor. }
    rewrite E.
    destruct (encode_buffer_some _ _ E) as (_ & _ & _ & _ & _ & _ & Hr).
    rewrite Eg in Hr. subst r1. cbn [fst snd].
    change (-1 >=? 0) with false. cbv iota. eexists. reflexivity.
Qed.

Lemma drain_encoder_mono : forall n (s s' : St),
  DE n s = Some s' -> forall m, (n <= m)%nat -> DE m s = Some s'.
Proof.
  induction n as [|n IH]; intros s s' Hrun m Hm; [discriminate|].
  destruct m as [|m]; [inversion Hm|].
  simpl in *. destruct (EB s None) as [[s1 r]|]; [|discriminate].
  cbn [fst snd] in *. destruct (r >=? 0).
  - apply IH with (m := m) in Hrun; [exact Hrun | lia].
  - exact Hrun.
Qed.

Lemma flush_backend_total :
  forall (codec_pending : Codec -> nat),
    (forall c,
       0 <= fst (fst (snd (avcodec_encode_audio2 c NULL))) ->
       snd (fst (snd (avcodec_encode_audio2 c NULL))) <> 0 ->
       (codec_pending (fst (avcodec_encode_audio2 c NULL)) < codec_pending c)%nat) ->
    forall n c m,
      (codec_pending c < n)%nat -> exists r, FLUSHB n c m = Some r.
Proof.
  intros codec_pending Hdec.
  induction n as [|n IH]; intros c m Hn; [inversion Hn|].
  simpl. destruct (snd (SUBMIT c m NULL)) eqn:Eg.
  - destruct (submit_packet _ _ _ Eg) as (He & Hg).
    pose proof (Hdec c He Hg) as Hlt.
    destruct (IH (fst (fst (fst (SUBMIT c m NULL)))) (snd (fst (fst (SUBMIT c m NULL)))))
      as (r' & Hr').
    { rewrite submit_codec. lia. }
    rewrite Hr'. eexists. reflexivity.
  - eexists. reflexivity.
Qed.

Lemma flush_backend_mono : forall n c m r,
  FLUSHB n c m = Some r -> forall k, (n <= k)%nat -> FLUSHB k c m = Some r.
Proof.
  induction n as [|n IH]; intros c m r Hrun k Hk; [discriminate|].
  destruct k as [|k]; [inversion Hk|].
  simpl in *. destruct (snd (SUBMIT c m NULL)); [|exact Hrun].
  destruct (FLUSHB n (fst (fst (fst (SUBMIT c m NULL))))
              (snd (fst (fst (SUBMIT c m NULL))))) as [r'|] eqn:E; [|discriminate].
  rewrite (IH _ _ _ E k) by lia. exact Hrun.
Qed.

(** The drain of the writer is the flush of the writer seen from the
    encoder. *)
Lemma drain_muxer_some : forall n (s s' : St),
  DM n s = Some s' ->
  exists calls,
    FLUSHW n (muxer s) = Some (muxer s', calls) /\
    defined_calls calls /\
    worker_step (enc s) (enc s') (map Some (CHUNKS (head_of (enc s)) calls)) /\
    head_of (enc s') = head_of (enc s) /\
    sent_header (enc s') = sent_header (enc s) /\
    codec s' = codec s.
Proof.
  induction n as [|n IH]; intros s s' Hrun; [discriminate|].
  simpl in Hrun. simpl.
  match type of Hrun with
  | context [WC ?s1 ?calls] => destruct (WC s1 calls) as [s2|] eqn:E; [|discriminate]
  end.
  destruct (write_calls_some _ _ E) as (Hd & Hw & Hh & Hs & Hc & Hm).
  cbn [enc codec muxer] in *.
  destruct (snd (av_write_frame (muxer s) None) =? 0).
  - destruct (IH _ _ Hrun) as (calls & Hf & Hd' & Hw' & Hh' & Hs' & Hc').
    rewrite Hm in Hf. rewrite Hf. cbn [fst snd].
    eexists. split; [reflexivity|].
    split; [apply defined_calls_app; split; assumption|].
    rewrite head_chunks_app, map_app.
    split.
    { rewrite Hh in Hw'. exact (worker_step_trans Hw Hw'). }
    split; [rewrite Hh', Hh; reflexivity|].
    split; [rewrite Hs', Hs; reflexivity | rewrite Hc', Hc; reflexivity].
  - injection Hrun as <-. rewrite Hm.
    eexists. split; [reflexivity|]. split; [exact Hd|]. split; [exact Hw|].
    split; [exact Hh|]. split; [exact Hs | exact Hc].
Qed.

Lemma drain_muxer_total : forall n (s : St) r,
  FLUSHW n (muxer s) = Some r ->
  defined_calls (snd r) ->
  exists s', DM n s = Some s'.
Proof.
  induction n as [|n IH]; intros s r Hf Hd; [discriminate|].
  simpl in Hf. simpl.
  destruct (snd (av_write_frame (muxer s) None) =? 0).
  - destruct (FLUSHW n (fst (fst (av_write_frame (muxer s) None))))
      as [r'|] eqn:Ef; [|discriminate].
    injection Hf as <-. cbn [snd] in Hd.
    apply defined_calls_app in Hd. destruct Hd as [Hd1 Hd2].
    match goal with
    | |- context [WC ?s1 ?calls] =>
        destruct (write_calls_total s1 Hd1) as (s2 & E); rewrite E
    end.
    destruct (write_calls_some _ _ E) as (_ & _ & _ & _ & _ & Hm).
    cbn [muxer] in Hm.
    apply (IH s2 r'); [rewrite Hm; exact Ef | exact Hd2].
  - injection Hf as <-. cbn [snd] in Hd.
    match goal with
    | |- context [WC ?s1 ?calls] =>
        destruct (write_calls_total s1 Hd) as (s2 & E); rewrite E
    end.
    eexists. reflexivity.
Qed.

Lemma drain_muxer_mono : forall n (s s' : St),
  DM n s = Some s' -> forall m, (n <= m)%nat -> DM m s = Some s'.
Proof.
  induction n as [|n IH]; intros s s' Hrun m Hm; [discriminate|].
  destruct m as [|m]; [inversion Hm|].
  simpl in *.
  match type of Hrun with
  | context [WC ?s1 ?calls] => destruct (WC s1 calls) as [s2|]; [|discriminate]
  end.
  destruct (snd (av_write_frame (muxer s) None) =? 0).
  - apply IH with (m := m) in Hrun; [exact Hrun | lia].
  - exact Hrun.
Qed.

Lemma flush_writer_total :
  forall (muxer_pending : Muxer -> nat),
    (forall m,
       snd (av_write_frame m None) = 0 ->
       (muxer_pending (fst (fst (av_write_frame m None))) < muxer_pending m)%nat) ->
    forall n m,
      (muxer_pending m < n)%nat -> exists r, FLUSHW n m = Some r.
Proof.
  intros muxer_pending Hdec.
  induction n as [|n IH]; intros m Hn; [inversion Hn|].
  simpl. destruct (snd (av_write_frame m None) =? 0) eqn:Er.
  - assert (Hz : snd (av_write_frame m None) = 0) by lia.
    pose proof (Hdec m Hz) as Hlt.
    destruct (IH (fst (fst (av_write_frame m None)))) as (r' & Hr'); [lia|].
    rewrite Hr'. eexists. reflexivity.
  - eexists. reflexivity.
Qed.

Lemma flush_writer_mono : forall n m r,
  FLUSHW n m = Some r -> forall k, (n <= k)%nat -> FLUSHW k m = Some r.
Proof.
  induction n as [|n IH]; intros m r Hrun k Hk; [discriminate|].
  destruct k as [|k]; [inversion Hk|].
  simpl in *. destruct (snd (av_write_frame m None) =? 0); [|exact Hrun].
  destruct (FLUSHW n (fst (fst (av_write_frame m None)))) as [r'|] eqn:E;
    [|discriminate].
  rewrite (IH _ _ E k) by lia. exact Hrun.
Qed.

(** The buffers of a segment, once the header is out. *)
Lemma feed_some : forall bufs (s s' : St),
  sent_header (enc s) <> 0 ->
  FEED s bufs = Some s' ->
  let fed := SUBMIT_ALL (codec s) (muxer s) bufs in
  Forall defined_calls (snd fed) /\
  worker_step (enc s) (enc s') (map Some (buffer_chunks sizeof_int bufs (snd fed))) /\
  head_of (enc s') = head_after (head_of (enc s)) bufs /\
  sent_header (enc s') <> 0 /\
  codec s' = fst (fst fed) /\
  muxer s' = snd (fst fed).
Proof.
  induction bufs as [|b bufs IH]; intros s s' Hs Hrun; cbv zeta.
  - simpl in Hrun. injection Hrun as <-. simpl.
    split; [constructor|]. split; [apply worker_step_refl|]. repeat split. exact Hs.
  - simpl in Hrun. rewrite (write_header_sent s Hs) in Hrun.
    destruct (EB s (Some b)) as [[s1 r]|] eqn:E; [|discriminate].
    cbn [fst] in Hrun.
    destruct (encode_buffer_some _ _ E) as (Hd & Hh & Hw & Hs1 & Hc & Hm & _).
    destruct (IH s1 s') as (Hd' & Hw' & Hh' & Hs' & Hc' & Hm');
      [rewrite Hs1; exact Hs | exact Hrun |].
    simpl. rewrite Hc, Hm in *. cbn [fst snd].
    split; [constructor; assumption|].
    split.
    { rewrite map_app. rewrite Hh in Hw. exact (worker_step_trans Hw Hw'). }
    split; [rewrite Hh', Hh; reflexivity|].
    split; [exact Hs'|]. split; assumption.
Qed.

Lemma feed_total : forall bufs (s : St),
  sent_header (enc s) <> 0 ->
  Forall defined_calls (snd (SUBMIT_ALL (codec s) (muxer s) bufs)) ->
  exists s', FEED s bufs = Some s'.
Proof.
  induction bufs as [|b bufs IH]; intros s Hs Hd.
  - exists s. reflexivity.
  - simpl in Hd. cbn [fst snd] in Hd. inversion Hd as [|? ? Hd1 Hd2]; subst.
    simpl. rewrite (write_header_sent s Hs).
    destruct (@encode_buffer_total s (Some b) Hd1) as (s1 & r & E). rewrite E.
    cbn [fst].
    destruct (encode_buffer_some _ _ E) as (_ & _ & _ & Hs1 & Hc & Hm & _).
    apply IH; [rewrite Hs1; exact Hs | rewrite Hc, Hm; exact Hd2].
Qed.

Lemma submit_all_length : forall bufs c m,
  length (snd (SUBMIT_ALL c m bufs)) = length bufs.
Proof.
  induction bufs as [|b bufs IH]; intros c m; [reflexivity|].
  simpl. rewrite IH. reflexivity.
Qed.

Lemma thread_header : forall fuel script (s s0 : St),
  HDR s = Some s0 -> THREAD fuel script s = THREAD fuel script s0.
Proof.
  intros fuel script s s0 Hh.
  destruct (write_header_some _ Hh) as (_ & _ & _ & Hne & _).
  pose proof (write_header_sent s0 Hne) as Hid.
  destruct script as [|[b|] script]; simpl; rewrite Hh, Hid; reflexivity.
Qed.

Lemma thread_feed : forall bufs rest fuel (s : St),
  THREAD fuel (map SinkYes bufs ++ rest) s
  = match FEED s bufs with
    | Some s' => THREAD fuel rest s'
    | None => None
    end.
Proof.
  induction bufs as [|b bufs IH]; intros rest fuel s; [reflexivity|].
  simpl. destruct (HDR s) as [s0|]; [|reflexivity].
  destruct (EB s0 (Some b)) as [[s1 r]|]; [|reflexivity].
  cbn [fst]. apply IH.
Qed.

Lemma thread_header_none : forall fuel script (s : St),
  HDR s = None -> THREAD fuel script s = None.
Proof.
  intros fuel script s Hh. destruct script as [|[b|] script]; simpl; rewrite Hh;
    reflexivity.
Qed.

Lemma thread_mono : forall script n (s s' : St),
  THREAD n script s = Some s' -> forall k, (n <= k)%nat -> THREAD k script s = Some s'.
Proof.
  induction script as [|[b|] script IH]; intros n s s' Hrun k Hk.
  - simpl in *. exact Hrun.
  - simpl in *. destruct (HDR s) as [s0|]; [|discriminate].
    destruct (EB s0 (Some b)) as [[s1 r]|]; [|discriminate].
    exact (@IH _ _ _ Hrun _ Hk).
  - simpl in *. destruct (HDR s) as [s0|]; [|discriminate].
    destruct (DE n s0) as [s1|] eqn:E1; [|discriminate].
    rewrite (@drain_encoder_mono _ _ _ E1 _ Hk).
    destruct (DM n s1) as [s2|] eqn:E2; [|discriminate].
    rewrite (@drain_muxer_mono _ _ _ E2 _ Hk).
    destruct (EOS s2) as [s3|]; [|discriminate].
    exact (@IH _ _ _ Hrun _ Hk).
Qed.

Lemma segment_trace_mono : forall n sent c m bufs tr,
  TRACE n sent c m bufs = Some tr ->
  forall k, (n <= k)%nat -> TRACE k sent c m bufs = Some tr.
Proof.
  intros n sent c m bufs tr Hrun k Hk. unfold segment_trace in *.
  match type of Hrun with
  | context [FLUSHB n ?c1 ?m1] =>
      destruct (FLUSHB n c1 m1) as [d1|] eqn:E1; [|discriminate];
      rewrite (@flush_backend_mono _ _ _ _ E1 _ Hk)
  end.
  match type of Hrun with
  | context [FLUSHW n ?m1] =>
      destruct (FLUSHW n m1) as [d2|] eqn:E2; [|discriminate];
      rewrite (@flush_writer_mono _ _ _ E2 _ Hk)
  end.
  exact Hrun.
Qed.

Lemma segment_trace_total :
  forall (codec_pending : Codec -> nat) (muxer_pending : Muxer -> nat),
    (forall c,
       0 <= fst (fst (snd (avcodec_encode_audio2 c NULL))) ->
       snd (fst (snd (avcodec_encode_audio2 c NULL))) <> 0 ->
       (codec_pending (fst (avcodec_encode_audio2 c NULL)) < codec_pending c)%nat) ->
    (forall m,
       snd (av_write_frame m None) = 0 ->
       (muxer_pending (fst (fst (av_write_frame m None))) < muxer_pending m)%nat) ->
    forall sent c m bufs,
      exists fuel0 tr, TRACE fuel0 sent c m bufs = Some tr.
Proof.
  intros codec_pending muxer_pending Hcodec Hmuxer sent c m bufs.
  unfold segment_trace.
  set (hdr := if sent =? 0 then fst (avformat_write_header m) else (m, [])).
  set (fed := SUBMIT_ALL c (fst hdr) bufs).
  destruct (@flush_backend_total codec_pending Hcodec
              (S (codec_pending (fst (fst fed)))) (fst (fst fed)) (snd (fst fed))
              (Nat.lt_succ_diag_r _)) as (d1 & E1).
  destruct (@flush_writer_total muxer_pending Hmuxer
              (S (muxer_pending (snd (fst d1)))) (snd (fst d1))
              (Nat.lt_succ_diag_r _)) as (d2 & E2).
  exists (Nat.max (S (codec_pending (fst (fst fed)))) (S (muxer_pending (snd (fst d1))))).
  rewrite (@flush_backend_mono _ _ _ _ E1 (Nat.max (S (codec_pending (fst (fst fed)))) (S (muxer_pending (snd (fst d1)))))) by lia.
  rewrite (@flush_writer_mono _ _ _ E2 (Nat.max (S (codec_pending (fst (fst fed)))) (S (muxer_pending (snd (fst d1)))))) by lia.
  eexists. reflexivity.
Qed.

Lemma segment_trace_length : forall n sent c m bufs tr,
  TRACE n sent c m bufs = Some tr -> length (t_buffers tr) = length bufs.
Proof.
  intros n sent c m bufs tr Hrun. unfold segment_trace in Hrun.
  match type of Hrun with
  | context [FLUSHB n ?c1 ?m1] =>
      destruct (FLUSHB n c1 m1) as [d1|]; [|discriminate]
  end.
  match type of Hrun with
  | context [FLUSHW n ?m1] =>
      destruct (FLUSHW n m1) as [d2|]; [|discriminate]
  end.
  injection Hrun as <-. cbn [t_buffers]. apply submit_all_length.
Qed.

(** One segment, from the worker's side: when the worker comes back, the
    backend and the writer have produced the trace of the segment, every
    callback invocation of it was defined, and the queue has grown by the
    chunks of the header, of the buffers and of the drains, then the
    sentinel, then the chunks of the trailer and of the next header. *)
Lemma segment_some : forall fuel bufs (s0 s1 : St),
  THREAD fuel (map SinkYes bufs ++ [SinkEnd]) s0 = Some s1 ->
  exists tr,
    TRACE fuel (sent_header (enc s0)) (codec s0) (muxer s0) bufs = Some tr /\
    trace_defined tr /\
    worker_step (enc s0) (enc s1)
      (map Some (segment_data sizeof_int (enc s0) bufs tr)
       ++ end_of_q_sentinel
          :: map Some (segment_late sizeof_int (enc s0) bufs tr)).
Proof.
  intros fuel bufs s0 s1 Hrun.
  destruct (HDR s0) as [sh|] eqn:Eh;
    [|rewrite (@thread_header_none fuel _ _ Eh) in Hrun; discriminate].
  rewrite (@thread_header fuel _ _ _ Eh), thread_feed in Hrun.
  destruct (@write_header_some _ _ Eh) as (Hd_h & Hw_h & Hh_h & Hs_h & Hc_h & Hm_h & _).
  destruct (FEED sh bufs) as [sf|] eqn:Ef; [|discriminate].
  destruct (@feed_some _ _ _ Hs_h Ef) as (Hd_f & Hw_f & Hh_f & Hs_f & Hc_f & Hm_f).
  simpl in Hrun. rewrite (write_header_sent sf Hs_f) in Hrun.
  destruct (DE fuel sf) as [sd1|] eqn:E1; [|discriminate].
  destruct (@drain_encoder_some _ _ _ E1) as (calls1 & Hf1 & Hd_1 & Hw_1 & Hh_1 & Hs_1).
  destruct (DM fuel sd1) as [sd2|] eqn:E2; [|discriminate].
  destruct (@drain_muxer_some _ _ _ E2) as (calls2 & Hf2 & Hd_2 & Hw_2 & Hh_2 & Hs_2 & Hc_2).
  destruct (EOS sd2) as [se|] eqn:Ee; [|discriminate].
  destruct (@end_of_segment_some _ _ Ee) as (Hd_e & Hw_e & Hh_e & Hs_e & Hc_e & Hm_e).
  destruct (HDR se) as [sn|] eqn:En; [|discriminate].
  destruct (@write_header_some _ _ En) as (Hd_n & Hw_n & Hh_n & _ & _ & _ & _).
  injection Hrun as <-.
  rewrite Hs_e in Hd_n, Hw_n. cbn [Z.eqb fst snd] in Hd_n, Hw_n.
  rewrite Hc_h, Hm_h in Hc_f, Hm_f, Hd_f, Hw_f.
  rewrite Hc_f, Hm_f in Hf1.
  unfold segment_trace. rewrite Hf1. cbn [fst snd]. rewrite Hf2. cbn [fst snd].
  eexists. split; [reflexivity|].
  split.
  { unfold trace_defined. cbn [t_header t_buffers t_drain t_trailer t_next_header].
    rewrite Hm_e in Hd_n.
    split; [exact Hd_h|]. split; [exact Hd_f|].
    split; [apply defined_calls_app; split; assumption|].
    split; assumption. }
  unfold segment_data, segment_late.
  cbn [t_header t_buffers t_drain t_trailer t_next_header].
  rewrite Hh_h in Hh_f.
  rewrite Hh_f in Hw_1. rewrite Hh_1, Hh_f in Hw_2.
  assert (Hfmt : encode_format (enc sd2) = snd (head_after (head_of (enc s0)) bufs)).
  { change (encode_format (enc sd2)) with (snd (head_of (enc sd2))).
    rewrite Hh_2, Hh_1, Hh_f. reflexivity. }
  rewrite Hfmt in Hw_e, Hh_e. rewrite Hh_e, Hm_e in Hw_n.
  unfold head_chunks in Hw_n. cbn [fst snd] in Hw_n.
  pose proof (worker_step_trans Hw_h
               (worker_step_trans Hw_f
                  (worker_step_trans Hw_1
                     (worker_step_trans Hw_2
                        (worker_step_trans Hw_e Hw_n))))) as Hw.
  match type of Hw with
  | worker_step _ _ ?l =>
      match goal with
      | |- worker_step _ _ ?l' => replace l' with l; [exact Hw|]
      end
  end.
  unfold chunks_of. rewrite head_chunks_app, filter_app.
  repeat rewrite map_app. repeat rewrite <- app_assoc. reflexivity.
Qed.

(** One segment, from the backend's side: when the backend and the writer
    come to the end of the segment and every callback invocation is
    defined, the worker comes back. *)
Lemma segment_total : forall fuel bufs (s0 : St) tr,
  TRACE fuel (sent_header (enc s0)) (codec s0) (muxer s0) bufs = Some tr ->
  trace_defined tr ->
  exists s1, THREAD fuel (map SinkYes bufs ++ [SinkEnd]) s0 = Some s1.
Proof.
  intros fuel bufs s0 tr Htr Hdef. unfold segment_trace in Htr.
  match type of Htr with
  | context [FLUSHB fuel ?c1 ?m1] =>
      destruct (FLUSHB fuel c1 m1) as [d1|] eqn:E1; [|discriminate]
  end.
  cbn [fst snd] in Htr.
  match type of Htr with
  | context [FLUSHW fuel ?m1] =>
      destruct (FLUSHW fuel m1) as [d2|] eqn:E2; [|discriminate]
  end.
  injection Htr as <-.
  destruct Hdef as (Hd_h & Hd_f & Hd_d & Hd_e & Hd_n).
  cbn [t_header t_buffers t_drain t_trailer t_next_header] in *.
  apply defined_calls_app in Hd_d. destruct Hd_d as [Hd_1 Hd_2].
  destruct (@write_header_total s0 Hd_h) as (sh & Eh).
  destruct (@write_header_some _ _ Eh) as (_ & _ & _ & Hs_h & Hc_h & Hm_h & _).
  rewrite (@thread_header fuel _ _ _ Eh), thread_feed.
  destruct (@feed_total bufs sh Hs_h) as (sf & Ef);
    [rewrite Hc_h, Hm_h; exact Hd_f|].
  rewrite Ef.
  destruct (@feed_some _ _ _ Hs_h Ef) as (_ & _ & _ & Hs_f & Hc_f & Hm_f).
  rewrite Hc_h, Hm_h in Hc_f, Hm_f.
  simpl. rewrite (write_header_sent sf Hs_f).
  destruct (@drain_encoder_total fuel sf d1) as (sd1 & Ed1);
    [rewrite Hc_f, Hm_f; exact E1 | exact Hd_1 |].
  rewrite Ed1.
  destruct (@drain_encoder_some _ _ _ Ed1) as (calls1 & Hf1 & _).
  rewrite Hc_f, Hm_f, E1 in Hf1. injection Hf1 as ->.
  cbn [fst snd] in *.
  destruct (@drain_muxer_total fuel sd1 d2) as (sd2 & Ed2);
    [exact E2 | exact Hd_2 |].
  rewrite Ed2.
  destruct (@drain_muxer_some _ _ _ Ed2) as (calls2 & Hf2 & _).
  rewrite E2 in Hf2. injection Hf2 as ->.
  cbn [fst snd] in *.
  destruct (@end_of_segment_total sd2) as (se & Ee); [exact Hd_e|].
  rewrite Ee.
  destruct (@end_of_segment_some _ _ Ee) as (_ & _ & _ & Hs_e & _ & Hm_e).
  destruct (@write_header_total se) as (sn & En).
  { rewrite Hs_e. cbn [Z.eqb fst snd]. rewrite Hm_e. exact Hd_n. }
  rewrite En. eexists. reflexivity.
Qed.

(** Reading a queue that holds chunks and then the sentinel. *)
Lemma get_buffers_spec : forall pre e rest block,
  items (audioq e) = map Some pre ++ end_of_q_sentinel :: rest ->
  exists e',
    get_buffers (S (length pre)) e block
    = Some (e', map (fun c => (GROOVE_BUFFER_YES, Some c)) pre
                ++ [(GROOVE_BUFFER_END, None)]) /\
    items (audioq e') = rest.
Proof.
  induction pre as [|c pre IH]; intros e rest block Hq.
  - simpl in *. unfold groove_encoder_get_buffer, groove_queue_get.
    rewrite Hq. simpl. eexists. split; reflexivity.
  - simpl in Hq.
    destruct (IH (set_audioq e
                    (mkQueue (map Some pre ++ end_of_q_sentinel :: rest)
                       (abort_request (audioq e)) (cleaned (audioq e))))
                 rest block eq_refl) as (e' & Hrun & Hrest).
    exists e'. split; [|exact Hrest].
    change (get_buffers (S (length (c :: pre))) e block)
      with (do r <- groove_encoder_get_buffer e block;
            do rs <- get_buffers (S (length pre)) (fst (fst r)) block;
            Some (fst rs, (snd (fst r), snd r) :: snd rs)).
    unfold groove_encoder_get_buffer at 1, groove_queue_get.
    rewrite Hq. cbn [fst snd is_end_of_q_sentinel].
    match goal with
    | |- match ?g with Some _ => _ | None => _ end = _ =>
        replace g with
          (Some (e', map (fun c => (GROOVE_BUFFER_YES, Some c)) pre
                     ++ [(GROOVE_BUFFER_END, @None GrooveBuffer)]))
          by (symmetry; exact Hrun)
    end.
    reflexivity.
Qed.

(** Reading a queue that starts with chunks. *)
Lemma get_buffers_chunks : forall pre e rest block,
  items (audioq e) = map Some pre ++ rest ->
  exists e',
    get_buffers (length pre) e block
    = Some (e', map (fun c => (GROOVE_BUFFER_YES, Some c)) pre) /\
    items (audioq e') = rest.
Proof.
  induction pre as [|c pre IH]; intros e rest block Hq.
  - simpl in *. exists e. split; [reflexivity | exact Hq].
  - simpl in Hq.
    destruct (IH (set_audioq e
                    (mkQueue (map Some pre ++ rest)
                       (abort_request (audioq e)) (cleaned (audioq e))))
                 rest block eq_refl) as (e' & Hrun & Hrest).
    exists e'. split; [|exact Hrest].
    change (get_buffers (length (c :: pre)) e block)
      with (do r <- groove_encoder_get_buffer e block;
            do rs <- get_buffers (length pre) (fst (fst r)) block;
            Some (fst rs, (snd (fst r), snd r) :: snd rs)).
    unfold groove_encoder_get_buffer at 1, groove_queue_get.
    rewrite Hq. cbn [fst snd is_end_of_q_sentinel].
    match goal with
    | |- match ?g with Some _ => _ | None => _ end = _ =>
        replace g with
          (Some (e', map (fun c => (GROOVE_BUFFER_YES, Some c)) pre))
          by (symmetry; exact Hrun)
    end.
    reflexivity.
Qed.


(** *** What the worker keeps and what it never does *)

Lemma count_sentinels_app : forall a b,
  count_sentinels (a ++ b) = (count_sentinels a + count_sentinels b)%nat.
Proof.
  intros a b. unfold count_sentinels. rewrite filter_app, length_app. reflexivity.
Qed.

Lemma count_sentinels_chunks : forall chunks : list GrooveBuffer,
  count_sentinels (map Some chunks) = O.
Proof.
  induction chunks as [|c chunks IH]; [reflexivity | exact IH].
Qed.



(** X8.  Whatever the sink delivers and whatever the backend and the
    writer do, when the worker leaves its loop the queue is the one it
    started with plus items added at the tail, among them exactly one
    sentinel for each end of stream the sink signalled; the worker has
    cleaned up nothing, has not touched the abort flag and has left the
    handles of the session as they were. *)
Theorem worker_only_appends : forall script fuel (s s' : St),
  THREAD fuel script s = Some s' ->
  exists appended,
    worker_step (enc s) (enc s') appended /\
    count_sentinels appended = count_ends script.
Proof.
  induction script as [|[b|] script IH]; intros fuel s s' Hrun.
  - simpl in Hrun. destruct (HDR s) as [s0|] eqn:Eh; [|discriminate].
    injection Hrun as <-.
    destruct (@write_header_some _ _ Eh) as (_ & Hw & _).
    eexists. split; [exact Hw | apply count_sentinels_chunks].
  - simpl in Hrun. destruct (HDR s) as [s0|] eqn:Eh; [|discriminate].
    destruct (EB s0 (Some b)) as [[s1 r]|] eqn:Eb; [|discriminate].
    cbn [fst] in Hrun.
    destruct (@write_header_some _ _ Eh) as (_ & Hw & _).
    destruct (@encode_buffer_some _ _ _ _ Eb) as (_ & _ & Hw' & _).
    destruct (IH _ _ _ Hrun) as (app & Hw'' & Hcount).
    eexists.
    split; [exact (worker_step_trans Hw (worker_step_trans Hw' Hw''))|].
    rewrite !count_sentinels_app, !count_sentinels_chunks, Hcount. reflexivity.
  - simpl in Hrun. destruct (HDR s) as [s0|] eqn:Eh; [|discriminate].
    destruct (DE fuel s0) as [s1|] eqn:E1; [|discriminate].
    destruct (DM fuel s1) as [s2|] eqn:E2; [|discriminate].
    destruct (EOS s2) as [s3|] eqn:Ee; [|discriminate].
    destruct (@write_header_some _ _ Eh) as (_ & Hw & _).
    destruct (@drain_encoder_some _ _ _ E1) as (d1 & _ & _ & Hw1 & _).
    destruct (@drain_muxer_some _ _ _ E2) as (d2 & _ & _ & Hw2 & _).
    destruct (@end_of_segment_some _ _ Ee) as (_ & Hw3 & _).
    destruct (IH _ _ _ Hrun) as (app & Hw4 & Hcount).
    eexists.
    split.
    + exact (worker_step_trans Hw (worker_step_trans Hw1
               (worker_step_trans Hw2 (worker_step_trans Hw3 Hw4)))).
    + rewrite !count_sentinels_app, !count_sentinels_chunks.
      match goal with
      | |- context [count_sentinels (end_of_q_sentinel :: map Some ?post)] =>
          change (count_sentinels (end_of_q_sentinel :: map Some post))
            with (S (count_sentinels (map Some post)))
      end.
      rewrite count_sentinels_chunks, Hcount. reflexivity.
Qed.

Lemma thread_app : forall a b fuel (s : St),
  THREAD fuel (a ++ b) s
  = match THREAD fuel a s with
    | Some s1 => THREAD fuel b s1
    | None => None
    end.
Proof.
  induction a as [|[x|] a IH]; intros b fuel s.
  - simpl. destruct (HDR s) as [s0|] eqn:Eh.
    + exact (@thread_header fuel b _ _ Eh).
    + exact (@thread_header_none fuel b _ Eh).
  - simpl. destruct (HDR s) as [s0|]; [|reflexivity].
    destruct (EB s0 (Some x)) as [[s1 r]|]; [|reflexivity].
    apply IH.
  - simpl. destruct (HDR s) as [s0|]; [|reflexivity].
    destruct (DE fuel s0) as [s1|]; [|reflexivity].
    destruct (DM fuel s1) as [s2|]; [|reflexivity].
    destruct (EOS s2) as [s3|]; [|reflexivity].
    apply IH.
Qed.

(** Where the encode head is when the worker has come back. *)
Lemma head_after_last : forall script last fuel (s s' : St),
  THREAD fuel (script ++ [last]) s = Some s' ->
  match last with
  | SinkYes b => head_is b (enc s')
  | SinkEnd => encode_head (enc s') = NULL /\ encode_pos (enc s') = minus_one
  end.
Proof.
  intros script last fuel s s' Hrun. rewrite thread_app in Hrun.
  destruct (THREAD fuel script s) as [s1|]; [|discriminate].
  destruct last as [b|]; simpl in Hrun.
  - destruct (HDR s1) as [s2|]; [|discriminate].
    destruct (EB s2 (Some b)) as [[s3 r]|] eqn:Eb; [|discriminate].
    cbn [fst] in Hrun.
    destruct (HDR s3) as [s4|] eqn:Eh; [|discriminate].
    injection Hrun as <-.
    destruct (@encode_buffer_some _ _ _ _ Eb) as (_ & Hh & _).
    destruct (@write_header_some _ _ Eh) as (_ & _ & Hh' & _).
    rewrite Hh in Hh'. unfold head_of in Hh'. injection Hh' as H1 H2 H3.
    unfold head_is. repeat split; assumption.
  - destruct (HDR s1) as [s2|]; [|discriminate].
    destruct (DE fuel s2) as [s3|]; [|discriminate].
    destruct (DM fuel s3) as [s4|]; [|discriminate].
    destruct (EOS s4) as [s5|] eqn:Ee; [|discriminate].
    destruct (HDR s5) as [s6|] eqn:Eh; [|discriminate].
    injection Hrun as <-.
    destruct (@end_of_segment_some _ _ Ee) as (_ & _ & Hh & _).
    destruct (@write_header_some _ _ Eh) as (_ & _ & Hh' & _).
    rewrite Hh in Hh'. unfold head_of in Hh'. injection Hh' as H1 H2 H3.
    split; assumption.
Qed.

Lemma submit_defined : forall c m frame,
  (forall m pkt, defined_calls (snd (fst (av_write_frame m pkt)))) ->
  defined_calls (snd (fst (SUBMIT c m frame))).
Proof.
  intros c m frame Hdef. unfold submit.
  destruct (avcodec_encode_audio2 c frame) as [c' [[err got] pkt]].
  cbn [fst snd]. destruct ((err <? 0) || (got =? 0)); cbn [fst snd].
  - constructor.
  - apply Hdef.
Qed.

Lemma flush_backend_defined : forall n c m r,
  (forall m pkt, defined_calls (snd (fst (av_write_frame m pkt)))) ->
  FLUSHB n c m = Some r -> defined_calls (snd r).
Proof.
  induction n as [|n IH]; intros c m r Hdef Hrun; [discriminate|].
  simpl in Hrun. destruct (snd (SUBMIT c m NULL)).
  - destruct (FLUSHB n (fst (fst (fst (SUBMIT c m NULL))))
                (snd (fst (fst (SUBMIT c m NULL))))) as [r'|] eqn:E; [|discriminate].
    injection Hrun as <-. cbn [snd]. apply defined_calls_app.
    split; [apply submit_defined; exact Hdef | exact (IH _ _ _ Hdef E)].
  - injection Hrun as <-. constructor.
Qed.

Lemma flush_writer_defined : forall n m r,
  (forall m pkt, defined_calls (snd (fst (av_write_frame m pkt)))) ->
  FLUSHW n m = Some r -> defined_calls (snd r).
Proof.
  induction n as [|n IH]; intros m r Hdef Hrun; [discriminate|].
  simpl in Hrun. destruct (snd (av_write_frame m None) =? 0).
  - destruct (FLUSHW n (fst (fst (av_write_frame m None)))) as [r'|] eqn:E;
      [|discriminate].
    injection Hrun as <-. cbn [snd]. apply defined_calls_app.
    split; [apply Hdef | exact (IH _ _ Hdef E)].
  - injection Hrun as <-. apply Hdef.
Qed.

(** The worker comes back from every script when the drains come to an
    end and no callback invocation is undefined. *)
Lemma thread_total :
  forall (codec_pending : Codec -> nat) (muxer_pending : Muxer -> nat),
    (forall c,
       0 <= fst (fst (snd (avcodec_encode_audio2 c NULL))) ->
       snd (fst (snd (avcodec_encode_audio2 c NULL))) <> 0 ->
       (codec_pending (fst (avcodec_encode_audio2 c NULL)) < codec_pending c)%nat) ->
    (forall m,
       snd (av_write_frame m None) = 0 ->
       (muxer_pending (fst (fst (av_write_frame m None))) < muxer_pending m)%nat) ->
    (forall m pkt, defined_calls (snd (fst (av_write_frame m pkt)))) ->
    (forall m, defined_calls (snd (fst (avformat_write_header m)))) ->
    (forall m, defined_calls (snd (fst (av_write_trailer m)))) ->
    forall script (s : St),
      exists fuel0 s', THREAD fuel0 script s = Some s'.
Proof.
  intros codec_pending muxer_pending Hcodec Hmuxer Hframe Hheader Htrailer.
  assert (Hhdr : forall s : St, exists s0, HDR s = Some s0).
  { intros s. apply write_header_total.
    destruct (sent_header (enc s) =? 0); [apply Hheader | constructor]. }
  induction script as [|[b|] script IH]; intros s.
  - destruct (Hhdr s) as (s0 & Eh). exists O, s0. simpl. rewrite Eh. reflexivity.
  - destruct (Hhdr s) as (s0 & Eh).
    destruct (@encode_buffer_total s0 (Some b)) as (s1 & r & Eb);
      [apply submit_defined; exact Hframe|].
    destruct (IH s1) as (fuel0 & s' & Hrun).
    exists fuel0, s'. simpl. rewrite Eh, Eb. exact Hrun.
  - destruct (Hhdr s) as (s0 & Eh).
    destruct (@flush_backend_total codec_pending Hcodec
                (S (codec_pending (codec s0))) (codec s0) (muxer s0)
                (Nat.lt_succ_diag_r _)) as (r1 & Ef1).
    destruct (@drain_encoder_total _ s0 r1 Ef1
                (@flush_backend_defined _ _ _ _ Hframe Ef1)) as (s1 & E1).
    destruct (@flush_writer_total muxer_pending Hmuxer
                (S (muxer_pending (muxer s1))) (muxer s1)
                (Nat.lt_succ_diag_r _)) as (r2 & Ef2).
    destruct (@drain_muxer_total _ s1 r2 Ef2
                (@flush_writer_defined _ _ _ Hframe Ef2)) as (s2 & E2).
    destruct (@end_of_segment_total s2 (Htrailer _)) as (s3 & Ee).
    destruct (IH s3) as (fuel0 & s' & Hrun).
    set (n := Nat.max (S (codec_pending (codec s0)))
                (Nat.max (S (muxer_pending (muxer s1))) fuel0)).
    assert (Hn1 : (S (codec_pending (codec s0)) <= n)%nat) by lia.
    assert (Hn2 : (S (muxer_pending (muxer s1)) <= n)%nat) by lia.
    assert (Hn3 : (fuel0 <= n)%nat) by lia.
    clearbody n.
    exists n, s'.
    simpl. rewrite Eh.
    rewrite (@drain_encoder_mono _ _ _ E1 n Hn1).
    rewrite (@drain_muxer_mono _ _ _ E2 n Hn2).
    rewrite Ee.
    exact (@thread_mono _ _ _ _ Hrun n Hn3).
Qed.



End WorkerFacts.


(** With a backend that returns a packet for every frame and a writer
    that hands every packet to the callback at once, two buffers give two
    chunks and then the end. *)
Example direct_backend_two_buffers :
  let fmt := mkFormat 44100 Libav.CH_LAYOUT_STEREO Libav.SAMPLE_FMT_S16 in
  match
    Worker.encode_thread 4 Backends.direct_encode Backends.direct_write_frame
      Backends.quiet_header Backends.quiet_header 1
      [Worker.SinkYes (Backends.source_buffer 11 101);
       Worker.SinkYes (Backends.source_buffer 12 102); Worker.SinkEnd]
      Backends.start
  with
  | Some s1 =>
      option_map snd (Worker.get_buffers 3 (Worker.enc s1) true)
      = Some [(GROOVE_BUFFER_YES,
               Some (mkBuffer fmt 11 (S754_zero false) 1 NULL 1 4 [101]));
              (GROOVE_BUFFER_YES,
               Some (mkBuffer fmt 12 (S754_zero false) 1 NULL 1 4 [102]));
              (GROOVE_BUFFER_END, None)]
  | None => False
  end.
Proof. vm_compute. reflexivity. Qed.

(** With a writer whose header and trailer come out as one page each,
    one buffer gives: the page of the header, under no item; the chunk of
    the buffer; the sentinel; and behind the sentinel the page of the
    trailer and the page of the next header.  Two calls of
    [groove_encoder_get_buffer] return data, the third the end, and the
    fourth returns the page of the trailer. *)
Example trailer_page_behind_sentinel :
  match
    Worker.encode_thread 4 Backends.direct_encode Backends.direct_write_frame
      Backends.page_header Backends.page_header 1
      [Worker.SinkYes (Backends.source_buffer 11 101); Worker.SinkEnd]
      Backends.start
  with
  | Some s1 =>
      map (option_map (fun c => (b_item c, b_size c))) (pending_items s1)
      = [Some (NULL, 8); Some (11, 1); None; Some (NULL, 8); Some (NULL, 8)] /\
      option_map (fun r => map (fun x => (fst x, option_map b_size (snd x))) (snd r))
        (Worker.get_buffers 4 (Worker.enc s1) false)
      = Some [(GROOVE_BUFFER_YES, Some 8); (GROOVE_BUFFER_YES, Some 1);
              (GROOVE_BUFFER_END, None); (GROOVE_BUFFER_YES, Some 8)]
  | None => False
  end.
Proof. vm_compute. split; reflexivity. Qed.

(** When [av_malloc] fails for the payload of a chunk, the worker is
    undefined from the first packet on. *)
Example starved_callback_undefined : forall fuel,
  Worker.encode_thread 4 Backends.direct_encode Backends.starved_write_frame
    Backends.quiet_header Backends.quiet_header fuel
    [Worker.SinkYes (Backends.source_buffer 11 101)] Backends.start = None.
Proof. intros fuel. vm_compute. reflexivity. Qed.


Lemma worker_only_appends_witness :
  exists appended,
    worker_step (Worker.enc Backends.start) (Worker.enc Runs.two_segments_end)
      appended /\
    count_sentinels appended = count_ends Runs.two_segments.
Proof.
  apply (@worker_only_appends 4 unit unit Z
           Backends.direct_encode Backends.direct_write_frame
           Backends.quiet_header Backends.quiet_header
           Runs.two_segments 1%nat Backends.start Runs.two_segments_end).
  vm_compute. reflexivity.
Defined.


(** ** The queue as the encoder uses it *)

Section QueueFacts.

Import Worker.

Lemma purge_walk_chunks : forall (e : GrooveEncoderPrivate) (chunks : list GrooveBuffer),
  purge_walk (audioq_purge e) (map Some chunks)
  = Some (map Some (filter (fun c => negb (b_item c =? purge_item e)) chunks),
          map Some (filter (fun c => b_item c =? purge_item e) chunks)).
Proof.
  intros e. induction chunks as [|c chunks IH]; [reflexivity|].
  simpl. rewrite IH. simpl.
  destruct (b_item c =? purge_item e); reflexivity.
Qed.

Lemma filter_filter_item : forall (a b : Z) (chunks : list GrooveBuffer),
  a <> b ->
  filter (fun c => b_item c =? b) (filter (fun c => negb (b_item c =? a)) chunks)
  = filter (fun c => b_item c =? b) chunks.
Proof.
  intros a b chunks Hab. induction chunks as [|c chunks IH]; [reflexivity|].
  simpl. destruct (b_item c =? a) eqn:Ea; simpl.
  - destruct (b_item c =? b) eqn:Eb; [lia | exact IH].
  - destruct (b_item c =? b); [f_equal|]; exact IH.
Qed.

(** On a queue that holds chunks and no sentinel, [sink_purge] for item
    [A] removes exactly the chunks whose item is [A] and hands each of
    them, once and in queue order, to cleanup; the chunks of any other
    item [B] stay in their original relative order; the encode head is
    cleared (item null, position -1.0) when it was [A] and is left as it
    was otherwise. *)
Lemma sink_purge_spec :
  forall (e : GrooveEncoderPrivate) (A : Z) (chunks : list GrooveBuffer),
    items (audioq e) = map Some chunks ->
    exists e',
      sink_purge e A = Some e' /\
      items (audioq e')
      = map Some (filter (fun c => negb (b_item c =? A)) chunks) /\
      cleaned (audioq e')
      = cleaned (audioq e) ++ map Some (filter (fun c => b_item c =? A) chunks) /\
      (forall B, B <> A ->
         filter (fun c => b_item c =? B)
           (filter (fun c => negb (b_item c =? A)) chunks)
         = filter (fun c => b_item c =? B) chunks) /\
      (encode_head e = A ->
       encode_head e' = NULL /\ encode_pos e' = minus_one) /\
      (encode_head e <> A ->
       encode_head e' = encode_head e /\ encode_pos e' = encode_pos e).
Proof.
  intros e A chunks Hq.
  unfold sink_purge, groove_queue_purge. simpl.
  rewrite Hq.
  rewrite (purge_walk_chunks (set_purge_item e A) chunks). simpl.
  eexists. split; [reflexivity|].
  destruct (encode_head e =? A) eqn:Eh; simpl.
  - split; [reflexivity|]. split; [reflexivity|]. split.
    + intros B HB. now apply filter_filter_item.
    + split; [intros _; split; reflexivity | intros Hne; lia].
  - split; [reflexivity|]. split; [reflexivity|]. split.
    + intros B HB. now apply filter_filter_item.
    + split; [intros He; lia | intros _; split; reflexivity].
Qed.

(** C10.  [groove_encoder_get_buffer] leaves the null pointer in the
    caller's out-parameter whenever it does not return
    [GROOVE_BUFFER_YES]; the sentinel is the null pointer, and it is
    what the worker puts on the queue at the end of a segment (a segment
    end is undefined only when a callback of the trailer is); the call
    returns [GROOVE_BUFFER_END] exactly when the item it took off the
    queue is null, and a [GROOVE_BUFFER_YES] result carries the non-null
    chunk that was at the head.  The call fails to return only when it
    blocks on an empty queue that was not aborted. *)
Theorem get_buffer_null_discipline :
  forall (e : GrooveEncoderPrivate) (block : bool),
    end_of_q_sentinel = None /\
    (forall (sizeof_int : Z) (Codec Muxer : Type)
            (av_write_trailer : Muxer -> Muxer * list WriteCall * Z)
            (s : State Codec Muxer),
       match end_of_segment sizeof_int av_write_trailer s with
       | Some s' =>
           exists post, pending_items s' = pending_items s ++ None :: map Some post
       | None => ~ defined_calls (snd (fst (av_write_trailer (muxer s))))
       end) /\
    match groove_encoder_get_buffer e block with
    | None =>
        block = true /\ items (audioq e) = [] /\
        abort_request (audioq e) = false
    | Some (e', res, out) =>
        (res <> GROOVE_BUFFER_YES -> out = None) /\
        (res = GROOVE_BUFFER_YES ->
         exists b rest, out = Some b /\ items (audioq e) = Some b :: rest /\
                        items (audioq e') = rest) /\
        (res = GROOVE_BUFFER_END <->
         exists rest, items (audioq e) = end_of_q_sentinel :: rest) /\
        (res = GROOVE_BUFFER_NO <-> items (audioq e) = [])
    end.
Proof.
  intros e block. split; [reflexivity|]. split.
  { intros sizeof_int Codec Muxer av_write_trailer s.
    destruct (end_of_segment sizeof_int av_write_trailer s) as [s'|] eqn:E.
    - destruct (@end_of_segment_some sizeof_int Codec Muxer av_write_trailer _ _ E)
        as (_ & Hw & _).
      eexists. exact (worker_step_items Hw).
    - intros Hd.
      destruct (@end_of_segment_total sizeof_int Codec Muxer av_write_trailer s Hd)
        as (s' & E').
      rewrite E in E'. discriminate E'. }
  unfold groove_encoder_get_buffer, groove_queue_get.
  destruct (items (audioq e)) as [|[b|] rest] eqn:Hq.
  - destruct (abort_request (audioq e)) eqn:Ha; simpl.
    + repeat split; try congruence; try discriminate.
      intros (rest & Hr); discriminate.
    + destruct block; simpl.
      * repeat split.
      * repeat split; try congruence; try discriminate.
        intros (rest & Hr); discriminate.
  - simpl. split; [congruence|]. split.
    + intros _. exists b, rest. repeat split.
    + split; split; try discriminate.
      intros (rest' & Hr). unfold end_of_q_sentinel in Hr. discriminate.
  - simpl. split; [reflexivity|]. split; [discriminate|].
    split; split; try discriminate.
    + intros _. exists rest. reflexivity.
    + reflexivity.
Qed.

End QueueFacts.

Lemma sink_purge_spec_witness :
  exists e',
    Worker.sink_purge
      (set_encode_head
         (set_audioq (Worker.enc Backends.start)
            (mkQueue (map Some [Backends.source_buffer 11 101;
                                Backends.source_buffer 12 102;
                                Backends.source_buffer 11 103]) false []))
         11)
      11 = Some e' /\
    items (audioq e') = [Some (Backends.source_buffer 12 102)] /\
    cleaned (audioq e')
    = [Some (Backends.source_buffer 11 101); Some (Backends.source_buffer 11 103)] /\
    encode_head e' = NULL /\ encode_pos e' = minus_one.
Proof.
  destruct (@sink_purge_spec
              (set_encode_head
                 (set_audioq (Worker.enc Backends.start)
                    (mkQueue (map Some [Backends.source_buffer 11 101;
                                        Backends.source_buffer 12 102;
                                        Backends.source_buffer 11 103]) false []))
                 11)
              11
              [Backends.source_buffer 11 101; Backends.source_buffer 12 102;
               Backends.source_buffer 11 103]
              eq_refl)
    as (e' & Hrun & Hitems & Hcleaned & _ & Hhead & _).
  exists e'. split; [exact Hrun|]. split; [exact Hitems|].
  split; [exact Hcleaned|]. exact (Hhead eq_refl).
Defined.

(** C8 on the code.  The sink delivers a buffer of item 11, the end of
    the stream and a buffer of item 12; the worker leaves on the queue a
    chunk of item 11, the sentinel and a chunk of item 12.  On that queue
    [sink_purge] is undefined, for item 11 as for item 12:
    [groove_queue_purge] hands every queued pointer to [audioq_purge],
    which reads [buffer->item] through it, and the sentinel is the null
    pointer.  The encode head is on item 12, so that both cases of the
    claim, the head on the purged item and the head elsewhere, are
    undefined on this queue. *)
Theorem sink_purge_undefined_on_worker_queue :
  Worker.encode_thread 4 Backends.direct_encode Backends.direct_write_frame
    Backends.quiet_header Backends.quiet_header 1
    [Worker.SinkYes (Backends.source_buffer 11 101); Worker.SinkEnd;
     Worker.SinkYes (Backends.source_buffer 12 103)]
    Backends.start = Some Runs.open_segment_end /\
  map (option_map b_item) (pending_items Runs.open_segment_end)
  = [Some 11; None; Some 12] /\
  encode_head (Worker.enc Runs.open_segment_end) = 12 /\
  Worker.audioq_purge (Worker.enc Runs.open_segment_end) end_of_q_sentinel = None /\
  Worker.sink_purge (Worker.enc Runs.open_segment_end) 11 = None /\
  Worker.sink_purge (Worker.enc Runs.open_segment_end) 12 = None.
Proof.
  split; [vm_compute; reflexivity|].
  split; [vm_compute; reflexivity|].
  split; [vm_compute; reflexivity|].
  split; [reflexivity|].
  split; vm_compute; reflexivity.
Qed.

(** ** The chunk producer *)

Lemma encoder_write_packet_chunk :
  forall (sizeof_int : Z) (e : GrooveEncoderPrivate) (c : Worker.WriteCall),
    Worker.alloc_buffer_ok c = true -> Worker.alloc_private_ok c = true ->
    Worker.create_mutex_ok c = true -> Worker.alloc_data_ok c = true ->
    exists chunk,
      Worker.encoder_write_packet sizeof_int e c
      = Some (set_audioq e (groove_queue_put (audioq e) (Some chunk)), [], 0) /\
      b_size chunk = Worker.buf_size c /\
      b_data chunk = firstn (Z.to_nat (Worker.buf_size c)) (Worker.buf c) /\
      b_data_alloc chunk = sizeof_int /\
      carries e chunk.
Proof.
  intros sizeof_int e c Hb Hp Hm Hd.
  unfold Worker.encoder_write_packet. rewrite Hb, Hp, Hm, Hd. simpl.
  eexists. split; [reflexivity|]. repeat split.
Qed.

(** C2 on the code.  With a four-byte [int], the callback invoked with
    eight bytes enqueues a chunk whose size field is 8 and into which all
    8 bytes were copied, but whose payload buffer was allocated with 4
    bytes. *)
Theorem encoder_write_packet_undersized_payload :
  exists chunk,
    Worker.encoder_write_packet 4 (Worker.enc Backends.start) Backends.page_call
    = Some (set_audioq (Worker.enc Backends.start)
              (groove_queue_put (audioq (Worker.enc Backends.start)) (Some chunk)),
            [], 0) /\
    b_size chunk = Worker.buf_size Backends.page_call /\
    b_data chunk = Worker.buf Backends.page_call /\
    length (b_data chunk) = 8%nat /\
    b_data_alloc chunk = 4 /\
    b_data_alloc chunk < Worker.buf_size Backends.page_call.
Proof.
  eexists. split; [reflexivity|]. simpl. repeat split.
Qed.


(** ** Attach and detach *)

Section Lifecycle.

Import Session.

Lemma attach_error_injective : forall s1 s2,
  attach_error s1 = attach_error s2 -> s1 = s2.
Proof.
  intros s1 s2 H. destruct s1, s2; try reflexivity; discriminate H.
Qed.

Lemma detach_returns_success : forall encoder w,
  snd (groove_encoder_detach encoder w) = 0.
Proof.
  intros encoder w. unfold groove_encoder_detach.
  destruct (negb (codec_ctx _ =? NULL)); reflexivity.
Qed.

Lemma obtain_null : forall r h w, (h =? NULL) = true -> obtain r h w = w.
Proof. intros r h w E. unfold obtain. now rewrite E. Qed.

Lemma obtain_live : forall r h w,
  (h =? NULL) = false ->
  obtain r h w
  = mkWorld (live w ++ [r]) (invalid w) (open_codecs w) (sink_attached w) (log w).
Proof. intros r h w E. unfold obtain. now rewrite E. Qed.

(** Runs detach on a literal state: innermost operation first, each
    test settled before the next operation is opened. *)
Ltac settle :=
  repeat first
    [ rewrite Z.eqb_refl
    | match goal with
      | H : (?a =? ?b) = _ |- context [?a =? ?b] => rewrite H
      | H : (?a <? ?b) = _ |- context [?a <? ?b] => rewrite H
      end
    | progress cbn
    | progress unfold open_codec, set_sink_attached
    | progress unfold groove_sink_detach
    | progress unfold SDL_WaitThread
    | progress unfold avcodec_close
    | progress unfold release, is_live
    | progress unfold avformat_free_context
    | progress unfold av_log ].

Ltac rollback :=
  unfold attach_fail; eexists _, _, _; split; [reflexivity|];
  split;
  [ | split; [reflexivity | split; [eexists _, _; split; reflexivity | ]]];
  unfold groove_encoder_detach; settle;
  [ reflexivity
  | unfold torn_down; cbn; repeat split; try (apply Z.eqb_eq; assumption) ].

(** C9.  Starting from a session that is not attached, whatever libav,
    the sink and SDL answer: when a step of attach fails (format context
    allocation, encoder lookup, stream creation, codec context
    allocation, codec open, sink attach, thread creation), attach
    returns -1, the state it leaves is the one [groove_encoder_detach]
    produced from the partial session followed by the error message of
    that step in the log, nothing of the session is alive and nothing
    was released twice; the messages of different steps are different.
    When no step fails attach returns 0 and the session is started with
    the negotiated format. *)
Theorem attach_outcome :
  forall (nb_channels bytes_per_sample packed_sample_fmt : Z -> Z) (NONE : Z)
         (env : AttachEnv) (encoder : GrooveEncoder) (playlist : Z) (w : World),
    unattached encoder w ->
    (forall codec, ret_avcodec_find_encoder env = Some codec ->
       Negotiator.negotiate nb_channels bytes_per_sample packed_sample_fmt NONE
         codec (target_audio_format encoder) <> None) ->
    (forall s1 s2, attach_error s1 = attach_error s2 -> s1 = s2) /\
    exists encoder' w' ret,
      groove_encoder_attach nb_channels bytes_per_sample packed_sample_fmt NONE
        env encoder playlist w = Some (encoder', w', ret) /\
      invalid w' = [] /\
      match first_failure env with
      | Some step =>
          ret = -1 /\
          (exists partial_encoder partial_w,
             encoder' = fst (fst (groove_encoder_detach partial_encoder partial_w)) /\
             w' = av_log (LogError (attach_error step))
                    (snd (fst (groove_encoder_detach partial_encoder partial_w)))) /\
          torn_down encoder' w'
      | None =>
          ret = 0 /\
          started env nb_channels playlist encoder' w' /\
          (exists codec,
             ret_avcodec_find_encoder env = Some codec /\
             Negotiator.negotiate nb_channels bytes_per_sample packed_sample_fmt
               NONE codec (target_audio_format encoder)
             = Some (actual_audio_format encoder'))
      end.
Proof.
  intros nb bps packed NONE env encoder playlist w Hun Hneg.
  split; [exact attach_error_injective|].
  destruct encoder as [tgt act br pl e].
  destruct e as [q saf cc fc st pi eh ep ef tid sh].
  destruct w as [lv inv oc sa lg].
  destruct env as [rf rc rs rcc ro rsa rt].
  unfold unattached in Hun. simpl in Hun.
  destruct Hun as (-> & -> & -> & -> & -> & ->).
  simpl in Hneg.
  unfold groove_encoder_attach, first_failure.
  cbn -[attach_fail groove_encoder_detach obtain].
  destruct (rf =? NULL) eqn:Ef;
    [rewrite (@obtain_null _ _ _ Ef); rollback | rewrite (@obtain_live _ _ _ Ef)].
  cbn -[attach_fail groove_encoder_detach obtain].
  destruct rc as [codec|]; [|rollback].
  destruct (rs =? NULL) eqn:Es;
    [rewrite (@obtain_null _ _ _ Es); rollback | rewrite (@obtain_live _ _ _ Es)].
  cbn -[attach_fail groove_encoder_detach obtain].
  destruct (Negotiator.negotiate nb bps packed NONE codec tgt) as [actual|] eqn:En;
    [|exfalso; exact (Hneg codec eq_refl En)].
  cbn -[attach_fail groove_encoder_detach obtain av_log].
  unfold av_log at 1.
  destruct (rcc =? NULL) eqn:Ec;
    [rewrite (@obtain_null _ _ _ Ec); rollback | rewrite (@obtain_live _ _ _ Ec)].
  cbn -[attach_fail groove_encoder_detach obtain].
  destruct (ro <? 0) eqn:Eo; [rollback|].
  destruct (rsa <? 0) eqn:Esa; [rollback|].
  destruct (rt =? NULL) eqn:Et;
    [rewrite (@obtain_null _ _ _ Et); rollback | rewrite (@obtain_live _ _ _ Et)].
  eexists _, _, _. split; [reflexivity|].
  settle. split; [reflexivity|]. split; [reflexivity|]. split.
  - unfold started. cbn. repeat split.
  - exists codec. split; [reflexivity | exact En].
Qed.

Lemma attach_outcome_witness :
  (forall s1 s2, attach_error s1 = attach_error s2 -> s1 = s2) /\
  exists encoder' w' ret,
    groove_encoder_attach Libav.nb_channels Libav.bytes_per_sample
      Libav.packed_sample_fmt Libav.SAMPLE_FMT_NONE failing_open_env
      (created_encoder Libav.SAMPLE_FMT_S16 Libav.CH_LAYOUT_STEREO) 77 empty_world
    = Some (encoder', w', ret) /\
    invalid w' = [] /\
    ret = -1 /\
    (exists partial_encoder partial_w,
       encoder' = fst (fst (groove_encoder_detach partial_encoder partial_w)) /\
       w' = av_log (LogError (attach_error StepCodecOpen))
              (snd (fst (groove_encoder_detach partial_encoder partial_w)))) /\
    torn_down encoder' w'.
Proof.
  apply (@attach_outcome Libav.nb_channels Libav.bytes_per_sample
           Libav.packed_sample_fmt Libav.SAMPLE_FMT_NONE failing_open_env
           (created_encoder Libav.SAMPLE_FMT_S16 Libav.CH_LAYOUT_STEREO) 77
           empty_world).
  - repeat split.
  - intros codec Hc. injection Hc as <-. discriminate.
Defined.

Lemma existsb_after_filter : forall (f g : Resource -> bool) l,
  existsb f (filter g (filter (fun x => negb (f x)) l)) = false.
Proof.
  intros f g. induction l as [|x l IH]; [reflexivity|].
  simpl. destruct (f x) eqn:Ef; simpl; [exact IH|].
  destruct (g x); simpl; [rewrite Ef|]; exact IH.
Qed.

Lemma existsb_filter_false : forall (f g : Resource -> bool) l,
  existsb f l = false -> existsb f (filter g l) = false.
Proof.
  intros f g. induction l as [|x l IH]; [reflexivity|].
  simpl. intros H. apply orb_false_iff in H. destruct H as [Hx Hl].
  destruct (g x); simpl; [rewrite Hx|]; auto.
Qed.

Lemma format_context_dead_after_free : forall h w,
  is_live (FormatContext h) (avformat_free_context h w) = false.
Proof.
  intros h w. unfold avformat_free_context, release, is_live.
  destruct (existsb (Resource_eqb (FormatContext h)) (live w)) eqn:E; simpl.
  - apply existsb_after_filter.
  - apply existsb_filter_false. exact E.
Qed.

(** Detach keeps the handle of the format context in the struct and
    leaves the context itself dead. *)
Lemma detach_keeps_fmt_ctx : forall encoder w,
  let r := groove_encoder_detach encoder w in
  fmt_ctx (internals (fst (fst r))) = fmt_ctx (internals encoder) /\
  codec_ctx (internals (fst (fst r))) = NULL /\
  thread_id (internals (fst (fst r))) = NULL /\
  (fmt_ctx (internals encoder) <> NULL ->
   is_live (FormatContext (fmt_ctx (internals encoder))) (snd (fst r)) = false).
Proof.
  intros encoder w. unfold groove_encoder_detach. cbn.
  destruct (codec_ctx (internals encoder) =? NULL) eqn:Ec; cbn;
    destruct (stream (internals encoder) =? NULL) eqn:Es; cbn;
    destruct (fmt_ctx (internals encoder) =? NULL) eqn:Ef; cbn;
    repeat split;
    try (apply Z.eqb_eq; assumption);
    try (intros Hne; exfalso; apply Hne; apply Z.eqb_eq; assumption);
    try (intros _; apply format_context_dead_after_free).
Qed.

(** Whatever the session, a detach that follows a detach frees the
    format context again when the struct holds one. *)
Lemma second_detach_frees_again : forall encoder w,
  fmt_ctx (internals encoder) <> NULL ->
  let r1 := groove_encoder_detach encoder w in
  let r2 := groove_encoder_detach (fst (fst r1)) (snd (fst r1)) in
  invalid (snd (fst r2))
  = invalid (snd (fst r1)) ++ [FormatContext (fmt_ctx (internals encoder))].
Proof.
  intros encoder w Hne r1 r2.
  destruct (detach_keeps_fmt_ctx encoder w) as (Hf & Hc & Ht & Hdead).
  fold r1 in Hf, Hc, Ht, Hdead. specialize (Hdead Hne).
  subst r2. unfold groove_encoder_detach at 1. cbn.
  rewrite Hc, Ht. cbn.
  destruct (stream (internals (fst (fst r1))) =? NULL); cbn; rewrite Hf;
    (destruct (fmt_ctx (internals encoder) =? NULL) eqn:Ef;
     [exfalso; apply Hne; apply Z.eqb_eq; exact Ef|]); cbn;
    unfold avformat_free_context, release; cbn;
    unfold is_live in *; cbn in *; rewrite Hdead; reflexivity.
Qed.

(** C1 on the code.  A created encoder is attached with every step
    succeeding and then detached twice.  Both calls return 0 and the
    second leaves the encoder struct as the first left it, but the
    first call frees the format context 1000 and the second call,
    finding the handle still in the struct, frees it again. *)
Theorem detach_twice_frees_format_context_twice :
  exists encoder1 w1 encoder2 w2 encoder3 w3,
    groove_encoder_attach Libav.nb_channels Libav.bytes_per_sample
      Libav.packed_sample_fmt Libav.SAMPLE_FMT_NONE working_env
      (created_encoder Libav.SAMPLE_FMT_S16 Libav.CH_LAYOUT_STEREO) 77 empty_world
    = Some (encoder1, w1, 0) /\
    live w1 = [FormatContext 1000; Stream 1001 1000; CodecContext 1002; Thread 1003] /\
    groove_encoder_detach encoder1 w1 = (encoder2, w2, 0) /\
    live w2 = [] /\ invalid w2 = [] /\
    fmt_ctx (internals encoder2) = 1000 /\
    groove_encoder_detach encoder2 w2 = (encoder3, w3, 0) /\
    encoder3 = encoder2 /\
    invalid w3 = [FormatContext 1000].
Proof.
  eexists _, _, _, _, _, _.
  split; [vm_compute; reflexivity|].
  split; [reflexivity|].
  split; [vm_compute; reflexivity|].
  repeat split.
Qed.

(** A detach on a session that was never attached frees nothing. *)
Lemma detach_never_attached :
  let r := groove_encoder_detach
             (created_encoder Libav.SAMPLE_FMT_S16 Libav.CH_LAYOUT_STEREO)
             empty_world in
  snd r = 0 /\ invalid (snd (fst r)) = [] /\ live (snd (fst r)) = [].
Proof.
  repeat split.
Qed.

End Lifecycle.

(** * Further properties *)

(** ** Negotiator: edges and composition *)

Section NegotiatorEdges.

Import Negotiator.

(** X1.  [abs_diff a b] is the absolute difference when [a - b] lies
    between [-INT_MAX] and [INT_MAX], and is undefined (signed overflow in
    the subtraction or in the negation) otherwise. *)
Theorem abs_diff_range : forall a b,
  abs_diff a b
  = if (- INT_MAX <=? a - b) && (a - b <=? INT_MAX)
    then Some (Z.abs (a - b)) else None.
Proof.
  intros a b. unfold abs_diff, int_sub, int_neg, in_int, INT_MIN, INT_MAX.
  destruct ((- 2 ^ 31 <=? a - b) && (a - b <=? 2 ^ 31 - 1)) eqn:E1.
  - destruct (a - b >=? 0) eqn:E2.
    + replace ((- (2 ^ 31 - 1) <=? a - b) && (a - b <=? 2 ^ 31 - 1)) with true by lia.
      f_equal. lia.
    + destruct ((- 2 ^ 31 <=? - (a - b)) && (- (a - b) <=? 2 ^ 31 - 1)) eqn:E3.
      * replace ((- (2 ^ 31 - 1) <=? a - b) && (a - b <=? 2 ^ 31 - 1)) with true by lia.
        f_equal. lia.
      * replace ((- (2 ^ 31 - 1) <=? a - b) && (a - b <=? 2 ^ 31 - 1)) with false by lia.
        reflexivity.
  - replace ((- (2 ^ 31 - 1) <=? a - b) && (a - b <=? 2 ^ 31 - 1)) with false by lia.
    reflexivity.
Qed.

(** X2.  On a NONE-terminated array [codec_supports_fmt] answers 1
    exactly for the formats listed before the terminator; in particular
    it answers 0 for NONE itself. *)
Theorem codec_supports_fmt_membership :
  forall (NONE : Z) codec fmts rest fmt,
    sample_fmts codec = Some (fmts ++ NONE :: rest) ->
    Forall (fun f => f <> NONE) fmts ->
    exists b,
      codec_supports_fmt NONE codec fmt = Some b /\
      (b = true <-> In fmt fmts) /\
      (fmt = NONE -> b = false).
Proof.
  intros NONE codec fmts rest fmt Hc Hf.
  unfold codec_supports_fmt. rewrite Hc.
  destruct (@supports_fmt_loop_run NONE fmts rest fmt Hf) as (b & Hrun & Hb).
  exists b. split; [exact Hrun|]. split; [exact Hb|].
  intros ->. destruct b; [|reflexivity].
  exfalso. assert (Hin : In NONE fmts) by (apply Hb; reflexivity).
  rewrite Forall_forall in Hf. exact (Hf _ Hin eq_refl).
Qed.

Lemma codec_supports_fmt_membership_witness :
  exists b,
    codec_supports_fmt Libav.SAMPLE_FMT_NONE constrained_codec Libav.SAMPLE_FMT_FLT
    = Some b /\
    (b = true <->
     In Libav.SAMPLE_FMT_FLT
       [Libav.SAMPLE_FMT_S16P; Libav.SAMPLE_FMT_FLTP; Libav.SAMPLE_FMT_FLT]) /\
    (Libav.SAMPLE_FMT_FLT = Libav.SAMPLE_FMT_NONE -> b = false).
Proof.
  apply (@codec_supports_fmt_membership Libav.SAMPLE_FMT_NONE constrained_codec
           [Libav.SAMPLE_FMT_S16P; Libav.SAMPLE_FMT_FLTP; Libav.SAMPLE_FMT_FLT] []
           Libav.SAMPLE_FMT_FLT).
  - reflexivity.
  - repeat constructor; discriminate.
Defined.

(** X3.  Against an array that holds only the terminator every
    negotiator returns the terminator (rate 0, layout 0, format NONE),
    whatever the target: the result is then neither the target nor a
    usable value. *)
Theorem empty_list_returns_terminator :
  forall (nb_channels bytes_per_sample packed_sample_fmt : Z -> Z) (NONE : Z)
         fmts rates layouts rest target,
    closest_supported_sample_rate (mkCodec fmts (Some (0 :: rest)) layouts) target
    = Some 0 /\
    closest_supported_channel_layout nb_channels
      (mkCodec fmts rates (Some (0 :: rest))) target = Some 0 /\
    closest_supported_sample_fmt bytes_per_sample packed_sample_fmt NONE
      (mkCodec (Some (NONE :: rest)) rates layouts) target = Some NONE.
Proof.
  intros nb bps packed NONE fmts rates layouts rest target.
  split; [reflexivity|]. split; [reflexivity|].
  unfold closest_supported_sample_fmt, codec_supports_fmt. simpl.
  rewrite Z.eqb_refl. reflexivity.
Qed.

Lemma sample_rate_loop_rest : forall rates rest1 rest2 target best,
  sample_rate_loop (rates ++ 0 :: rest1) target best
  = sample_rate_loop (rates ++ 0 :: rest2) target best.
Proof.
  induction rates as [|x rates IH]; intros rest1 rest2 target best; [reflexivity|].
  simpl. destruct (x =? 0); [reflexivity|]. destruct (x =? target); [reflexivity|].
  destruct (lazy_or _ _) as [c|]; [apply IH | reflexivity].
Qed.

Lemma channel_layout_loop_rest :
  forall (nb : Z -> Z) layouts rest1 rest2 target tc best bc,
    channel_layout_loop nb (layouts ++ 0 :: rest1) target tc best bc
    = channel_layout_loop nb (layouts ++ 0 :: rest2) target tc best bc.
Proof.
  intros nb. induction layouts as [|x layouts IH];
    intros rest1 rest2 target tc best bc; [reflexivity|].
  simpl. destruct (x =? 0); [reflexivity|]. destruct (x =? target); [reflexivity|].
  destruct (lazy_or _ _) as [[|]|]; [apply IH | apply IH | reflexivity].
Qed.

Lemma supports_fmt_loop_rest : forall (NONE : Z) fmts rest1 rest2 fmt,
  supports_fmt_loop NONE (fmts ++ NONE :: rest1) fmt
  = supports_fmt_loop NONE (fmts ++ NONE :: rest2) fmt.
Proof.
  intros NONE. induction fmts as [|x fmts IH]; intros rest1 rest2 fmt.
  - simpl. rewrite Z.eqb_refl. reflexivity.
  - simpl. destruct (x =? NONE); [reflexivity|].
    destruct (x =? fmt); [reflexivity | apply IH].
Qed.

Lemma sample_fmt_loop_rest :
  forall (bps : Z -> Z) (NONE : Z) fmts rest1 rest2 target ts best bs,
    sample_fmt_loop bps NONE (fmts ++ NONE :: rest1) target ts best bs
    = sample_fmt_loop bps NONE (fmts ++ NONE :: rest2) target ts best bs.
Proof.
  intros bps NONE. induction fmts as [|x fmts IH];
    intros rest1 rest2 target ts best bs.
  - simpl. rewrite Z.eqb_refl. reflexivity.
  - simpl. destruct (x =? NONE); [reflexivity|].
    destruct (x =? target); [reflexivity|].
    destruct (lazy_or _ _) as [[|]|]; [apply IH | apply IH | reflexivity].
Qed.

(** X4.  No negotiator reads past the first terminator: whatever lies in
    memory behind it, the outcome (a value, or undefined) is the same. *)
Theorem negotiators_stop_at_terminator :
  forall (nb_channels bytes_per_sample packed_sample_fmt : Z -> Z) (NONE : Z)
         fmts rates layouts entries rest1 rest2 target,
    closest_supported_sample_rate
      (mkCodec fmts (Some (entries ++ 0 :: rest1)) layouts) target
    = closest_supported_sample_rate
        (mkCodec fmts (Some (entries ++ 0 :: rest2)) layouts) target /\
    closest_supported_channel_layout nb_channels
      (mkCodec fmts rates (Some (entries ++ 0 :: rest1))) target
    = closest_supported_channel_layout nb_channels
        (mkCodec fmts rates (Some (entries ++ 0 :: rest2))) target /\
    closest_supported_sample_fmt bytes_per_sample packed_sample_fmt NONE
      (mkCodec (Some (entries ++ NONE :: rest1)) rates layouts) target
    = closest_supported_sample_fmt bytes_per_sample packed_sample_fmt NONE
        (mkCodec (Some (entries ++ NONE :: rest2)) rates layouts) target.
Proof.
  intros nb bps packed NONE fmts rates layouts entries rest1 rest2 target.
  unfold closest_supported_sample_rate, closest_supported_channel_layout,
    closest_supported_sample_fmt, codec_supports_fmt.
  cbn [supported_samplerates channel_layouts sample_fmts].
  split; [|split].
  - destruct entries as [|x entries]; [reflexivity|].
    change ((x :: entries) ++ 0 :: rest1) with (x :: (entries ++ 0 :: rest1)).
    change ((x :: entries) ++ 0 :: rest2) with (x :: (entries ++ 0 :: rest2)).
    cbv iota.
    exact (sample_rate_loop_rest (x :: entries) rest1 rest2 target x).
  - destruct entries as [|x entries]; [reflexivity|].
    change ((x :: entries) ++ 0 :: rest1) with (x :: (entries ++ 0 :: rest1)).
    change ((x :: entries) ++ 0 :: rest2) with (x :: (entries ++ 0 :: rest2)).
    cbv iota zeta.
    exact (channel_layout_loop_rest nb (x :: entries) rest1 rest2 target _ x _).
  - destruct entries as [|x entries].
    + simpl. rewrite Z.eqb_refl. reflexivity.
    + change ((x :: entries) ++ NONE :: rest1) with (x :: (entries ++ NONE :: rest1)).
      change ((x :: entries) ++ NONE :: rest2) with (x :: (entries ++ NONE :: rest2)).
      cbv iota zeta.
      change (x :: entries ++ NONE :: rest1) with ((x :: entries) ++ NONE :: rest1).
      change (x :: entries ++ NONE :: rest2) with ((x :: entries) ++ NONE :: rest2).
      rewrite (sample_fmt_loop_rest bps NONE (x :: entries) rest1 rest2).
      destruct (sample_fmt_loop bps NONE ((x :: entries) ++ NONE :: rest2) target
                  (bps target) x (bps x)) as [[t|b]|]; try reflexivity.
      rewrite (supports_fmt_loop_rest NONE (x :: entries) rest1 rest2).
      reflexivity.
Qed.

End NegotiatorEdges.

Section NegotiateTwice.

Import Negotiator.

Lemma rate_axis_stable : forall codec target,
  supported_samplerates codec = None \/
  (exists rates, listed 0 (fun r => 0 < r <= INT_MAX)
                   (supported_samplerates codec) rates) ->
  0 < target <= INT_MAX ->
  exists r,
    closest_supported_sample_rate codec target = Some r /\
    0 < r <= INT_MAX /\
    closest_supported_sample_rate codec r = Some r.
Proof.
  intros codec target [Hnull | (rates & rest & Hc & Hne & Hl)] Ht.
  - exists target. unfold closest_supported_sample_rate. rewrite Hnull. auto.
  - assert (Hl' : Forall (fun r => r <> 0 /\ is_int r) rates).
    { eapply Forall_impl; [|exact Hl]. unfold is_int, INT_MIN, INT_MAX.
      intros a [Ha Hr]. split; [exact Ha | lia]. }
    assert (Hrun : forall t, 0 < t <= INT_MAX ->
              exists r, closest_supported_sample_rate codec t = Some r /\
                        In r rates /\ (In t rates -> r = t)).
    { intros t Ht'. unfold closest_supported_sample_rate. rewrite Hc.
      destruct rates as [|first rates']; [congruence|].
      change ((first :: rates') ++ 0 :: rest) with (first :: (rates' ++ 0 :: rest)).
      cbv iota.
      change (first :: rates' ++ 0 :: rest) with ((first :: rates') ++ 0 :: rest).
      assert (Hfi : is_int first) by (inversion Hl' as [|? ? [? ?] ?]; assumption).
      destruct (@sample_rate_loop_run (first :: rates') rest t [first] first
                  Ht' Hl' Hfi (biased_best_single (fun z => z) t first))
        as (r & Hr & Hres).
      exists r. split; [exact Hr|].
      destruct Hres as [[Hin ->] | [Hnin (Hin & _)]].
      - split; [assumption | reflexivity].
      - split; [|intro; contradiction].
        apply in_app_or in Hin. destruct Hin as [[<- | []] | Hin];
          [left; reflexivity | assumption]. }
    destruct (Hrun target Ht) as (r & Hr & Hin & _).
    assert (Hrpos : 0 < r <= INT_MAX).
    { rewrite Forall_forall in Hl. apply (Hl r Hin). }
    exists r. split; [exact Hr|]. split; [exact Hrpos|].
    destruct (Hrun r Hrpos) as (r' & Hr' & _ & Hexact).
    rewrite Hr'. f_equal. exact (Hexact Hin).
Qed.

Lemma layout_axis_stable : forall (nb : Z -> Z) codec target,
  channel_layouts codec = None \/
  (exists layouts, listed 0 (small_key nb) (channel_layouts codec) layouts) ->
  small_key nb target ->
  exists r,
    closest_supported_channel_layout nb codec target = Some r /\
    small_key nb r /\
    closest_supported_channel_layout nb codec r = Some r.
Proof.
  intros nb codec target [Hnull | (layouts & rest & Hc & Hne & Hl)] Ht.
  - exists target. unfold closest_supported_channel_layout. rewrite Hnull. auto.
  - assert (Hrun : forall t, small_key nb t ->
              exists r, closest_supported_channel_layout nb codec t = Some r /\
                        In r layouts /\ (In t layouts -> r = t)).
    { intros t Ht'. unfold closest_supported_channel_layout. rewrite Hc.
      destruct layouts as [|first layouts']; [congruence|].
      change ((first :: layouts') ++ 0 :: rest)
        with (first :: (layouts' ++ 0 :: rest)).
      cbv iota zeta.
      change (first :: layouts' ++ 0 :: rest)
        with ((first :: layouts') ++ 0 :: rest).
      assert (Hfk : small_key nb first)
        by (inversion Hl as [|? ? [? ?] ?]; assumption).
      destruct (@channel_layout_loop_run nb (first :: layouts') rest t
                  [first] first Ht' Hl Hfk
                  (biased_best_single nb (nb t) first))
        as (r & Hr & Hres).
      exists r. split; [exact Hr|].
      destruct Hres as [[Hin ->] | [Hnin (Hin & _)]].
      - split; [assumption | reflexivity].
      - split; [|intro; contradiction].
        apply in_app_or in Hin. destruct Hin as [[<- | []] | Hin];
          [left; reflexivity | assumption]. }
    destruct (Hrun target Ht) as (r & Hr & Hin & _).
    assert (Hrk : small_key nb r).
    { rewrite Forall_forall in Hl. apply (Hl r Hin). }
    exists r. split; [exact Hr|]. split; [exact Hrk|].
    destruct (Hrun r Hrk) as (r' & Hr' & _ & Hexact).
    rewrite Hr'. f_equal. exact (Hexact Hin).
Qed.

Lemma format_axis_stable : forall (bps packed : Z -> Z) (NONE : Z) codec target,
  sample_fmts codec = None \/
  (exists fmts, listed NONE (small_key bps) (sample_fmts codec) fmts) ->
  small_key bps target ->
  exists r,
    closest_supported_sample_fmt bps packed NONE codec target = Some r /\
    small_key bps r /\
    closest_supported_sample_fmt bps packed NONE codec r = Some r.
Proof.
  intros bps packed NONE codec target [Hnull | (fmts & rest & Hc & Hne & Hl)] Ht.
  - exists target. unfold closest_supported_sample_fmt. rewrite Hnull. auto.
  - assert (Hnn : Forall (fun f => f <> NONE) fmts).
    { eapply Forall_impl; [|exact Hl]. intros a [Ha _]. exact Ha. }
    assert (Hrun : forall t, small_key bps t ->
              exists r, closest_supported_sample_fmt bps packed NONE codec t = Some r /\
                        In r fmts /\ (In t fmts -> r = t)).
    { intros t Ht'. unfold closest_supported_sample_fmt, codec_supports_fmt.
      rewrite Hc.
      destruct fmts as [|first fmts']; [congruence|].
      change ((first :: fmts') ++ NONE :: rest)
        with (first :: (fmts' ++ NONE :: rest)).
      cbv iota zeta.
      change (first :: fmts' ++ NONE :: rest)
        with ((first :: fmts') ++ NONE :: rest).
      assert (Hfk : small_key bps first)
        by (inversion Hl as [|? ? [? ?] ?]; assumption).
      destruct (@sample_fmt_loop_run bps NONE (first :: fmts') rest t
                  [first] first Ht' Hl Hfk
                  (biased_best_single bps (bps t) first))
        as (r & Hr & Hres).
      rewrite Hr.
      destruct Hres as [[Hin ->] | [Hnin (b & -> & (Hin & _))]].
      - exists t. split; [reflexivity|]. split; [assumption | reflexivity].
      - assert (Hb : In b (first :: fmts')).
        { apply in_app_or in Hin. destruct Hin as [[<- | []] | Hin];
            [left; reflexivity | assumption]. }
        destruct (@supports_fmt_loop_run NONE (first :: fmts') rest (packed b) Hnn)
          as (s & Hs & Hsin).
        rewrite Hs. exists (if s then packed b else b).
        split; [reflexivity|]. split; [|intro; contradiction].
        destruct s; [apply Hsin; reflexivity | exact Hb]. }
    destruct (Hrun target Ht) as (r & Hr & Hin & _).
    assert (Hrk : small_key bps r).
    { rewrite Forall_forall in Hl. apply (Hl r Hin). }
    exists r. split; [exact Hr|]. split; [exact Hrk|].
    destruct (Hrun r Hrk) as (r' & Hr' & _ & Hexact).
    rewrite Hr'. f_equal. exact (Hexact Hin).
Qed.

(** X5.  Negotiating twice changes nothing: when each capability array
    is null or a well-formed non-empty list, the format negotiated for a
    target is defined, and negotiating for that format returns it
    unchanged. *)
Theorem negotiate_idempotent :
  forall (nb_channels bytes_per_sample packed_sample_fmt : Z -> Z) (NONE : Z)
         codec target,
    (sample_fmts codec = None \/
     exists fmts, listed NONE (small_key bytes_per_sample) (sample_fmts codec) fmts) ->
    (supported_samplerates codec = None \/
     exists rates, listed 0 (fun r => 0 < r <= INT_MAX)
                     (supported_samplerates codec) rates) ->
    (channel_layouts codec = None \/
     exists layouts, listed 0 (small_key nb_channels) (channel_layouts codec) layouts) ->
    small_key bytes_per_sample (sample_fmt target) ->
    0 < sample_rate target <= INT_MAX ->
    small_key nb_channels (channel_layout target) ->
    exists actual,
      negotiate nb_channels bytes_per_sample packed_sample_fmt NONE codec target
      = Some actual /\
      negotiate nb_channels bytes_per_sample packed_sample_fmt NONE codec actual
      = Some actual.
Proof.
  intros nb bps packed NONE codec target Hf Hr Hl Htf Htr Htl.
  destruct (@format_axis_stable bps packed NONE codec (sample_fmt target) Hf Htf)
    as (f & Hf1 & _ & Hf2).
  destruct (@rate_axis_stable codec (sample_rate target) Hr Htr)
    as (r & Hr1 & _ & Hr2).
  destruct (@layout_axis_stable nb codec (channel_layout target) Hl Htl)
    as (l & Hl1 & _ & Hl2).
  exists (mkFormat r l f). unfold negotiate.
  rewrite Hf1, Hr1, Hl1. split; [reflexivity|].
  cbn [sample_fmt sample_rate channel_layout].
  rewrite Hf2, Hr2, Hl2. reflexivity.
Qed.

Lemma negotiate_idempotent_witness :
  exists actual,
    negotiate Libav.nb_channels Libav.bytes_per_sample Libav.packed_sample_fmt
      Libav.SAMPLE_FMT_NONE constrained_codec
      (mkFormat 40000 Libav.CH_LAYOUT_STEREO Libav.SAMPLE_FMT_S32) = Some actual /\
    negotiate Libav.nb_channels Libav.bytes_per_sample Libav.packed_sample_fmt
      Libav.SAMPLE_FMT_NONE constrained_codec actual = Some actual.
Proof.
  apply (@negotiate_idempotent Libav.nb_channels Libav.bytes_per_sample
           Libav.packed_sample_fmt Libav.SAMPLE_FMT_NONE constrained_codec
           (mkFormat 40000 Libav.CH_LAYOUT_STEREO Libav.SAMPLE_FMT_S32)).
  - right. exists [Libav.SAMPLE_FMT_S16P; Libav.SAMPLE_FMT_FLTP; Libav.SAMPLE_FMT_FLT].
    exists []. split; [reflexivity|]. split; [discriminate|].
    unfold small_key. repeat constructor; try discriminate; vm_compute; discriminate.
  - right. exists [44100; 48000; 32000]. exists [].
    split; [reflexivity|]. split; [discriminate|].
    unfold INT_MAX. repeat constructor; try discriminate; lia.
  - right. exists [Libav.CH_LAYOUT_MONO; Libav.CH_LAYOUT_5POINT1]. exists [].
    split; [reflexivity|]. split; [discriminate|].
    unfold small_key. repeat constructor; try discriminate; vm_compute; discriminate.
  - unfold small_key. split; vm_compute; discriminate.
  - unfold INT_MAX. simpl. lia.
  - unfold small_key. split; vm_compute; discriminate.
Defined.

End NegotiateTwice.

(** ** The sink callbacks and the reader *)

Section CallbackFacts.

Import Worker.

Lemma purge_walk_sentinel : forall (e : GrooveEncoderPrivate) l,
  In end_of_q_sentinel l -> purge_walk (audioq_purge e) l = None.
Proof.
  intros e. induction l as [|x l IH]; intros Hin; [destruct Hin|].
  simpl. destruct x as [b|]; simpl.
  - destruct Hin as [Hx | Hin]; [discriminate|].
    rewrite (IH Hin). reflexivity.
  - reflexivity.
Qed.

(** X11.  While the sentinel waits in the queue, [sink_purge] is
    undefined for every item: [audioq_purge] reads the [item] field
    through each queued pointer, and the sentinel is the null pointer. *)
Theorem sink_purge_undefined_on_sentinel :
  forall (e : GrooveEncoderPrivate) (item : Z),
    In end_of_q_sentinel (items (audioq e)) ->
    sink_purge e item = None.
Proof.
  intros e item Hin. unfold sink_purge, groove_queue_purge. simpl.
  rewrite (purge_walk_sentinel (set_purge_item e item) _ Hin). reflexivity.
Qed.

Lemma sink_purge_undefined_on_sentinel_witness :
  sink_purge (enc Runs.two_segments_end) 11 = None.
Proof.
  apply sink_purge_undefined_on_sentinel. vm_compute. right. right. left. reflexivity.
Defined.

Lemma purge_walk_defined : forall (e : GrooveEncoderPrivate) l kr,
  purge_walk (audioq_purge e) l = Some kr ->
  exists chunks, l = map Some chunks.
Proof.
  intros e. induction l as [|x l IH]; intros kr Hrun.
  - exists []. reflexivity.
  - simpl in Hrun. destruct x as [b|]; [|discriminate]. simpl in Hrun.
    destruct (purge_walk (audioq_purge e) l) as [kr'|] eqn:E; [|discriminate].
    destruct (IH _ eq_refl) as (chunks & ->).
    exists (b :: chunks). reflexivity.
Qed.

Lemma filter_negb_twice : forall (A : Z) (chunks : list GrooveBuffer),
  filter (fun c => negb (b_item c =? A))
    (filter (fun c => negb (b_item c =? A)) chunks)
  = filter (fun c => negb (b_item c =? A)) chunks.
Proof.
  intros A. induction chunks as [|c chunks IH]; [reflexivity|].
  simpl. destruct (b_item c =? A) eqn:E; simpl; [exact IH|].
  rewrite E. simpl. f_equal. exact IH.
Qed.

Lemma filter_after_negb : forall (A : Z) (chunks : list GrooveBuffer),
  filter (fun c => b_item c =? A)
    (filter (fun c => negb (b_item c =? A)) chunks) = [].
Proof.
  intros A. induction chunks as [|c chunks IH]; [reflexivity|].
  simpl. destruct (b_item c =? A) eqn:E; simpl; [exact IH|].
  rewrite E. exact IH.
Qed.

(** Normalises a nest of field updates, innermost first. *)
Ltac norm_private :=
  cbv [set_audioq set_sink_audio_format set_codec_ctx set_fmt_ctx set_stream
       set_purge_item set_encode_head set_encode_pos set_encode_format
       set_thread_id set_sent_header
       audioq sink_audio_format codec_ctx fmt_ctx stream purge_item
       encode_head encode_pos encode_format thread_id sent_header
       items abort_request cleaned].

Lemma sink_purge_chunks : forall (e : GrooveEncoderPrivate) item chunks,
  items (audioq e) = map Some chunks ->
  sink_purge e item
  = Some
      (let e2 :=
         set_purge_item
           (set_audioq (set_purge_item e item)
              (mkQueue
                 (map Some (filter (fun c => negb (b_item c =? item)) chunks))
                 (abort_request (audioq e))
                 (cleaned (audioq e)
                  ++ map Some (filter (fun c => b_item c =? item) chunks))))
           NULL in
       if encode_head e =? item
       then set_encode_pos (set_encode_head e2 NULL) minus_one
       else e2).
Proof.
  intros e item chunks Hq. unfold sink_purge, groove_queue_purge.
  cbn [audioq set_purge_item]. rewrite Hq.
  rewrite (purge_walk_chunks (set_purge_item e item) chunks). reflexivity.
Qed.

(** X12.  Purging is idempotent: a second [sink_purge] for the same item
    right after the first finds nothing to remove and leaves the encoder
    exactly as the first left it. *)
Theorem sink_purge_idempotent :
  forall (e e' : GrooveEncoderPrivate) (item : Z),
    sink_purge e item = Some e' ->
    sink_purge e' item = Some e'.
Proof.
  intros e e' item Hrun.
  assert (Hch : exists chunks, items (audioq e) = map Some chunks).
  { unfold sink_purge, groove_queue_purge in Hrun. cbn [audioq set_purge_item] in Hrun.
    destruct (purge_walk (audioq_purge (set_purge_item e item)) (items (audioq e)))
      as [kr|] eqn:Ew; [|discriminate].
    exact (purge_walk_defined _ _ Ew). }
  destruct Hch as (chunks & Hq).
  rewrite (sink_purge_chunks e item chunks Hq) in Hrun.
  injection Hrun as <-.
  destruct e as [q saf cc fc st pi eh ep ef tid sh]. cbn in *.
  destruct (eh =? item) eqn:Eh.
  - match goal with
    | |- sink_purge ?e1 _ = _ =>
        rewrite (@sink_purge_chunks e1 item
                   (filter (fun c => negb (b_item c =? item)) chunks) eq_refl)
    end.
    norm_private.
    rewrite filter_negb_twice, filter_after_negb, app_nil_r.
    destruct (NULL =? item); reflexivity.
  - match goal with
    | |- sink_purge ?e1 _ = _ =>
        rewrite (@sink_purge_chunks e1 item
                   (filter (fun c => negb (b_item c =? item)) chunks) eq_refl)
    end.
    norm_private.
    rewrite filter_negb_twice, filter_after_negb, app_nil_r, Eh.
    reflexivity.
Qed.

Lemma sink_purge_idempotent_witness :
  sink_purge Runs.purged_once 11 = Some Runs.purged_once.
Proof.
  apply (@sink_purge_idempotent Runs.interleaved Runs.purged_once 11).
  vm_compute. reflexivity.
Defined.

End CallbackFacts.

Section FlushAndDetach.

Import Worker Session.

(** Normalises the encoder struct a detach leaves, innermost update
    first; the operations on the world stay folded. *)
Ltac norm_detach :=
  cbv [groove_encoder_detach set_internals set_playlist set_actual_audio_format
       internals playlist target_audio_format actual_audio_format bit_rate
       groove_queue_abort groove_queue_flush fst snd negb
       set_audioq set_sink_audio_format set_codec_ctx set_fmt_ctx set_stream
       set_purge_item set_encode_head set_encode_pos set_encode_format
       set_thread_id set_sent_header
       audioq sink_audio_format codec_ctx fmt_ctx stream purge_item
       encode_head encode_pos encode_format thread_id sent_header
       items abort_request cleaned].

(** X13.  [sink_flush] on a queue of chunks empties the queue and hands
    every chunk to cleanup once, in queue order; it resets the backend but
    leaves the encode head and the header flag as they were, and the next
    non-blocking [groove_encoder_get_buffer] reports no data with a null
    buffer. *)
Theorem sink_flush_discards_chunks :
  forall (Codec Muxer : Type) (avcodec_flush_buffers : Codec -> Codec)
         (s : State Codec Muxer) (chunks : list GrooveBuffer),
    pending_items s = map Some chunks ->
    let s' := Callbacks.sink_flush avcodec_flush_buffers s in
    pending_items s' = [] /\
    cleaned (audioq (enc s')) = cleaned (audioq (enc s)) ++ map Some chunks /\
    codec s' = avcodec_flush_buffers (codec s) /\
    encode_head (enc s') = encode_head (enc s) /\
    encode_pos (enc s') = encode_pos (enc s) /\
    sent_header (enc s') = sent_header (enc s) /\
    groove_encoder_get_buffer (enc s') false
    = Some (enc s', GROOVE_BUFFER_NO, None).
Proof.
  intros Codec Muxer flush s chunks Hq s'. subst s'.
  unfold pending_items in *. unfold Callbacks.sink_flush.
  destruct s as [e c m l]. destruct e as [q saf cc fc st pi eh ep ef tid sh].
  destruct q as [its ab cl]. cbn in *. subst its.
  repeat split.
  unfold groove_encoder_get_buffer, groove_queue_get. cbn.
  destruct ab; reflexivity.
Qed.

Lemma sink_flush_discards_chunks_witness :
  let s' := Callbacks.sink_flush (fun c : unit => c)
              (mkState Runs.interleaved tt tt []) in
  pending_items s' = [] /\
  cleaned (audioq (enc s'))
  = cleaned (audioq Runs.interleaved)
    ++ map Some [Backends.source_buffer 11 101; Backends.source_buffer 12 102;
                 Backends.source_buffer 11 103] /\
  codec s' = tt /\
  encode_head (enc s') = encode_head Runs.interleaved /\
  encode_pos (enc s') = encode_pos Runs.interleaved /\
  sent_header (enc s') = sent_header Runs.interleaved /\
  groove_encoder_get_buffer (enc s') false
  = Some (enc s', GROOVE_BUFFER_NO, None).
Proof.
  apply (@sink_flush_discards_chunks unit unit (fun c : unit => c)
           (mkState Runs.interleaved tt tt [])
           [Backends.source_buffer 11 101; Backends.source_buffer 12 102;
            Backends.source_buffer 11 103]).
  reflexivity.
Defined.

(** X14.  After [groove_encoder_detach] the queue is empty and aborted:
    [groove_encoder_get_buffer] returns at once, blocking or not, with no
    data and a null buffer. *)
Theorem get_buffer_after_detach :
  forall (encoder : GrooveEncoder) (w : World) (block : bool),
    let e' := internals (fst (fst (groove_encoder_detach encoder w))) in
    groove_encoder_get_buffer e' block = Some (e', GROOVE_BUFFER_NO, None).
Proof.
  intros encoder w block.
  destruct encoder as [tgt act br pl e].
  destruct e as [q saf cc fc st pi eh ep ef tid sh].
  unfold groove_encoder_detach. cbn.
  destruct (cc =? NULL); cbn; destruct (st =? NULL); cbn; reflexivity.
Qed.


Lemma detach_configuration : forall (encoder : GrooveEncoder) (w : World),
  target_audio_format (fst (fst (groove_encoder_detach encoder w)))
  = target_audio_format encoder /\
  bit_rate (fst (fst (groove_encoder_detach encoder w))) = bit_rate encoder /\
  actual_audio_format (fst (fst (groove_encoder_detach encoder w)))
  = actual_audio_format encoder.
Proof.
  intros encoder w. unfold groove_encoder_detach. cbn.
  destruct (codec_ctx (internals encoder) =? NULL); cbn; repeat split.
Qed.

(** X16.  Neither attach, whether it succeeds or fails, nor detach
    changes what the caller configured: the target format and the bit
    rate of the encoder stay as they were. *)
Theorem attach_detach_keep_configuration :
  forall (nb_channels bytes_per_sample packed_sample_fmt : Z -> Z) (NONE : Z)
         (env : AttachEnv) (encoder encoder' : GrooveEncoder) (playlist : Z)
         (w w' : World) (ret : Z),
    groove_encoder_attach nb_channels bytes_per_sample packed_sample_fmt NONE
      env encoder playlist w = Some (encoder', w', ret) ->
    target_audio_format encoder' = target_audio_format encoder /\
    bit_rate encoder' = bit_rate encoder /\
    target_audio_format (fst (fst (groove_encoder_detach encoder' w')))
    = target_audio_format encoder /\
    bit_rate (fst (fst (groove_encoder_detach encoder' w'))) = bit_rate encoder.
Proof.
  intros nb bps packed NONE env encoder encoder' playlist w w' ret Hrun.
  assert (Hkeep : target_audio_format encoder' = target_audio_format encoder /\
                  bit_rate encoder' = bit_rate encoder).
  { unfold groove_encoder_attach, attach_fail in Hrun.
    cbn -[groove_encoder_detach obtain Negotiator.negotiate] in Hrun.
    repeat match type of Hrun with
           | (if ?c then _ else _) = _ => destruct c
           | match ?o with Some _ => _ | None => _ end = _ => destruct o
           end;
      try discriminate;
      injection Hrun as <- _ _;
      try (destruct (detach_configuration
                       (set_internals (set_playlist encoder playlist) _) _)
             as (Ht & Hb & _); rewrite Ht, Hb; split; reflexivity);
      try (match goal with
           | |- context [groove_encoder_detach ?e ?w0] =>
               destruct (detach_configuration e w0) as (Ht & Hb & _);
               rewrite Ht, Hb
           end; split; reflexivity);
      split; reflexivity. }
  destruct Hkeep as [Ht Hb].
  destruct (detach_configuration encoder' w') as (Ht' & Hb' & _).
  rewrite Ht', Hb'. repeat split; assumption.
Qed.

Lemma attach_detach_keep_configuration_witness :
  exists encoder' w' ret,
    groove_encoder_attach Libav.nb_channels Libav.bytes_per_sample
      Libav.packed_sample_fmt Libav.SAMPLE_FMT_NONE working_env
      (created_encoder Libav.SAMPLE_FMT_S16 Libav.CH_LAYOUT_STEREO) 77 empty_world
    = Some (encoder', w', ret) /\
    target_audio_format encoder'
    = mkFormat 44100 Libav.CH_LAYOUT_STEREO Libav.SAMPLE_FMT_S16 /\
    bit_rate encoder' = 0 /\
    target_audio_format (fst (fst (groove_encoder_detach encoder' w')))
    = mkFormat 44100 Libav.CH_LAYOUT_STEREO Libav.SAMPLE_FMT_S16 /\
    bit_rate (fst (fst (groove_encoder_detach encoder' w'))) = 0.
Proof.
  eexists _, _, _.
  assert (Hrun : groove_encoder_attach Libav.nb_channels Libav.bytes_per_sample
            Libav.packed_sample_fmt Libav.SAMPLE_FMT_NONE working_env
            (created_encoder Libav.SAMPLE_FMT_S16 Libav.CH_LAYOUT_STEREO) 77
            empty_world = Some Runs.attached) by (vm_compute; reflexivity).
  split; [exact Hrun|].
  exact (@attach_detach_keep_configuration _ _ _ _ _ _ _ _ _ _ _ Hrun).
Defined.

End FlushAndDetach.

Section SessionCycles.

Import Session.

(** Runs attach or detach on a literal state: innermost operation first,
    each test settled before the next operation is opened. *)
Ltac run_world :=
  repeat first
    [ rewrite Z.eqb_refl
    | match goal with
      | H : (?a =? ?b) = _ |- context [?a =? ?b] => rewrite H
      | H : (?a <? ?b) = _ |- context [?a <? ?b] => rewrite H
      end
    | progress cbn
    | progress unfold open_codec, set_sink_attached
    | progress unfold groove_sink_detach
    | progress unfold SDL_WaitThread
    | progress unfold avcodec_close
    | progress unfold release, is_live
    | progress unfold avformat_free_context
    | progress unfold av_log ].

(** X17.  A session can be cycled: when attach succeeds from an
    unattached session, the detach that follows returns 0, releases the
    format context, the stream, the codec context and the worker thread
    exactly once each, and leaves a session that is unattached again, so
    that attach may be called anew. *)
Theorem attach_then_detach_releases_all :
  forall (nb_channels bytes_per_sample packed_sample_fmt : Z -> Z) (NONE : Z)
         (env : AttachEnv) (encoder : GrooveEncoder) (playlist : Z) (w : World),
    unattached encoder w ->
    (forall codec, ret_avcodec_find_encoder env = Some codec ->
       Negotiator.negotiate nb_channels bytes_per_sample packed_sample_fmt NONE
         codec (target_audio_format encoder) <> None) ->
    first_failure env = None ->
    exists encoder1 w1,
      groove_encoder_attach nb_channels bytes_per_sample packed_sample_fmt NONE
        env encoder playlist w = Some (encoder1, w1, 0) /\
      let r := groove_encoder_detach encoder1 w1 in
      snd r = 0 /\
      unattached (fst (fst r)) (snd (fst r)) /\
      torn_down (fst (fst r)) (snd (fst r)).
Proof.
  intros nb bps packed NONE env encoder playlist w Hun Hneg Hok.
  destruct encoder as [tgt act br pl e].
  destruct e as [q saf cc fc st pi eh ep ef tid sh].
  destruct w as [lv inv oc sa lg].
  destruct env as [rf rc rs rcc ro rsa rt].
  unfold unattached in Hun. simpl in Hun.
  destruct Hun as (-> & -> & -> & -> & -> & ->).
  simpl in Hneg.
  unfold first_failure in Hok. cbn in Hok.
  destruct (rf =? NULL) eqn:Ef; [discriminate|].
  destruct rc as [codec|]; [|discriminate].
  destruct (rs =? NULL) eqn:Es; [discriminate|].
  destruct (rcc =? NULL) eqn:Ec; [discriminate|].
  destruct (ro <? 0) eqn:Eo; [discriminate|].
  destruct (rsa <? 0) eqn:Esa; [discriminate|].
  destruct (rt =? NULL) eqn:Et; [discriminate|].
  destruct (Negotiator.negotiate nb bps packed NONE codec tgt) as [actual|] eqn:En;
    [|exfalso; exact (Hneg codec eq_refl En)].
  unfold groove_encoder_attach.
  cbn -[attach_fail groove_encoder_detach obtain].
  rewrite Ef, (@obtain_live _ _ _ Ef).
  cbn -[attach_fail groove_encoder_detach obtain].
  rewrite Es, (@obtain_live _ _ _ Es).
  cbn -[attach_fail groove_encoder_detach obtain].
  rewrite En.
  cbn -[attach_fail groove_encoder_detach obtain av_log].
  unfold av_log at 1.
  rewrite Ec, (@obtain_live _ _ _ Ec).
  cbn -[attach_fail groove_encoder_detach obtain].
  rewrite Eo, Esa.
  cbn -[attach_fail groove_encoder_detach obtain].
  rewrite Et, (@obtain_live _ _ _ Et).
  eexists _, _. split; [run_world; reflexivity|].
  unfold groove_encoder_detach. run_world.
  split; [reflexivity|].
  split; [unfold unattached | unfold torn_down]; cbn; repeat split.
Qed.

Lemma attach_then_detach_releases_all_witness :
  exists encoder1 w1,
    groove_encoder_attach Libav.nb_channels Libav.bytes_per_sample
      Libav.packed_sample_fmt Libav.SAMPLE_FMT_NONE working_env
      (created_encoder Libav.SAMPLE_FMT_S16 Libav.CH_LAYOUT_STEREO) 77 empty_world
    = Some (encoder1, w1, 0) /\
    let r := groove_encoder_detach encoder1 w1 in
    snd r = 0 /\
    unattached (fst (fst r)) (snd (fst r)) /\
    torn_down (fst (fst r)) (snd (fst r)).
Proof.
  apply (@attach_then_detach_releases_all Libav.nb_channels Libav.bytes_per_sample
           Libav.packed_sample_fmt Libav.SAMPLE_FMT_NONE working_env
           (created_encoder Libav.SAMPLE_FMT_S16 Libav.CH_LAYOUT_STEREO) 77
           empty_world).
  - repeat split.
  - intros codec Hc. injection Hc as <-. discriminate.
  - reflexivity.
Defined.

(** Runs the rollback of a failing branch of attach to a literal state,
    then the detach that follows it. *)
Ltac stale_branch :=
  unfold attach_fail;
  match goal with
  | |- context [groove_encoder_detach ?P ?W] =>
      let H := fresh "Hroll" in
      eassert (H : groove_encoder_detach P W = _)
        by (unfold groove_encoder_detach; run_world; reflexivity);
      rewrite H; clear H
  end;
  cbn [fst snd]; eexists _, _; split; [reflexivity|];
  unfold groove_encoder_detach; run_world;
  repeat split; try (apply Z.eqb_neq; assumption).

(** X18.  When attach fails at any step after the format context was
    allocated, the rollback frees that context but leaves its handle in
    the struct: the encoder attach hands back has a non-null [fmt_ctx]
    whose context is dead, and a [groove_encoder_detach] called on it
    frees the context a second time. *)
Theorem detach_after_failed_attach_frees_again :
  forall (nb_channels bytes_per_sample packed_sample_fmt : Z -> Z) (NONE : Z)
         (env : AttachEnv) (encoder : GrooveEncoder) (playlist : Z) (w : World)
         (step : AttachStep),
    unattached encoder w ->
    (forall codec, ret_avcodec_find_encoder env = Some codec ->
       Negotiator.negotiate nb_channels bytes_per_sample packed_sample_fmt NONE
         codec (target_audio_format encoder) <> None) ->
    first_failure env = Some step ->
    step <> StepFormatContext ->
    exists encoder1 w1,
      groove_encoder_attach nb_channels bytes_per_sample packed_sample_fmt NONE
        env encoder playlist w = Some (encoder1, w1, -1) /\
      fmt_ctx (internals encoder1) = ret_avformat_alloc_context env /\
      fmt_ctx (internals encoder1) <> NULL /\
      live w1 = [] /\ invalid w1 = [] /\
      invalid (snd (fst (groove_encoder_detach encoder1 w1)))
      = [FormatContext (ret_avformat_alloc_context env)].
Proof.
  intros nb bps packed NONE env encoder playlist w step Hun Hneg Hfail Hstep.
  destruct encoder as [tgt act br pl e].
  destruct e as [q saf cc fc st pi eh ep ef tid sh].
  destruct w as [lv inv oc sa lg].
  destruct env as [rf rc rs rcc ro rsa rt].
  unfold unattached in Hun. simpl in Hun.
  destruct Hun as (-> & -> & -> & -> & -> & ->).
  simpl in Hneg.
  unfold first_failure in Hfail. cbn in Hfail.
  unfold groove_encoder_attach.
  cbn -[attach_fail groove_encoder_detach obtain].
  destruct (rf =? NULL) eqn:Ef; [congruence|].
  rewrite (@obtain_live _ _ _ Ef).
  cbn -[attach_fail groove_encoder_detach obtain].
  destruct rc as [codec|]; [|stale_branch].
  destruct (rs =? NULL) eqn:Es;
    [rewrite (@obtain_null _ _ _ Es); stale_branch | rewrite (@obtain_live _ _ _ Es)].
  cbn -[attach_fail groove_encoder_detach obtain].
  destruct (Negotiator.negotiate nb bps packed NONE codec tgt) as [actual|] eqn:En;
    [|exfalso; exact (Hneg codec eq_refl En)].
  cbn -[attach_fail groove_encoder_detach obtain av_log].
  unfold av_log at 1.
  destruct (rcc =? NULL) eqn:Ec;
    [rewrite (@obtain_null _ _ _ Ec); stale_branch | rewrite (@obtain_live _ _ _ Ec)].
  cbn -[attach_fail groove_encoder_detach obtain].
  destruct (ro <? 0) eqn:Eo; [stale_branch|].
  destruct (rsa <? 0) eqn:Esa; [stale_branch|].
  destruct (rt =? NULL) eqn:Et; [|discriminate].
  rewrite (@obtain_null _ _ _ Et). stale_branch.
Qed.

Lemma detach_after_failed_attach_frees_again_witness :
  exists encoder1 w1,
    groove_encoder_attach Libav.nb_channels Libav.bytes_per_sample
      Libav.packed_sample_fmt Libav.SAMPLE_FMT_NONE failing_open_env
      (created_encoder Libav.SAMPLE_FMT_S16 Libav.CH_LAYOUT_STEREO) 77 empty_world
    = Some (encoder1, w1, -1) /\
    fmt_ctx (internals encoder1) = 1000 /\
    fmt_ctx (internals encoder1) <> NULL /\
    live w1 = [] /\ invalid w1 = [] /\
    invalid (snd (fst (groove_encoder_detach encoder1 w1))) = [FormatContext 1000].
Proof.
  apply (@detach_after_failed_attach_frees_again Libav.nb_channels
           Libav.bytes_per_sample Libav.packed_sample_fmt Libav.SAMPLE_FMT_NONE
           failing_open_env
           (created_encoder Libav.SAMPLE_FMT_S16 Libav.CH_LAYOUT_STEREO) 77
           empty_world StepCodecOpen).
  - repeat split.
  - intros codec Hc. injection Hc as <-. discriminate.
  - reflexivity.
  - discriminate.
Defined.

End SessionCycles.

(** ** Creation and destruction *)

Section CreateDestroy.

Import Creation.

Lemma allocate_literal : forall o h a b l,
  allocate o h (mkHeap a b l)
  = if h =? NULL then mkHeap a b l else mkHeap (a ++ [o]) b l.
Proof. reflexivity. Qed.

Lemma dispose_literal : forall o a b l,
  dispose o (mkHeap a b l)
  = if existsb (Object_eqb o) a
    then mkHeap (filter (fun x => negb (Object_eqb o x)) a) b l
    else mkHeap a (b ++ [o]) l.
Proof. reflexivity. Qed.

Lemma av_free_literal : forall o h a b l,
  av_free o h (mkHeap a b l)
  = if h =? NULL then mkHeap a b l else dispose o (mkHeap a b l).
Proof. reflexivity. Qed.

Lemma log_error_literal : forall msg a b l,
  log_error msg (mkHeap a b l) = mkHeap a b (l ++ [LogError msg]).
Proof. reflexivity. Qed.

(** Runs create and destroy on a heap whose tests are all decided by the
    context.  The heap is evaluated innermost first: an operation is only
    opened once its heap argument is a literal, and every test is settled
    before the next operation is opened. *)
Ltac run_heap :=
  repeat first
    [ rewrite Z.eqb_refl
    | match goal with
      | H : (?a =? ?b) = _ |- context [?a =? ?b] => rewrite H
      end
    | progress cbn [fst snd negb orb andb existsb filter app
                    allocated bad_free messages Object_eqb
                    p_encoder p_internals p_sink p_audioq
                    p_encode_head_mutex p_avio p_avio_buf]
    | rewrite allocate_literal
    | rewrite dispose_literal
    | rewrite av_free_literal
    | rewrite log_error_literal
    | progress unfold groove_encoder_destroy ].

Ltac null_handle :=
  match goal with
  | H : (?a =? NULL) = true |- Exists _ _ =>
      apply Exists_exists; exists a; split;
      [simpl; tauto | apply Z.eqb_eq; exact H]
  end.

Ltac failed_create :=
  run_heap; split; [reflexivity|]; split; [null_handle|];
  split; [reflexivity | eexists; reflexivity].

Ltac next_test :=
  cbv iota;
  cbn [orb p_encoder p_internals p_sink p_audioq
       p_encode_head_mutex p_avio p_avio_buf].

(** X19.  [groove_encoder_create] is all or nothing.  When the seven
    allocations succeed it returns an encoder whose seven objects are
    exactly what is allocated, and logs nothing.  When any allocation
    returns null it returns the null pointer, logs one error, and has
    released every object it had obtained up to then; in neither case is
    anything freed that was not allocated. *)
Theorem create_all_or_nothing : forall (env : CreateEnv),
  let handles :=
    [ret_mallocz_encoder env; ret_mallocz_private env; ret_malloc_avio_buf env;
     ret_avio_alloc_context env; ret_SDL_CreateMutex env;
     ret_groove_queue_create env; ret_groove_sink_create env] in
  let r := groove_encoder_create env empty_heap in
  bad_free (snd r) = [] /\
  match fst r with
  | Some p =>
      Forall (fun h => h <> NULL) handles /\
      allocated (snd r) = objects_of p /\
      messages (snd r) = []
  | None =>
      Exists (fun h => h = NULL) handles /\
      allocated (snd r) = [] /\
      exists msg, messages (snd r) = [LogError msg]
  end.
Proof.
  intros [re rp rb ra rm rq rs]. cbv zeta.
  unfold groove_encoder_create, empty_heap.
  cbn [ret_mallocz_encoder ret_mallocz_private ret_malloc_avio_buf
       ret_avio_alloc_context ret_SDL_CreateMutex ret_groove_queue_create
       ret_groove_sink_create].
  cbv zeta.
  destruct (re =? NULL) eqn:Ee; [destruct (rp =? NULL) eqn:Ep; failed_create|].
  destruct (rp =? NULL) eqn:Ep; [failed_create|]. next_test.
  destruct (rb =? NULL) eqn:Eb; [failed_create|]. next_test.
  destruct (ra =? NULL) eqn:Ea; [failed_create|]. next_test.
  destruct (rm =? NULL) eqn:Em; [failed_create|]. next_test.
  destruct (rq =? NULL) eqn:Eq; [failed_create|]. next_test.
  destruct (rs =? NULL) eqn:Es; [failed_create|]. next_test.
  run_heap.
  split; [reflexivity|]. split; [|split; reflexivity].
  repeat constructor; apply Z.eqb_neq; assumption.
Qed.

(** X20.  Create and destroy undo each other: destroying the encoder a
    successful create returned frees each of its seven objects once and
    leaves nothing allocated. *)
Theorem create_then_destroy_frees_all :
  forall (env : CreateEnv) (p : Pointers) (m : Heap),
    groove_encoder_create env empty_heap = (Some p, m) ->
    allocated (groove_encoder_destroy p m) = [] /\
    bad_free (groove_encoder_destroy p m) = [] /\
    messages (groove_encoder_destroy p m) = [].
Proof.
  intros [re rp rb ra rm rq rs] p m Hrun.
  unfold groove_encoder_create, empty_heap in Hrun.
  cbn [ret_mallocz_encoder ret_mallocz_private ret_malloc_avio_buf
       ret_avio_alloc_context ret_SDL_CreateMutex ret_groove_queue_create
       ret_groove_sink_create] in Hrun.
  cbv zeta in Hrun.
  cbn [orb p_encoder p_internals p_sink p_audioq
       p_encode_head_mutex p_avio p_avio_buf] in Hrun.
  destruct (re =? NULL) eqn:Ee; [discriminate|].
  destruct (rp =? NULL) eqn:Ep; [discriminate|].
  destruct (rb =? NULL) eqn:Eb; [discriminate|].
  destruct (ra =? NULL) eqn:Ea; [discriminate|].
  destruct (rm =? NULL) eqn:Em; [discriminate|].
  destruct (rq =? NULL) eqn:Eq; [discriminate|].
  destruct (rs =? NULL) eqn:Es; [discriminate|].
  cbn [orb] in Hrun. cbv iota in Hrun.
  injection Hrun as <- <-.
  run_heap. repeat split.
Qed.

Lemma create_then_destroy_frees_all_witness :
  exists p m,
    groove_encoder_create generous_env empty_heap = (Some p, m) /\
    allocated (groove_encoder_destroy p m) = [] /\
    bad_free (groove_encoder_destroy p m) = [] /\
    messages (groove_encoder_destroy p m) = [].
Proof.
  eexists _, _.
  assert (Hrun : groove_encoder_create generous_env empty_heap
                 = (Some (mkPointers 10 11 16 15 14 13 12),
                    mkHeap (objects_of (mkPointers 10 11 16 15 14 13 12)) [] []))
    by reflexivity.
  split; [exact Hrun|].
  exact (@create_then_destroy_frees_all _ _ _ Hrun).
Defined.

End CreateDestroy.
